(** * relay: the synchronisation core, embedded and checked against its specification

    The development follows the Go sources of [internal/core]:
    [retry.go] (error classification and the retry loop), [errors.go] (the
    classified errors and their bounded collector), [resolver.go] (conflict
    detection and resolution), [scanner.go] (the checksum-cached scanner),
    the copier and the engine ([Sync], [syncFile], [needsSync]).

    Conventions.
    - A Go [int], [int64] or [time.Duration] is a [Z] kept in the signed
      64-bit range by [wrap64]; every addition and subtraction the code
      performs is written with its wrap-around.
    - A [time.Time] is the instant it denotes, in nanoseconds, as a [Z].
    - A Go [error] is a value of the inductive type [error]; [nil] is [None]
      of [option error].
    - Calls into the operating system are not executed: their results are
      read from an explicit record of outcomes, so that every theorem
      quantifies over whatever the file system may answer. *)

From Stdlib Require Import ZArith Lia Bool List Ascii String.
From stdpp Require Import base numbers option list strings gmap pretty.

Local Open Scope string_scope.
Local Open Scope Z_scope.
Local Open Scope list_scope.

(** ** Machine integers *)

Definition min_int64 : Z := - 2 ^ 63.
Definition max_int64 : Z := 2 ^ 63 - 1.

(** Two's complement reduction of a mathematical integer to [int64]. *)
Definition wrap64 (z : Z) : Z := (z + 2 ^ 63) mod 2 ^ 64 - 2 ^ 63.

Definition in_int64 (z : Z) : Prop := min_int64 <= z <= max_int64.

Definition add64 (x y : Z) : Z := wrap64 (x + y).
Definition sub64 (x y : Z) : Z := wrap64 (x - y).

(** ** Go errors *)

Module GoErr.

(** The [syscall.Errno] values the file operations of the core meet. *)
Inductive Errno : Type := EPERM | ENOENT | EIO | EACCES | ENOSPC.

Definition Errno_Error (e : Errno) : string :=
  match e with
  | EPERM => "operation not permitted"
  | ENOENT => "no such file or directory"
  | EIO => "input/output error"
  | EACCES => "permission denied"
  | ENOSPC => "no space left on device"
  end.

(** Error values.  [ErrorString] is what [errors.New] and a [fmt.Errorf]
    without [%w] build; [WrapError] is [*fmt.wrapError], the result of a
    [fmt.Errorf] with one [%w]: it keeps the formatted message and the
    wrapped error; [PathError] is [*fs.PathError]; [RetryableError] is the
    core's own [*RetryableError]. *)
Inductive error : Type :=
| Canceled                (* context.Canceled *)
| DeadlineExceeded        (* context.DeadlineExceeded *)
| ErrNotExist             (* fs.ErrNotExist *)
| EOF                     (* io.EOF *)
| ErrnoError (e : Errno)
| ErrorString (s : string)
| WrapError (msg : string) (err : error)
| PathError (Op Path : string) (Err : error)
| RetryableError (Err : error) (Retryable Fatal : bool).

Fixpoint Error (e : error) : string :=
  match e with
  | Canceled => "context canceled"
  | DeadlineExceeded => "context deadline exceeded"
  | ErrNotExist => "file does not exist"
  | EOF => "EOF"
  | ErrnoError n => Errno_Error n
  | ErrorString s => s
  | WrapError msg _ => msg
  | PathError op path err => op +:+ " " +:+ path +:+ ": " +:+ Error err
  | RetryableError err _ _ => Error err
  end.

(** [Unwrap]: the next error of the chain, if any. *)
Definition Unwrap (e : error) : option error :=
  match e with
  | WrapError _ err => Some err
  | PathError _ _ err => Some err
  | RetryableError err _ _ => Some err
  | _ => None
  end.

(** [fmt.Errorf(prefix + "%w", err)]: every wrapping call of the core has
    its [%w] verb last. *)
Definition Errorf_w (prefix : string) (err : error) : error :=
  WrapError (prefix +:+ Error err) err.

(** [fmt.Errorf(prefix + "%w", nil)]: the verb prints [%!w(<nil>)] and
    nothing is wrapped. *)
Definition Errorf_w_nil (prefix : string) : error :=
  ErrorString (prefix +:+ "%!w(<nil>)").

Definition is_Canceled (e : error) : bool :=
  match e with Canceled => true | _ => false end.

Definition is_DeadlineExceeded (e : error) : bool :=
  match e with DeadlineExceeded => true | _ => false end.

(** [errors.Is(err, target)] for a sentinel [target], recognised by
    [is_target]: the chain of [Unwrap] is searched for the sentinel. *)
Fixpoint errors_Is (is_target : error -> bool) (e : error) : bool :=
  is_target e ||
  match e with
  | WrapError _ err => errors_Is is_target err
  | PathError _ _ err => errors_Is is_target err
  | RetryableError err _ _ => errors_Is is_target err
  | _ => false
  end.

(** [errors.As(err, &retryableErr)]: the first [*RetryableError] of the
    chain. *)
Fixpoint errors_As_Retryable (e : error) : option (error * bool * bool) :=
  match e with
  | RetryableError err r f => Some (err, r, f)
  | WrapError _ err => errors_As_Retryable err
  | PathError _ _ err => errors_As_Retryable err
  | _ => None
  end.

(** [os.IsNotExist].  It predates [errors.Is]: [underlyingError] looks
    through a [*PathError] only (and the like of the [os] package), never
    through [Unwrap]. *)
Definition underlyingError (e : error) : error :=
  match e with
  | PathError _ _ err => err
  | _ => e
  end.

Definition os_IsNotExist (e : error) : bool :=
  match underlyingError e with
  | ErrNotExist => true
  | ErrnoError ENOENT => true
  | _ => false
  end.

End GoErr.
Export GoErr.

(** ** retry.go: substring search and error classification *)

Module Retry.

Definition len (s : string) : nat := String.length s.

(** [str[i:i+len(substr)] == substr] for [i] from [i] on, [n] positions. *)
Fixpoint indexContains_from (str substr : string) (i n : nat) : bool :=
  match n with
  | O => false
  | S n' =>
      if String.eqb (String.substring i (len substr) str) substr then true
      else indexContains_from str substr (S i) n'
  end.

(** [for i := 0; i <= len(str)-len(substr); i++]: no iteration when the
    bound is negative. *)
Definition indexContains (str substr : string) : bool :=
  if (len str <? len substr)%nat then false
  else indexContains_from str substr 0 (S (len str - len substr)).

Definition contains (str substr : string) : bool :=
  (len substr <=? len str)%nat &&
  (String.eqb str substr ||
   ((len substr <? len str)%nat &&
    (String.eqb (String.substring 0 (len substr) str) substr ||
     String.eqb (String.substring (len str - len substr) (len substr) str) substr ||
     indexContains str substr))).

Definition matches_any (patterns : list string) (errStr : string) : bool :=
  existsb (contains errStr) patterns.

Definition networkPatterns : list string :=
  [ "connection refused"; "connection reset"; "timeout";
    "network is unreachable"; "temporary failure"; "no route to host" ].

Definition permissionPatterns : list string :=
  [ "permission denied"; "access denied"; "operation not permitted";
    "insufficient privileges" ].

Definition diskFullPatterns : list string :=
  [ "no space left on device"; "disk full"; "insufficient space";
    "not enough space" ].

Definition notFoundPatterns : list string :=
  [ "no such file or directory"; "file not found"; "path not found";
    "not found" ].

Definition ioPatterns : list string :=
  [ "i/o error"; "input/output error"; "read error"; "write error";
    "broken pipe"; "connection broken" ].

Definition isNetworkError (err : error) : bool :=
  matches_any networkPatterns (Error err).
Definition isPermissionError (err : error) : bool :=
  matches_any permissionPatterns (Error err).
Definition isDiskFullError (err : error) : bool :=
  matches_any diskFullPatterns (Error err).
Definition isNotFoundError (err : error) : bool :=
  matches_any notFoundPatterns (Error err).
Definition isIOError (err : error) : bool :=
  matches_any ioPatterns (Error err).

Definition isContextError (err : error) : bool :=
  errors_Is is_Canceled err || errors_Is is_DeadlineExceeded err.

Definition NewRetryableError (err : error) (retryable : bool) : error :=
  RetryableError err retryable false.

Definition NewFatalError (err : error) : error :=
  RetryableError err false true.

(** [ClassifyError] on a non-nil error; the tests are made in the order of
    the source. *)
Definition ClassifyError (err : error) : error :=
  if isNetworkError err then NewRetryableError err true
  else if isPermissionError err then NewRetryableError err false
  else if isDiskFullError err then NewRetryableError err false
  else if isContextError err then NewFatalError err
  else if isNotFoundError err then NewRetryableError err false
  else if isIOError err then NewRetryableError err true
  else NewRetryableError err true.

Definition Fatal_of (e : error) : bool :=
  match e with RetryableError _ _ f => f | _ => false end.

Definition Retryable_of (e : error) : bool :=
  match e with RetryableError _ r _ => r | _ => false end.

End Retry.
Export Retry.

(** ** errors.go: classified errors and their bounded collector *)

Module Errors.

(** [ErrorCategory], an [iota] enumeration from 0. *)
Inductive ErrorCategory : Type :=
| ErrorCategoryUnknown
| ErrorCategoryNetwork
| ErrorCategoryPermission
| ErrorCategoryDisk
| ErrorCategoryCorruption
| ErrorCategoryConfiguration
| ErrorCategoryCancellation.

Definition ErrorCategory_iota (c : ErrorCategory) : nat :=
  match c with
  | ErrorCategoryUnknown => 0
  | ErrorCategoryNetwork => 1
  | ErrorCategoryPermission => 2
  | ErrorCategoryDisk => 3
  | ErrorCategoryCorruption => 4
  | ErrorCategoryConfiguration => 5
  | ErrorCategoryCancellation => 6
  end.

Definition ErrorCategory_of_iota (n : nat) : ErrorCategory :=
  match n with
  | 1 => ErrorCategoryNetwork
  | 2 => ErrorCategoryPermission
  | 3 => ErrorCategoryDisk
  | 4 => ErrorCategoryCorruption
  | 5 => ErrorCategoryConfiguration
  | 6 => ErrorCategoryCancellation
  | _ => ErrorCategoryUnknown
  end%nat.

Global Instance ErrorCategory_eq_dec : EqDecision ErrorCategory.
Proof. solve_decision. Defined.

Global Instance ErrorCategory_countable : Countable ErrorCategory.
Proof.
  refine (inj_countable' ErrorCategory_iota ErrorCategory_of_iota _).
  by intros [].
Defined.

Definition ErrorCategory_String (ec : ErrorCategory) : string :=
  match ec with
  | ErrorCategoryNetwork => "Network"
  | ErrorCategoryPermission => "Permission"
  | ErrorCategoryDisk => "Disk"
  | ErrorCategoryCorruption => "Corruption"
  | ErrorCategoryConfiguration => "Configuration"
  | ErrorCategoryCancellation => "Cancellation"
  | ErrorCategoryUnknown => "Unknown"
  end.

Record SyncError : Type := mkSyncError {
  Category : ErrorCategory;
  Operation : string;
  ErrPath : string;
  Message : string;
  Underlying : error;
  Timestamp : Z;
  Recoverable : bool;
  Suggestion : string
}.

(** The constructors; [now] is the reading of [time.Now()]. *)
Definition NewNetworkError (now : Z) (operation path : string) (err : error) : SyncError :=
  mkSyncError ErrorCategoryNetwork operation path (Error err) err now true
    "Check network connectivity and try again".

Definition NewPermissionError (now : Z) (operation path : string) (err : error) : SyncError :=
  mkSyncError ErrorCategoryPermission operation path (Error err) err now false
    "Check file permissions or run with elevated privileges".

Definition NewDiskError (now : Z) (operation path : string) (err : error) : SyncError :=
  mkSyncError ErrorCategoryDisk operation path (Error err) err now false
    "Free up disk space and try again".

Definition NewCancellationError (now : Z) (operation path : string) (err : error) : SyncError :=
  mkSyncError ErrorCategoryCancellation operation path (Error err) err now false
    "Operation was cancelled by user or timeout".

(** [ClassifySyncError] on a non-nil error. *)
Definition ClassifySyncError (now : Z) (operation path : string) (err : error) : SyncError :=
  let retryableErr := ClassifyError err in
  if isNetworkError err then NewNetworkError now operation path err
  else if isPermissionError err then NewPermissionError now operation path err
  else if isDiskFullError err then NewDiskError now operation path err
  else if isContextError err then NewCancellationError now operation path err
  else mkSyncError ErrorCategoryUnknown operation path (Error err) err now
         (Retryable_of retryableErr)
         "Check logs for more details and try again".

Record ErrorHandler : Type := mkErrorHandler {
  errors : list SyncError;
  maxErrors : Z
}.

Definition NewErrorHandler (maxErrors : Z) : ErrorHandler :=
  let maxErrors := if maxErrors <=? 0 then 1000 else maxErrors in
  mkErrorHandler [] maxErrors.

(** [AddError].  The slice expression [eh.errors[1:]] panics on an empty
    slice: [None] is that panic. *)
Definition AddError (eh : ErrorHandler) (err : SyncError) : option ErrorHandler :=
  if maxErrors eh <=? Z.of_nat (length (errors eh)) then
    match errors eh with
    | [] => None
    | _ :: rest => Some (mkErrorHandler (rest ++ [err]) (maxErrors eh))
    end
  else Some (mkErrorHandler (errors eh ++ [err]) (maxErrors eh)).

Definition GetErrors (eh : ErrorHandler) : list SyncError := errors eh.

Definition GetErrorsByCategory (eh : ErrorHandler) (category : ErrorCategory)
  : list SyncError :=
  filter (fun e => Category e = category) (errors eh).

Definition Clear (eh : ErrorHandler) : ErrorHandler :=
  mkErrorHandler [] (maxErrors eh).

Definition ErrorCount (eh : ErrorHandler) : nat := length (errors eh).

(** [summary[err.Category]++] on a Go map: a missing key reads as 0. *)
Definition summary_incr (summary : gmap ErrorCategory Z) (c : ErrorCategory)
  : gmap ErrorCategory Z :=
  <[c := add64 (default 0 (summary !! c)) 1]> summary.

Definition GetSummary (eh : ErrorHandler) : gmap ErrorCategory Z :=
  foldl (fun summary err => summary_incr summary (Category err)) ∅ (errors eh).

End Errors.
Export Errors.

(** ** time.Time and time.Duration *)

Module GoTime.

(** An instant, in nanoseconds; a file's modification time carries no
    monotonic clock reading, so [Equal], [After] and [Sub] compare
    instants. *)
Definition Time : Type := Z.

Definition Nanosecond : Z := 1.
Definition Second : Z := 1000000000.
Definition Minute : Z := 60 * Second.

Definition After (t u : Time) : bool := u <? t.
Definition Before (t u : Time) : bool := t <? u.
Definition Equal (t u : Time) : bool := t =? u.

(** [t.Sub(u)]: the duration [t-u], or the largest (smallest) [Duration]
    when [t-u] does not fit in one. *)
Definition Sub (t u : Time) : Z :=
  if max_int64 <? t - u then max_int64
  else if t - u <? min_int64 then min_int64
  else t - u.

(** [t.Unix()]: whole seconds, rounded down. *)
Definition Unix (t : Time) : Z := t `div` Second.

End GoTime.

(** ** types.go *)

Record FileInfo : Type := mkFileInfo {
  Path : string;
  Size : Z;
  ModTime : GoTime.Time;
  Mode : Z;
  IsDir : bool;
  Checksum : string;
  ChecksumAlgo : string
}.

(** [SyncStats]: the nine counters ([StartTime], [EndTime] and [Duration],
    readings of the clock, are left out). *)
Record SyncStats : Type := mkSyncStats {
  FilesScanned : Z;
  FilesChanged : Z;
  FilesCreated : Z;
  FilesModified : Z;
  FilesDeleted : Z;
  BytesTransferred : Z;
  ConflictsFound : Z;
  ConflictsResolved : Z;
  ErrorsEncountered : Z
}.

Definition zeroStats : SyncStats := mkSyncStats 0 0 0 0 0 0 0 0 0.

Record SyncOptions : Type := mkSyncOptions {
  DryRun : bool;
  Force : bool;
  Recursive : bool;
  PreservePerms : bool;
  PreserveTimes : bool;
  DeleteExtraneous : bool;
  ChecksumVerify : bool;
  Workers : Z;
  BufferSize : Z;
  Timeout : Z
}.

(** ** resolver.go *)

Module Resolver.

(** [config.ConflictStrategy], a string type, and its constants. *)
Definition ConflictNewest : string := "newest".
Definition ConflictSource : string := "source".
Definition ConflictDestination : string := "destination".
Definition ConflictInteractive : string := "interactive".
Definition ConflictSmart : string := "smart".
Definition ConflictSkip : string := "skip".

Record ConflictResolver : Type := mkConflictResolver {
  strategy : string;
  backup : bool;
  backupDir : string;
  interactive : bool
}.

Inductive ConflictType : Type :=
| ConflictSizesDiffer
| ConflictModTimesDiffer
| ConflictChecksumsDiffer
| ConflictBothModified.

Record ConflictInfo : Type := mkConflictInfo {
  ConflictPath : string;
  SourceInfo : FileInfo;
  DestInfo : FileInfo;
  Conflict : ConflictType
}.

Inductive ConflictResolution : Type :=
| ResolutionUseSource
| ResolutionUseDestination
| ResolutionSkip
| ResolutionBackupAndUseSource
| ResolutionMerge.

(** [config.ConflictConfig], as [NewConflictResolver] reads it; [None] is
    the nil configuration. *)
Record ConflictConfig : Type := mkConflictConfig {
  CfgStrategy : string;
  CfgBackup : bool;
  CfgBackupDir : string;
  CfgInteractive : bool
}.

Definition NewConflictResolver (cfg : option ConflictConfig) : ConflictResolver :=
  let cfg := match cfg with
             | Some c => c
             | None => mkConflictConfig ConflictNewest false "" false
             end in
  let backupDir := if String.eqb (CfgBackupDir cfg) "" then ".relay-backups"
                   else CfgBackupDir cfg in
  mkConflictResolver (CfgStrategy cfg) (CfgBackup cfg) backupDir (CfgInteractive cfg).

Definition resolveByNewest (conflict : ConflictInfo) : ConflictResolution :=
  if GoTime.After (ModTime (SourceInfo conflict)) (ModTime (DestInfo conflict))
  then ResolutionUseSource
  else if GoTime.After (ModTime (DestInfo conflict)) (ModTime (SourceInfo conflict))
  then ResolutionUseDestination
  else ResolutionUseSource.

Definition resolveSmart (conflict : ConflictInfo) : ConflictResolution :=
  let sizeDiff := sub64 (Size (SourceInfo conflict)) (Size (DestInfo conflict)) in
  let timeDiff := GoTime.Sub (ModTime (SourceInfo conflict)) (ModTime (DestInfo conflict)) in
  if GoTime.Minute <? timeDiff then ResolutionUseSource
  else if timeDiff <? - GoTime.Minute then ResolutionUseDestination
  else if 1024 <? sizeDiff then ResolutionUseSource
  else if sizeDiff <? -1024 then ResolutionUseDestination
  else resolveByNewest conflict.

(** [ResolveConflict].  [resolveInteractively] prints the conflict and
    reads the terminal until it gets an answer: that answer is the
    argument [ask]. *)
Definition ResolveConflict (cr : ConflictResolver)
    (ask : ConflictInfo -> ConflictResolution * option error)
    (conflict : ConflictInfo) : ConflictResolution * option error :=
  if interactive cr then ask conflict
  else if String.eqb (strategy cr) ConflictNewest then (resolveByNewest conflict, None)
  else if String.eqb (strategy cr) ConflictSource then (ResolutionUseSource, None)
  else if String.eqb (strategy cr) ConflictDestination then (ResolutionUseDestination, None)
  else if String.eqb (strategy cr) ConflictSmart then (resolveSmart conflict, None)
  else if String.eqb (strategy cr) ConflictSkip then (ResolutionSkip, None)
  else (resolveByNewest conflict, None).

(** [DetectConflict] on two records (the engine never passes nil). *)
Definition DetectConflict (source dest : FileInfo) : option ConflictInfo :=
  if negb (Size source =? Size dest) then
    Some (mkConflictInfo (Path source) source dest ConflictSizesDiffer)
  else if negb (GoTime.Equal (ModTime source) (ModTime dest)) then
    Some (mkConflictInfo (Path source) source dest ConflictModTimesDiffer)
  else if negb (String.eqb (Checksum source) "") && negb (String.eqb (Checksum dest) "")
          && negb (String.eqb (Checksum source) (Checksum dest)) then
    Some (mkConflictInfo (Path source) source dest ConflictChecksumsDiffer)
  else None.

(** [CreateBackup], reduced to its error result: nothing is done unless
    backups are enabled; otherwise the backup directory is made
    ([mkdirAll], the result of [os.MkdirAll]) and the destination copied
    into it ([copyFile], the result of [CopyFile]). *)
Definition CreateBackup (cr : ConflictResolver)
    (mkdirAll copyFile : option error) : option error :=
  if negb (backup cr) then None
  else match mkdirAll with
       | Some err => Some (Errorf_w "failed to create backup directory: " err)
       | None =>
           match copyFile with
           | Some err => Some (Errorf_w "failed to create backup: " err)
           | None => None
           end
       end.

End Resolver.
Export Resolver.

(** ** scanner.go *)

Module Scanner.

(** The two hash functions of the scanner ([blake3.New] and [sha256.New],
    then [Sum]) are libraries: their digests are taken as given. *)
Record Hashers : Type := mkHashers {
  blake3_Sum : list Byte.byte -> list Byte.byte;
  sha256_Sum : list Byte.byte -> list Byte.byte
}.

Definition hexdigit (n : nat) : Ascii.ascii :=
  match String.get n "0123456789abcdef" with
  | Some c => c
  | None => Ascii.zero
  end.

(** [hex.EncodeToString]. *)
Fixpoint hex_EncodeToString (bs : list Byte.byte) : string :=
  match bs with
  | [] => ""
  | b :: rest =>
      let n := Byte.to_nat b in
      String (hexdigit (n / 16)%nat) (String (hexdigit (n mod 16)%nat) (hex_EncodeToString rest))
  end.

Record cacheEntry : Type := mkCacheEntry {
  checksum : string;
  modTime : Z;
  size : Z
}.

Record FileScanner : Type := mkFileScanner {
  maxConcurrency : Z;
  checksumAlgo : string;
  cache : gmap string cacheEntry
}.

(** [gomaxprocs] is [runtime.GOMAXPROCS(0)]. *)
Definition NewFileScanner (gomaxprocs : Z) (maxConcurrency : Z) : FileScanner :=
  let maxConcurrency :=
    if maxConcurrency <=? 0 then wrap64 (gomaxprocs * 2) else maxConcurrency in
  mkFileScanner maxConcurrency "blake3" ∅.

Definition SetChecksumAlgorithm (s : FileScanner) (algo : string) : FileScanner :=
  mkFileScanner (maxConcurrency s) algo (cache s).

(** What the file system answers for one path: [fs.DirEntry.Info], then
    [os.Open] and the reading of the whole file by [io.Copy]. *)
Record FileStat : Type := mkFileStat {
  st_Size : Z;
  st_ModTime : GoTime.Time;
  st_Mode : Z;
  st_IsDir : bool
}.

Record FileRead : Type := mkFileRead {
  open_err : option error;
  read_all : list Byte.byte + error
}.

(** [calculateChecksum]; [reader] is what [io.Copy] gets out of the file. *)
Definition calculateChecksum (H : Hashers) (s : FileScanner)
    (reader : list Byte.byte + error) : string + error :=
  if String.eqb (checksumAlgo s) "blake3" then
    match reader with
    | inr err => inr err
    | inl data => inl (hex_EncodeToString (blake3_Sum H data))
    end
  else if String.eqb (checksumAlgo s) "sha256" then
    match reader with
    | inr err => inr err
    | inl data => inl (hex_EncodeToString (sha256_Sum H data))
    end
  else if String.eqb (checksumAlgo s) "md5" then
    match reader with
    | inr err => inr err
    | inl data => inl (hex_EncodeToString (sha256_Sum H data))
    end
  else inr (ErrorString ("unsupported checksum algorithm: " +:+ checksumAlgo s)).

Definition cache_hit (s : FileScanner) (path : string) (info : FileInfo) : option string :=
  match cache s !! path with
  | Some entry =>
      if (modTime entry =? GoTime.Unix (ModTime info)) && (size entry =? Size info)
      then Some (checksum entry) else None
  | None => None
  end.

(** [getChecksum]: the digest or the error, and the scanner with its cache
    as the call leaves it. *)
Definition getChecksum (H : Hashers) (s : FileScanner) (file : FileRead)
    (path : string) (info : FileInfo) : (string + error) * FileScanner :=
  match cache_hit s path info with
  | Some c => (inl c, s)
  | None =>
      match open_err file with
      | Some err => (inr (Errorf_w ("failed to open file " +:+ path +:+ ": ") err), s)
      | None =>
          match calculateChecksum H s (read_all file) with
          | inr err =>
              (inr (Errorf_w ("failed to calculate checksum for " +:+ path +:+ ": ") err), s)
          | inl c =>
              (inl c,
               mkFileScanner (maxConcurrency s) (checksumAlgo s)
                 (<[path := mkCacheEntry c (GoTime.Unix (ModTime info)) (Size info)]> (cache s)))
          end
      end
  end.

(** [getFileInfo]; [stat] is the result of [d.Info()]. *)
Definition getFileInfo (H : Hashers) (s : FileScanner) (path : string)
    (stat : FileStat + error) (file : FileRead) : (FileInfo + error) * FileScanner :=
  match stat with
  | inr err => (inr (Errorf_w ("failed to get file info for " +:+ path +:+ ": ") err), s)
  | inl st =>
      let info := mkFileInfo path (st_Size st) (st_ModTime st) (st_Mode st) (st_IsDir st) "" "" in
      if negb (IsDir info) && (0 <? Size info) then
        match getChecksum H s file path info with
        | (inl c, s') =>
            (inl (mkFileInfo path (st_Size st) (st_ModTime st) (st_Mode st) (st_IsDir st)
                    c (checksumAlgo s)), s')
        | (inr _, s') => (inl info, s')
        end
      else (inl info, s)
  end.

(** One call of the function [filepath.WalkDir] is given: the path, the
    entry's [Info], and the error [WalkDir] met on the way. *)
Record WalkEvent : Type := mkWalkEvent {
  w_path : string;
  w_info : FileStat + error;
  w_err : option error
}.

(** The environment of one scan: the calls [WalkDir] makes for the root,
    the files' contents, and the cancellation of the context ([Some n]: the
    context is found done at the [n]-th check, counted from 0; the check
    after the walk is the last one) with its error. *)
Record ScanEnv : Type := mkScanEnv {
  walk : list WalkEvent;
  contents : string -> FileRead;
  cancel_at : option nat;
  ctx_Err : error
}.

Definition ctx_done (env : ScanEnv) (i : nat) : bool :=
  match cancel_at env with
  | Some n => (n <=? i)%nat
  | None => false
  end.

Definition FilterFunc : Type := string -> FileInfo -> bool.

(** The walk: the callback is run on each event in turn until it returns an
    error; the entries are appended in the order of the walk (the source
    appends them from one goroutine per entry, under a mutex). *)
Fixpoint walkDir (H : Hashers) (env : ScanEnv) (filter : option FilterFunc)
    (events : list WalkEvent) (i : nat) (s : FileScanner) (files : list FileInfo)
  : (list FileInfo + error) * FileScanner :=
  match events with
  | [] => (inl files, s)
  | ev :: rest =>
      match w_err ev with
      | Some err => (inr err, s)
      | None =>
          if ctx_done env i then (inr (ctx_Err env), s)
          else
            match getFileInfo H s (w_path ev) (w_info ev) (contents env (w_path ev)) with
            | (inr _, s') => walkDir H env filter rest (S i) s' files
            | (inl info, s') =>
                let keep := match filter with
                            | Some f => f (w_path ev) info
                            | None => true
                            end in
                walkDir H env filter rest (S i) s' (if keep then (files ++ [info])%list else files)
            end
      end
  end.

Definition ScanWithFilter (H : Hashers) (s : FileScanner) (env : ScanEnv)
    (path : string) (filter : option FilterFunc)
  : (list FileInfo + error) * FileScanner :=
  match walkDir H env filter (walk env) 0 s [] with
  | (inr err, s') =>
      (inr (Errorf_w ("failed to scan directory " +:+ path +:+ ": ") err), s')
  | (inl files, s') =>
      if ctx_done env (length (walk env)) then (inr (ctx_Err env), s')
      else (inl files, s')
  end.

Definition Scan (H : Hashers) (s : FileScanner) (env : ScanEnv) (path : string)
  : (list FileInfo + error) * FileScanner :=
  ScanWithFilter H s env path None.

(** What [filepath.WalkDir] does on a root that does not exist: [os.Lstat]
    fails, and the function is called once, with that error. *)
Definition walk_missing_root (root : string) : list WalkEvent :=
  [ mkWalkEvent root (inr (PathError "lstat" root (ErrnoError ENOENT)))
      (Some (PathError "lstat" root (ErrnoError ENOENT))) ].

End Scanner.
Export Scanner.

(** ** The copier *)

Module Copier.

(** The file system, as far as the copier changes it: a map from paths to
    nodes.  A regular file's size is the length of its contents. *)
Record Node : Type := mkNode {
  n_data : list Byte.byte;
  n_mode : Z;
  n_mtime : GoTime.Time;
  n_isdir : bool
}.

Abbreviation FS := (gmap string Node).

Definition n_size (n : Node) : Z := Z.of_nat (length (n_data n)).

Record FileCopier : Type := mkFileCopier {
  bufferSize : Z;
  useZeroCopy : bool;
  preservePerms : bool;
  preserveTimes : bool;
  workers : Z
}.

Definition NewFileCopier (gomaxprocs : Z) (bufferSize : Z) (useZeroCopy : bool) : FileCopier :=
  let bufferSize := if bufferSize <=? 0 then 64 * 1024 else bufferSize in
  mkFileCopier bufferSize useZeroCopy true true gomaxprocs.

Definition SetPreservePermissions (fc : FileCopier) (preserve : bool) : FileCopier :=
  mkFileCopier (bufferSize fc) (useZeroCopy fc) preserve (preserveTimes fc) (workers fc).

Definition SetPreserveTimes (fc : FileCopier) (preserve : bool) : FileCopier :=
  mkFileCopier (bufferSize fc) (useZeroCopy fc) (preservePerms fc) preserve (workers fc).

Definition SetBufferSize (fc : FileCopier) (size : Z) : FileCopier :=
  if 0 <? size
  then mkFileCopier size (useZeroCopy fc) (preservePerms fc) (preserveTimes fc) (workers fc)
  else fc.

(** Results of the calls the copy loops make: one [Read] of the source, one
    [Write] to the destination, one [syscall.Sendfile]. *)
Record ReadResult : Type := mkReadResult {
  r_bytes : list Byte.byte;
  r_err : option error
}.

Record WriteResult : Type := mkWriteResult {
  w_n : nat;
  w_werr : option error
}.

Record SendfileResult : Type := mkSendfileResult {
  s_bytes : list Byte.byte;
  s_err : option error
}.

(** What the operating system answers during one [CopyFile].  An error of
    [None] lets the call succeed.  [reads] and [sendfiles] are the results
    of the successive calls; a script at its end answers end of file
    ([Read]) or zero bytes ([Sendfile]).  [write i chunk] is the result of
    the [i]-th [Write].  [copy_cancel_at] and [copy_ctx_Err] describe the
    context as in the scanner; [created_at] is the clock when the
    destination is created. *)
Record CopyEnv : Type := mkCopyEnv {
  goos : string;
  stat_err : option error;
  mkdirAll_err : option error;
  openFile_err : option error;
  open_src_err : option error;
  src_fstat : bool + error;
  reads : list ReadResult;
  write : nat -> list Byte.byte -> WriteResult;
  sendfiles : list SendfileResult;
  fsync_err : option error;
  chmod_err : option error;
  chtimes_err : option error;
  remove_err : option error;
  copy_cancel_at : option nat;
  copy_ctx_Err : error;
  created_at : GoTime.Time
}.

Definition copy_ctx_done (env : CopyEnv) (i : nat) : bool :=
  match copy_cancel_at env with
  | Some n => (n <=? i)%nat
  | None => false
  end.

(** [bufferedCopy]: the loop from its [i]-th iteration on, with
    [totalBytes] written so far and [out] the destination's contents.  The
    result is [(totalBytes, err, out)]. *)
Fixpoint bufferedCopy_loop (env : CopyEnv) (rs : list ReadResult) (i : nat)
    (totalBytes : Z) (out : list Byte.byte) : Z * option error * list Byte.byte :=
  if copy_ctx_done env i then (totalBytes, Some (copy_ctx_Err env), out)
  else
    match rs with
    | [] => (totalBytes, None, out)
    | r :: rest =>
        let bytesRead := length (r_bytes r) in
        let wr := write env i (r_bytes r) in
        let written := (0 <? bytesRead)%nat in
        let totalBytes' :=
          if written then add64 totalBytes (Z.of_nat (w_n wr)) else totalBytes in
        let out' := if written then (out ++ take (w_n wr) (r_bytes r))%list else out in
        if written && bool_decide (is_Some (w_werr wr)) then
          (totalBytes', w_werr wr, out')
        else if written && negb (w_n wr =? bytesRead)%nat then
          (totalBytes',
           Some (ErrorString ("short write: expected " +:+ pretty bytesRead +:+
                              ", wrote " +:+ pretty (w_n wr))),
           out')
        else
          match r_err r with
          | Some EOF => (totalBytes', None, out')
          | Some err => (totalBytes', Some err, out')
          | None => bufferedCopy_loop env rest (S i) totalBytes' out'
          end
    end.

Definition bufferedCopy (env : CopyEnv) (i : nat) (out : list Byte.byte)
  : Z * option error * list Byte.byte :=
  bufferedCopy_loop env (reads env) i 0 out.

(** [zeroCopyLinux]: [for totalBytes < size], one [Sendfile] of at most
    [chunkSize] bytes per iteration; on its first error the buffered copy
    takes over and its count is returned. *)
Fixpoint zeroCopyLinux_loop (env : CopyEnv) (ss : list SendfileResult) (i : nat)
    (size totalBytes chunkSize : Z) (out : list Byte.byte)
  : Z * option error * list Byte.byte :=
  if totalBytes <? size then
    if copy_ctx_done env i then (totalBytes, Some (copy_ctx_Err env), out)
    else
      let remaining := sub64 size totalBytes in
      let chunkSize := if remaining <? chunkSize then remaining else chunkSize in
      match ss with
      | [] => (totalBytes, None, out)
      | s :: rest =>
          match s_err s with
          | Some _ => bufferedCopy env (S i) out
          | None =>
              let bytesWritten := Z.of_nat (length (s_bytes s)) in
              let totalBytes' := add64 totalBytes bytesWritten in
              if bytesWritten =? 0 then (totalBytes', None, out)
              else zeroCopyLinux_loop env rest (S i) size totalBytes' chunkSize
                     (out ++ s_bytes s)%list
          end
      end
  else (totalBytes, None, out).

Definition zeroCopyLinux (env : CopyEnv) (size : Z) : Z * option error * list Byte.byte :=
  zeroCopyLinux_loop env (sendfiles env) 0 size 0 (1024 * 1024) [].

Definition canUseZeroCopy (fc : FileCopier) (env : CopyEnv) : bool :=
  if negb (useZeroCopy fc) then false
  else match src_fstat env with
       | inr _ => false
       | inl regular => regular
       end.

Definition zeroCopy (env : CopyEnv) (size : Z) : Z * option error * list Byte.byte :=
  if String.eqb (goos env) "linux" then zeroCopyLinux env size
  else bufferedCopy env 0 [].

(** The file system calls.  [os.OpenFile] with [O_CREATE|O_TRUNC]: an
    existing file is emptied, a missing one is created with the given
    mode. *)
Definition fs_create (fs : FS) (dst : string) (mode : Z) (now : GoTime.Time) : FS :=
  match fs !! dst with
  | Some n => <[dst := mkNode [] (n_mode n) now (n_isdir n)]> fs
  | None => <[dst := mkNode [] mode now false]> fs
  end.

Definition fs_write (fs : FS) (dst : string) (data : list Byte.byte) : FS :=
  match fs !! dst with
  | Some n => <[dst := mkNode data (n_mode n) (n_mtime n) (n_isdir n)]> fs
  | None => fs
  end.

Definition fs_chmod (fs : FS) (dst : string) (mode : Z) : FS :=
  match fs !! dst with
  | Some n => <[dst := mkNode (n_data n) mode (n_mtime n) (n_isdir n)]> fs
  | None => fs
  end.

Definition fs_chtimes (fs : FS) (dst : string) (mtime : GoTime.Time) : FS :=
  match fs !! dst with
  | Some n => <[dst := mkNode (n_data n) (n_mode n) mtime (n_isdir n)]> fs
  | None => fs
  end.

(** [os.Remove], whose error the copier ignores: the file goes unless the
    call fails. *)
Definition fs_remove (env : CopyEnv) (fs : FS) (dst : string) : FS :=
  match remove_err env with
  | Some _ => fs
  | None => delete dst fs
  end.

(** [os.MkdirAll]: the directory is there afterwards (its missing parents,
    which nothing below looks up, are not recorded). *)
Definition fs_mkdirAll (fs : FS) (dir : string) (mode : Z) (now : GoTime.Time) : FS :=
  match fs !! dir with
  | Some _ => fs
  | None => <[dir := mkNode [] mode now true]> fs
  end.

(** [filepath.Dir] of a clean slash-separated path. *)
Fixpoint last_slash (s : string) (i : nat) (found : option nat) : option nat :=
  match s with
  | EmptyString => found
  | String c rest =>
      last_slash rest (S i) (if Ascii.eqb c "/"%char then Some i else found)
  end.

Definition filepath_Dir (p : string) : string :=
  match last_slash p 0 None with
  | None => "."
  | Some O => "/"
  | Some i => String.substring 0 i p
  end.

(** [copyRegularFile]; [srcInfo] is the node [os.Stat] found at [src]. *)
Definition copyRegularFile (fc : FileCopier) (env : CopyEnv) (fs : FS)
    (src dst : string) (srcInfo : Node) : FS * option error :=
  match mkdirAll_err env with
  | Some err => (fs, Some (Errorf_w "failed to create destination directory: " err))
  | None =>
  let fs := fs_mkdirAll fs (filepath_Dir dst) 488 (created_at env) in
  match openFile_err env with
  | Some err =>
      (fs, Some (Errorf_w ("failed to create destination file " +:+ dst +:+ ": ") err))
  | None =>
  let fs := fs_create fs dst (n_mode srcInfo) (created_at env) in
  match open_src_err env with
  | Some err =>
      (fs, Some (Errorf_w ("failed to open source file " +:+ src +:+ ": ") err))
  | None =>
  let '(bytesWritten, err, out) :=
    if useZeroCopy fc && canUseZeroCopy fc env then zeroCopy env (n_size srcInfo)
    else bufferedCopy env 0 [] in
  let fs := fs_write fs dst out in
  match err with
  | Some err => (fs_remove env fs dst, Some (Errorf_w "failed to copy file content: " err))
  | None =>
  if negb (bytesWritten =? n_size srcInfo) then
    (fs_remove env fs dst,
     Some (ErrorString ("incomplete copy: expected " +:+ pretty (n_size srcInfo) +:+
                        " bytes, wrote " +:+ pretty bytesWritten +:+ " bytes")))
  else
  match fsync_err env with
  | Some err => (fs, Some (Errorf_w "failed to sync destination file: " err))
  | None =>
  match (if preservePerms fc then chmod_err env else None) with
  | Some err => (fs, Some (Errorf_w "failed to set file permissions: " err))
  | None =>
  let fs := if preservePerms fc then fs_chmod fs dst (n_mode srcInfo) else fs in
  match (if preserveTimes fc then chtimes_err env else None) with
  | Some err => (fs, Some (Errorf_w "failed to set file times: " err))
  | None =>
  let fs := if preserveTimes fc then fs_chtimes fs dst (n_mtime srcInfo) else fs in
  (fs, None)
  end end end end end end end.

Definition copyDirectory (fc : FileCopier) (env : CopyEnv) (fs : FS)
    (dst : string) (srcInfo : Node) : FS * option error :=
  match mkdirAll_err env with
  | Some err =>
      (fs, Some (Errorf_w ("failed to create destination directory " +:+ dst +:+ ": ") err))
  | None =>
  let fs := fs_mkdirAll fs dst (n_mode srcInfo) (created_at env) in
  match (if preservePerms fc then chmod_err env else None) with
  | Some err => (fs, Some (Errorf_w "failed to set directory permissions: " err))
  | None =>
  let fs := if preservePerms fc then fs_chmod fs dst (n_mode srcInfo) else fs in
  match (if preserveTimes fc then chtimes_err env else None) with
  | Some err => (fs, Some (Errorf_w "failed to set directory times: " err))
  | None =>
  let fs := if preserveTimes fc then fs_chtimes fs dst (n_mtime srcInfo) else fs in
  (fs, None)
  end end end.

(** [CopyFile]: [os.Stat] fails when the environment says so or when the
    source is not in the file system. *)
Definition CopyFile (fc : FileCopier) (env : CopyEnv) (fs : FS) (src dst : string)
  : FS * option error :=
  match stat_err env, fs !! src with
  | Some err, _ =>
      (fs, Some (Errorf_w ("failed to stat source file " +:+ src +:+ ": ") err))
  | None, None =>
      (fs, Some (Errorf_w ("failed to stat source file " +:+ src +:+ ": ")
                   (PathError "stat" src (ErrnoError ENOENT))))
  | None, Some srcInfo =>
      if n_isdir srcInfo then copyDirectory fc env fs dst srcInfo
      else copyRegularFile fc env fs src dst srcInfo
  end.

End Copier.

(** ** retry.go: the retry loop *)

Module RetryLoop.

(** [config.RetryConfig]; its [Multiplier], a [float64], only enters the
    length of the wait between two attempts, which is not modelled. *)
Record RetryConfig : Type := mkRetryConfig {
  MaxAttempts : Z;
  InitialDelay : Z;
  MaxDelay : Z;
  Backoff : string
}.

Record RetryManager : Type := mkRetryManager {
  config : RetryConfig
}.

Definition NewRetryManager (cfg : option RetryConfig) : RetryManager :=
  match cfg with
  | Some c => mkRetryManager c
  | None =>
      mkRetryManager
        (mkRetryConfig 3 (100 * 1000000) (10 * GoTime.Second) "exponential")
  end.

(** The error returned after the loop. *)
Definition failed_after (rm : RetryManager) (lastErr : option error) : error :=
  match lastErr with
  | Some err =>
      Errorf_w ("operation failed after " +:+ pretty (MaxAttempts (config rm)) +:+
                " attempts, last error: ") err
  | None =>
      Errorf_w_nil ("operation failed after " +:+ pretty (MaxAttempts (config rm)) +:+
                    " attempts, last error: ")
  end.

(** The loop [for attempt := 1; attempt <= MaxAttempts; attempt++] with [n]
    iterations left, [k] being [attempt].  [operation k] is the result of
    the [k]-th call of the operation; [wait k] is [Some (ctx.Err())] when
    the context is done before the wait after the [k]-th attempt is over.
    The result is the number of calls made and the error returned. *)
Fixpoint retry_loop (rm : RetryManager) (operation wait : nat -> option error)
    (n : nat) (k : nat) (lastErr : option error) : nat * option error :=
  match n with
  | O => (Nat.pred k, Some (failed_after rm lastErr))
  | S n' =>
      let attempt := Z.of_nat k in
      match operation k with
      | None => (k, None)
      | Some err =>
          let stop :=
            match errors_As_Retryable err with
            | Some (_, retryable, fatal) =>
                if fatal then
                  Some (Errorf_w ("fatal error on attempt " +:+ pretty attempt +:+ ": ") err)
                else if negb retryable then
                  Some (Errorf_w ("non-retryable error on attempt " +:+ pretty attempt +:+ ": ") err)
                else None
            | None => None
            end in
          match stop with
          | Some e => (k, Some e)
          | None =>
              if attempt =? MaxAttempts (config rm) then
                (k, Some (failed_after rm (Some err)))
              else
                match wait k with
                | Some cerr =>
                    (k, Some (Errorf_w ("operation cancelled after " +:+ pretty attempt +:+
                                        " attempts: ") cerr))
                | None => retry_loop rm operation wait n' (S k) (Some err)
                end
          end
      end
  end.

Definition ExecuteWithRetry (rm : RetryManager) (operation wait : nat -> option error)
  : nat * option error :=
  retry_loop rm operation wait (Z.to_nat (MaxAttempts (config rm))) 1 None.

End RetryLoop.
Export RetryLoop.

(** ** The engine: [needsSync], [syncFile], [Sync], [Mirror] *)

Module Engine.

(** [filepath.Rel] and [filepath.Join], library functions, are taken as
    given. *)
Record PathLib : Type := mkPathLib {
  Rel : string -> string -> string + error;
  Join : string -> string -> string
}.

Definition needsSync (source dest : FileInfo) (opts : SyncOptions) : bool :=
  if negb (Size source =? Size dest) then true
  else if negb (GoTime.Equal (ModTime source) (ModTime dest)) then true
  else if ChecksumVerify opts && negb (String.eqb (Checksum source) "")
          && negb (String.eqb (Checksum dest) "")
  then negb (String.eqb (Checksum source) (Checksum dest))
  else false.

(** The calls a worker makes that change the destination tree. *)
Inductive Call : Type :=
| CallCopyFile (src dst : string)
| CallMkdirAll (path : string) (mode : Z)
| CallCreateBackup (path : string).

Global Instance Call_eq_dec : EqDecision Call.
Proof. solve_decision. Defined.

(** What a worker does to the shared state, one atomic step each: an
    [atomic.AddInt64] on a counter, [AddError] on the collector, or a call
    that works on the destination tree. *)
Inductive Action : Type :=
| AddConflictsFound
| AddConflictsResolved
| AddFilesModified
| AddFilesCreated
| AddFilesChanged
| AddBytesTransferred (n : Z)
| AddErrorsEncountered
| PushError (err : SyncError)
| Invoke (c : Call).

(** What the environment answers while one source entry is synchronised:
    the terminal ([ask]), the two calls of [CreateBackup], [os.MkdirAll] of
    the destination path, [CopyFile] at its [k]-th attempt, the context
    during the wait after the [k]-th attempt, and the clock. *)
Record FileEnv : Type := mkFileEnv {
  ask : ConflictInfo -> ConflictResolution * option error;
  backup_mkdirAll : option error;
  backup_copyFile : option error;
  mkdirAll : option error;
  attempts : nat -> option error;
  retry_wait : nat -> option error;
  now : Z
}.

(** The end of [syncFile]: the retried copy and its bookkeeping. *)
Definition copy_step (rm : RetryManager) (fe : FileEnv) (sourceFile : FileInfo)
    (destPath : string) (exists_ : bool) : list Action * option error :=
  let '(n, copyErr) := ExecuteWithRetry rm (attempts fe) (retry_wait fe) in
  let copies := repeat (Invoke (CallCopyFile (Path sourceFile) destPath)) n in
  match copyErr with
  | Some copyErr =>
      let syncErr := ClassifySyncError (now fe) "copy" (Path sourceFile) copyErr in
      (copies ++ [PushError syncErr; AddErrorsEncountered],
       Some (Errorf_w ("failed to copy file " +:+ Path sourceFile +:+ " to " +:+ destPath +:+
                       " after retries: ") copyErr))
  | None =>
      (copies ++ [AddBytesTransferred (Size sourceFile);
                  if exists_ then AddFilesModified else AddFilesCreated;
                  AddFilesChanged],
       None)
  end.

(** [syncFile] from [if opts.DryRun] on. *)
Definition sync_step (rm : RetryManager) (fe : FileEnv) (sourceFile : FileInfo)
    (destPath : string) (exists_ : bool) (opts : SyncOptions)
  : list Action * option error :=
  if DryRun opts then
    ([if exists_ then AddFilesModified else AddFilesCreated], None)
  else if IsDir sourceFile then
    match mkdirAll fe with
    | Some err =>
        ([Invoke (CallMkdirAll destPath (Mode sourceFile))],
         Some (Errorf_w ("failed to create directory " +:+ destPath +:+ ": ") err))
    | None => ([Invoke (CallMkdirAll destPath (Mode sourceFile)); AddFilesCreated], None)
    end
  else copy_step rm fe sourceFile destPath exists_.

Definition prepend (acts : list Action) (r : list Action * option error)
  : list Action * option error :=
  (acts ++ fst r, snd r).

(** [syncFile]: the atomic steps it takes, in order, and the error it
    returns. *)
Definition syncFile (P : PathLib) (cr : ConflictResolver) (rm : RetryManager)
    (fe : FileEnv) (source destination : string) (sourceFile : FileInfo)
    (destMap : gmap string FileInfo) (opts : SyncOptions)
  : list Action * option error :=
  match Rel P source (Path sourceFile) with
  | inr err => ([], Some (Errorf_w "failed to get relative path: " err))
  | inl relPath =>
      let destPath := Join P destination relPath in
      match destMap !! relPath with
      | None => sync_step rm fe sourceFile destPath false opts
      | Some destFile =>
          if needsSync sourceFile destFile opts then
            match DetectConflict sourceFile destFile with
            | None => sync_step rm fe sourceFile destPath true opts
            | Some conflict =>
                prepend [AddConflictsFound]
                  match ResolveConflict cr (ask fe) conflict with
                  | (_, Some err) =>
                      ([], Some (Errorf_w ("failed to resolve conflict for " +:+
                                           Path sourceFile +:+ ": ") err))
                  | (ResolutionSkip, None) => ([], None)
                  | (ResolutionUseDestination, None) => ([], None)
                  | (ResolutionBackupAndUseSource, None) =>
                      prepend [Invoke (CallCreateBackup destPath)]
                        match CreateBackup cr (backup_mkdirAll fe) (backup_copyFile fe) with
                        | Some err =>
                            ([], Some (Errorf_w "failed to create backup: " err))
                        | None =>
                            prepend [AddConflictsResolved]
                              (sync_step rm fe sourceFile destPath true opts)
                        end
                  | (ResolutionUseSource, None) =>
                      prepend [AddConflictsResolved]
                        (sync_step rm fe sourceFile destPath true opts)
                  | (ResolutionMerge, None) =>
                      sync_step rm fe sourceFile destPath true opts
                  end
            end
          else ([], None)
      end
  end.

(** The goroutine [Sync] starts for one entry: [syncFile], then the count
    of its error. *)
Definition worker (P : PathLib) (cr : ConflictResolver) (rm : RetryManager)
    (fe : FileEnv) (source destination : string) (file : FileInfo)
    (destMap : gmap string FileInfo) (opts : SyncOptions) : list Action :=
  let '(acts, err) := syncFile P cr rm fe source destination file destMap opts in
  match err with
  | Some _ => acts ++ [AddErrorsEncountered]
  | None => acts
  end.

(** [destMap[relPath] = file] for every scanned destination entry; the
    error of [filepath.Rel] is dropped, the path being empty then. *)
Definition build_destMap (P : PathLib) (destination : string) (destFiles : list FileInfo)
  : gmap string FileInfo :=
  foldl (fun destMap file =>
           let relPath := match Rel P destination (Path file) with
                          | inl r => r
                          | inr _ => ""
                          end in
           <[relPath := file]> destMap)
        ∅ destFiles.

(** The effect of one step on the counters. *)
Definition apply_stats (a : Action) (s : SyncStats) : SyncStats :=
  match a with
  | AddConflictsFound =>
      mkSyncStats (FilesScanned s) (FilesChanged s) (FilesCreated s) (FilesModified s)
        (FilesDeleted s) (BytesTransferred s) (add64 (ConflictsFound s) 1)
        (ConflictsResolved s) (ErrorsEncountered s)
  | AddConflictsResolved =>
      mkSyncStats (FilesScanned s) (FilesChanged s) (FilesCreated s) (FilesModified s)
        (FilesDeleted s) (BytesTransferred s) (ConflictsFound s)
        (add64 (ConflictsResolved s) 1) (ErrorsEncountered s)
  | AddFilesModified =>
      mkSyncStats (FilesScanned s) (FilesChanged s) (FilesCreated s)
        (add64 (FilesModified s) 1)
        (FilesDeleted s) (BytesTransferred s) (ConflictsFound s)
        (ConflictsResolved s) (ErrorsEncountered s)
  | AddFilesCreated =>
      mkSyncStats (FilesScanned s) (FilesChanged s) (add64 (FilesCreated s) 1)
        (FilesModified s)
        (FilesDeleted s) (BytesTransferred s) (ConflictsFound s)
        (ConflictsResolved s) (ErrorsEncountered s)
  | AddFilesChanged =>
      mkSyncStats (FilesScanned s) (add64 (FilesChanged s) 1) (FilesCreated s)
        (FilesModified s)
        (FilesDeleted s) (BytesTransferred s) (ConflictsFound s)
        (ConflictsResolved s) (ErrorsEncountered s)
  | AddBytesTransferred n =>
      mkSyncStats (FilesScanned s) (FilesChanged s) (FilesCreated s) (FilesModified s)
        (FilesDeleted s) (add64 (BytesTransferred s) n) (ConflictsFound s)
        (ConflictsResolved s) (ErrorsEncountered s)
  | AddErrorsEncountered =>
      mkSyncStats (FilesScanned s) (FilesChanged s) (FilesCreated s) (FilesModified s)
        (FilesDeleted s) (BytesTransferred s) (ConflictsFound s)
        (ConflictsResolved s) (add64 (ErrorsEncountered s) 1)
  | PushError _ => s
  | Invoke _ => s
  end.

(** The engine: its components and the state they share with the workers.
    [calls] is the record of the calls made on the destination tree since
    the counters were reset. *)
Record SyncEngine : Type := mkSyncEngine {
  scanner : FileScanner;
  resolver : ConflictResolver;
  retryManager : RetryManager;
  errorHandler : ErrorHandler;
  stats : SyncStats;
  calls : list Call
}.

Definition NewSyncEngine (gomaxprocs : Z) : SyncEngine :=
  mkSyncEngine (NewFileScanner gomaxprocs 0) (NewConflictResolver None)
    (NewRetryManager None) (NewErrorHandler 1000) zeroStats [].

Definition resetStats (e : SyncEngine) : SyncEngine :=
  mkSyncEngine (scanner e) (resolver e) (retryManager e) (errorHandler e) zeroStats [].

Definition with_scanner (e : SyncEngine) (sc : FileScanner) : SyncEngine :=
  mkSyncEngine sc (resolver e) (retryManager e) (errorHandler e) (stats e) (calls e).

Definition with_stats (e : SyncEngine) (s : SyncStats) : SyncEngine :=
  mkSyncEngine (scanner e) (resolver e) (retryManager e) (errorHandler e) s (calls e).

(** One step of a worker on the engine; [None] is the panic of
    [AddError]. *)
Definition apply_action (a : Action) (e : SyncEngine) : option SyncEngine :=
  match a with
  | PushError err =>
      match AddError (errorHandler e) err with
      | Some eh =>
          Some (mkSyncEngine (scanner e) (resolver e) (retryManager e) eh (stats e) (calls e))
      | None => None
      end
  | Invoke c =>
      Some (mkSyncEngine (scanner e) (resolver e) (retryManager e) (errorHandler e)
              (stats e) (calls e ++ [c]))
  | _ => Some (with_stats e (apply_stats a (stats e)))
  end.

Fixpoint run_actions (acts : list Action) (e : SyncEngine) : option SyncEngine :=
  match acts with
  | [] => Some e
  | a :: rest =>
      match apply_action a e with
      | Some e' => run_actions rest e'
      | None => None
      end
  end.

(** The environment of one run: the two scans, the context as the
    dispatching loop finds it (done from its [n]-th iteration on, for
    [Some n]) with its error, and the answers to the worker of the [i]-th
    source entry. *)
Record SyncEnv : Type := mkSyncEnv {
  src_scan : ScanEnv;
  dst_scan : ScanEnv;
  dispatch_cancel_at : option nat;
  sync_ctx_Err : error;
  file_env : nat -> FileEnv
}.

Definition dispatch_done (env : SyncEnv) (i : nat) : bool :=
  match dispatch_cancel_at env with
  | Some n => (n <=? i)%nat
  | None => false
  end.

(** The loop over the source entries, the workers run one after the other
    in the order they are started. *)
Fixpoint dispatch (P : PathLib) (env : SyncEnv) (source destination : string)
    (destMap : gmap string FileInfo) (opts : SyncOptions)
    (sourceFiles : list FileInfo) (i : nat) (e : SyncEngine)
  : option (SyncEngine * option error) :=
  match sourceFiles with
  | [] => Some (e, None)
  | sourceFile :: rest =>
      if dispatch_done env i then Some (e, Some (sync_ctx_Err env))
      else
        match run_actions
                (worker P (resolver e) (retryManager e) (file_env env i)
                   source destination sourceFile destMap opts) e with
        | Some e' => dispatch P env source destination destMap opts rest (S i) e'
        | None => None
        end
  end.

(** [Sync]: the engine as the call leaves it and the error returned;
    [None] is a panic: of a worker, or of [make(chan struct{}, opts.Workers)]
    on a negative [opts.Workers].  (The channel only bounds how many workers
    run at once.) *)
Definition Sync (H : Hashers) (P : PathLib) (e : SyncEngine) (env : SyncEnv)
    (source destination : string) (opts : SyncOptions)
  : option (SyncEngine * option error) :=
  let e := resetStats e in
  match Scan H (scanner e) (src_scan env) source with
  | (inr err, sc) =>
      Some (with_scanner e sc, Some (Errorf_w "failed to scan source directory: " err))
  | (inl sourceFiles, sc) =>
      let e := with_scanner e sc in
      let s := stats e in
      let e := with_stats e
                 (mkSyncStats (Z.of_nat (length sourceFiles)) (FilesChanged s)
                    (FilesCreated s) (FilesModified s) (FilesDeleted s)
                    (BytesTransferred s) (ConflictsFound s) (ConflictsResolved s)
                    (ErrorsEncountered s)) in
      let '(scanned, sc) := Scan H (scanner e) (dst_scan env) destination in
      let e := with_scanner e sc in
      let destFiles :=
        match scanned with
        | inr err => if negb (os_IsNotExist err) then inr err else inl []
        | inl files => inl files
        end in
      match destFiles with
      | inr err =>
          Some (e, Some (Errorf_w "failed to scan destination directory: " err))
      | inl destFiles =>
          let destMap := build_destMap P destination destFiles in
          if Workers opts <? 0 then None
          else dispatch P env source destination destMap opts sourceFiles 0 e
      end
  end.

Definition mirror_options : SyncOptions :=
  mkSyncOptions false false true true true false true 0 0 0.

Definition Mirror (H : Hashers) (P : PathLib) (e : SyncEngine) (env : SyncEnv)
    (source destination : string) : option (SyncEngine * option error) :=
  Sync H P (resetStats e) env source destination mirror_options.

End Engine.

(** ** Clean slash-separated paths

    [filepath.Rel] and [filepath.Join] on clean paths, the target being the
    base or a path below it, which is what a walk of the base yields; the
    examples run with them. *)

Module SlashPaths.

Definition Rel (basepath targpath : string) : string + error :=
  if String.eqb targpath basepath then inl "."
  else if String.prefix (basepath +:+ "/") targpath then
    inl (String.substring (S (String.length basepath))
           (String.length targpath - S (String.length basepath)) targpath)
  else inr (ErrorString ("Rel: can't make " +:+ targpath +:+ " relative to " +:+ basepath)).

Definition Join (dir rel : string) : string :=
  if String.eqb rel "." then dir else dir +:+ "/" +:+ rel.

Definition lib : Engine.PathLib := Engine.mkPathLib Rel Join.

End SlashPaths.

(** ** Workers running concurrently

    The workers of one run share the counters and nothing else that the
    counters depend on.  A state is the counters and, for each worker, the
    steps it still has to take; one transition lets any worker take its next
    step.  The dispatching loop starts the workers one by one and bounds how
    many run at once: every state of a real run is a state reachable here
    from all workers being ready. *)

Module Interleave.
Import Engine.

Abbreviation Pool := (list (list Action)).

Inductive step : SyncStats * Pool -> SyncStats * Pool -> Prop :=
| step_worker (s : SyncStats) (pool : Pool) (i : nat) (a : Action) (rest : list Action) :
    pool !! i = Some (a :: rest) ->
    step (s, pool) (apply_stats a s, <[i := rest]> pool).

Definition reachable : SyncStats * Pool -> SyncStats * Pool -> Prop := rtc step.

(** The counters when the workers start: [FilesScanned] is set, the others
    are zero. *)
Definition start_stats (sourceFiles : list FileInfo) : SyncStats :=
  mkSyncStats (Z.of_nat (length sourceFiles)) 0 0 0 0 0 0 0 0.

(** The workers of a run, one per source entry, each with the answers of
    its environment. *)
Definition workers (P : PathLib) (cr : ConflictResolver) (rm : RetryManager)
    (file_env : nat -> FileEnv) (source destination : string)
    (destMap : gmap string FileInfo) (opts : SyncOptions)
    (sourceFiles : list FileInfo) : Pool :=
  imap (fun i file => worker P cr rm (file_env i) source destination file destMap opts)
       sourceFiles.

(** Bookkeeping on the steps a worker still has to take: how many of them
    count a file as created or modified, and by how much the steps counting
    a file as changed run ahead of those. *)
Definition neutral (a : Action) : bool :=
  match a with
  | AddFilesCreated | AddFilesModified | AddFilesChanged => false
  | _ => true
  end.

Fixpoint pending (acts : list Action) : nat :=
  match acts with
  | [] => 0
  | (AddFilesCreated | AddFilesModified) :: rest => S (pending rest)
  | _ :: rest => pending rest
  end.

Fixpoint debt (acts : list Action) : nat :=
  match acts with
  | [] => 0
  | AddFilesChanged :: rest => S (debt rest)
  | (AddFilesCreated | AddFilesModified) :: rest => Nat.pred (debt rest)
  | _ :: rest => debt rest
  end.

Definition pool_sum (f : list Action -> nat) (pool : Pool) : nat :=
  foldr (fun acts n => (f acts + n)%nat) 0%nat pool.

(** A list of steps is in order when no step counting a file as changed
    comes before one counting it as created or modified, and at most one
    step counts it as created or modified. *)
Definition in_order (acts : list Action) : Prop :=
  debt acts = 0%nat /\ (pending acts <= 1)%nat.

(** What every transition keeps: the counters are not negative, the steps
    still to come fit between them, and nothing overflows. *)
Definition ordered_with (s : SyncStats) (pool : Pool) : Prop :=
  0 <= FilesChanged s /\ 0 <= FilesCreated s /\ 0 <= FilesModified s /\
  FilesChanged s + Z.of_nat (pool_sum debt pool) <= FilesCreated s + FilesModified s /\
  FilesCreated s + FilesModified s + Z.of_nat (pool_sum pending pool) <= FilesScanned s /\
  FilesScanned s <= max_int64.

(** The relation between the counters that the specification states, and
    the one that holds. *)
Definition counters_as_specified (s : SyncStats) : Prop :=
  FilesCreated s + FilesModified s <= FilesChanged s /\ FilesChanged s <= FilesScanned s.

Definition counters_ordered (s : SyncStats) : Prop :=
  FilesChanged s <= FilesCreated s + FilesModified s /\
  FilesCreated s + FilesModified s <= FilesScanned s.

End Interleave.

(** ** A mirrored pair, as the specification words it *)

Module MirrorSpec.

(** A file pair as a successful mirror leaves it: equal size, equal
    modification time, equal digest. *)
Definition mirrored_pair (src dst : FileInfo) : Prop :=
  Size src = Size dst /\ ModTime src = ModTime dst /\ Checksum src = Checksum dst.

End MirrorSpec.

(** ** The Smart strategy, as the specification words it *)

Module SmartSpec.

(** Newest: the later modification time wins, the source on a tie. *)
Definition newest_rule (c : ConflictInfo) : ConflictResolution :=
  if ModTime (SourceInfo c) <? ModTime (DestInfo c) then ResolutionUseDestination
  else ResolutionUseSource.

(** Smart: beyond 60 seconds apart the newer side; else beyond 1024 bytes
    apart the larger side; else Newest. *)
Definition smart_rule (c : ConflictInfo) : ConflictResolution :=
  let dtime := ModTime (SourceInfo c) - ModTime (DestInfo c) in
  let dsize := Size (SourceInfo c) - Size (DestInfo c) in
  if 60 * 1000000000 <? Z.abs dtime then
    (if 0 <? dtime then ResolutionUseSource else ResolutionUseDestination)
  else if 1024 <? Z.abs dsize then
    (if 0 <? dsize then ResolutionUseSource else ResolutionUseDestination)
  else newest_rule c.

(** A file length: a non-negative [int64]. *)
Definition file_size (z : Z) : Prop := 0 <= z <= max_int64.

End SmartSpec.

(** ** The collector, as the specification words it *)

Module AggregatorSpec.

(** The configured maximum: 1000 when the value given is not at least 1. *)
Definition effective_max (maxErrors : Z) : Z :=
  if maxErrors <=? 0 then 1000 else maxErrors.

Definition count_category (c : ErrorCategory) (l : list SyncError) : nat :=
  length (filter (fun e => Category e = c) l).

(** The collectors a program can reach from [NewErrorHandler maxErrors]. *)
Inductive built (maxErrors : Z) : ErrorHandler -> Prop :=
| built_new : built maxErrors (NewErrorHandler maxErrors)
| built_add (eh : ErrorHandler) (err : SyncError) (eh' : ErrorHandler) :
    built maxErrors eh -> AddError eh err = Some eh' -> built maxErrors eh'
| built_clear (eh : ErrorHandler) :
    built maxErrors eh -> built maxErrors (Clear eh).

End AggregatorSpec.

(** ** A scan without digests, as the specification words it *)

Module ScannerSpec.

(** The record of an entry returned without a digest and without a
    digest-algorithm tag; an entry whose [Info] fails is dropped. *)
Definition bare_record (ev : WalkEvent) : option FileInfo :=
  match w_info ev with
  | inl st =>
      Some (mkFileInfo (w_path ev) (st_Size st) (st_ModTime st) (st_Mode st)
              (st_IsDir st) "" "")
  | inr _ => None
  end.

End ScannerSpec.

(** ** The engine over the copier's file system

    For worked runs: the environment of a run is read off a file system,
    and the calls a run has made are applied to it. *)

Module World.
Import Copier Engine.

Definition stat_of (n : Node) : FileStat :=
  mkFileStat (n_size n) (n_mtime n) (n_mode n) (n_isdir n).

(** The calls [filepath.WalkDir] makes for [root]: once with the error of
    [os.Lstat] when [root] is missing; otherwise for [root], then for every
    path below it. *)
Definition fs_walk (fs : FS) (root : string) : list WalkEvent :=
  match fs !! root with
  | None => walk_missing_root root
  | Some n =>
      mkWalkEvent root (inl (stat_of n)) None ::
      omap (fun '(path, node) =>
              if String.prefix (root +:+ "/") path
              then Some (mkWalkEvent path (inl (stat_of node)) None)
              else None)
           (map_to_list fs)
  end.

Definition fs_contents (fs : FS) (path : string) : FileRead :=
  match fs !! path with
  | Some n => mkFileRead None (inl (n_data n))
  | None =>
      mkFileRead (Some (PathError "open" path (ErrnoError ENOENT)))
        (inr (ErrnoError ENOENT))
  end.

Definition scan_env_of (fs : FS) (root : string) : ScanEnv :=
  mkScanEnv (fs_walk fs root) (fs_contents fs) None Canceled.

(** A run on a file system where every call succeeds and the context is
    never cancelled. *)
Definition quiet_file_env : FileEnv :=
  mkFileEnv (fun _ => (ResolutionSkip, None)) None None None
    (fun _ => None) (fun _ => None) 0.

Definition sync_env_of (fs : FS) (source destination : string) : SyncEnv :=
  mkSyncEnv (scan_env_of fs source) (scan_env_of fs destination) None Canceled
    (fun _ => quiet_file_env).

(** A copy of [src] that meets no failure: the source is read in one
    piece, then the end of the file. *)
Definition healthy_copy_of (fs : FS) (src : string) (clock : GoTime.Time) : CopyEnv :=
  let data := match fs !! src with Some n => n_data n | None => [] end in
  mkCopyEnv "linux" None None None None (inl true)
    [mkReadResult data None; mkReadResult [] (Some EOF)]
    (fun _ chunk => mkWriteResult (length chunk) None)
    [mkSendfileResult data None]
    None None None None None Canceled clock.

(** The effect of a call of the engine on the file system ([CreateBackup]
    does nothing, backups being off in the engine's resolver). *)
Definition apply_call (fc : FileCopier) (clock : GoTime.Time) (fs : FS) (c : Call) : FS :=
  match c with
  | CallCopyFile src dst => fst (CopyFile fc (healthy_copy_of fs src clock) fs src dst)
  | CallMkdirAll path mode => fs_mkdirAll fs path mode clock
  | CallCreateBackup _ => fs
  end.

Definition apply_calls (fc : FileCopier) (clock : GoTime.Time) (fs : FS)
    (cs : list Call) : FS :=
  foldl (apply_call fc clock) fs cs.

(** [mirror(A, B)] on a file system, with the engine's copier: the engine,
    the error and the file system afterwards. *)
Definition mirror_on (H : Hashers) (e : SyncEngine) (fs : FS)
    (source destination : string) (clock : GoTime.Time)
  : option (SyncEngine * option error * FS) :=
  match Mirror H SlashPaths.lib e (sync_env_of fs source destination)
          source destination with
  | Some (e', err) =>
      Some (e', err, apply_calls (NewFileCopier 4 0 true) clock fs (calls e'))
  | None => None
  end.

(** [mirror(A, B); mirror(A, B)] on one engine, and what the two runs
    report: counters, calls on the destination tree, error. *)
Definition mirror_twice (H : Hashers) (e : SyncEngine) (fs : FS)
    (source destination : string)
  : option ((SyncEngine * option error * FS) * (SyncEngine * option error * FS)) :=
  match mirror_on H e fs source destination 9000 with
  | Some (e1, err1, fs1) =>
      match mirror_on H e1 fs1 source destination 9500 with
      | Some second => Some ((e1, err1, fs1), second)
      | None => None
      end
  | None => None
  end.

Definition report (r : SyncEngine * option error * FS)
  : SyncStats * list Call * option error :=
  let '(e, err, _) := r in (stats e, calls e, err).

End World.

(** ** Worked inputs *)

Module Examples.
Import Engine.

(** Stand-ins for the two hash functions where an input has to be closed;
    they are injective and never agree. *)
Definition toy_hashers : Hashers :=
  mkHashers (fun data => Byte.x00 :: data) (fun data => Byte.x01 :: data).

(** The bytes of [hello]. *)
Definition hello : list Byte.byte :=
  [Byte.x68; Byte.x65; Byte.x6c; Byte.x6c; Byte.x6f].

Definition dir_stat : FileStat := mkFileStat 4096 1000 493 true.
Definition file_stat : FileStat := mkFileStat 5 2000 420 false.

Definition entry (path : string) (st : FileStat) : WalkEvent :=
  mkWalkEvent path (inl st) None.

Definition readable (path : string) : FileRead := mkFileRead None (inl hello).

Definition scan_of (events : list WalkEvent) : ScanEnv :=
  mkScanEnv events readable None Canceled.

(** A healthy environment for one source entry. *)
Definition quiet : FileEnv :=
  mkFileEnv (fun _ => (ResolutionSkip, None)) None None None
    (fun _ => None) (fun _ => None) 0.

(** Scenario S5: a source directory with ten files of five bytes, an empty
    destination directory; opening [/dst/f3] for writing is denied at every
    attempt. *)
Definition ten_names : list string :=
  ["f0"; "f1"; "f2"; "f3"; "f4"; "f5"; "f6"; "f7"; "f8"; "f9"].

Definition S5_source : list WalkEvent :=
  entry "/src" dir_stat :: map (fun n => entry ("/src/" +:+ n) file_stat) ten_names.

Definition S5_destination : list WalkEvent := [entry "/dst" dir_stat].

Definition denied : error :=
  Errorf_w "failed to create destination file /dst/f3: "
    (PathError "open" "/dst/f3" (ErrnoError EACCES)).

Definition S5_file_env (i : nat) : FileEnv :=
  if (i =? 4)%nat then
    mkFileEnv (fun _ => (ResolutionSkip, None)) None None None
      (fun _ => Some denied) (fun _ => None) 0
  else quiet.

Definition S5_env : SyncEnv :=
  mkSyncEnv (scan_of S5_source) (scan_of S5_destination) None Canceled S5_file_env.

(** One new file, the destination directory being there already. *)
Definition one_file_source : list WalkEvent :=
  [entry "/src" dir_stat; entry "/src/a.txt" file_stat].

Definition one_file_env : SyncEnv :=
  mkSyncEnv (scan_of one_file_source) (scan_of [entry "/dst" dir_stat]) None Canceled
    (fun _ => quiet).

Definition dry_run_options : SyncOptions :=
  mkSyncOptions true false true true true false true 0 0 0.

(** The same source, the destination directory missing. *)
Definition missing_destination_env : SyncEnv :=
  mkSyncEnv (scan_of one_file_source) (scan_of (walk_missing_root "/dst")) None Canceled
    (fun _ => quiet).

(** The same source, already mirrored. *)
Definition mirrored_env : SyncEnv :=
  mkSyncEnv (scan_of one_file_source)
    (scan_of [entry "/dst" dir_stat; entry "/dst/a.txt" file_stat]) None Canceled
    (fun _ => quiet).

(** A file system with one source file, and the environments of three
    copies of it: the source cannot be opened for reading; flushing the
    destination fails; setting its times fails. *)
Definition one_file_fs : Copier.FS :=
  {[ "/src/a.txt" := Copier.mkNode hello 420 2000 false ]}.

Definition healthy_copy : Copier.CopyEnv :=
  Copier.mkCopyEnv "linux" None None None None (inl true)
    [Copier.mkReadResult hello None; Copier.mkReadResult [] (Some EOF)]
    (fun _ chunk => Copier.mkWriteResult (length chunk) None)
    [Copier.mkSendfileResult hello None]
    None None None None None Canceled 3000.

Definition unreadable_source : Copier.CopyEnv :=
  Copier.mkCopyEnv "linux" None None None
    (Some (PathError "open" "/src/a.txt" (ErrnoError EACCES))) (inl true)
    [] (fun _ chunk => Copier.mkWriteResult (length chunk) None) []
    None None None None None Canceled 3000.

Definition failing_fsync : Copier.CopyEnv :=
  Copier.mkCopyEnv "linux" None None None None (inl true)
    [Copier.mkReadResult hello None; Copier.mkReadResult [] (Some EOF)]
    (fun _ chunk => Copier.mkWriteResult (length chunk) None)
    [Copier.mkSendfileResult hello None]
    (Some (ErrnoError EIO)) None None None None Canceled 3000.

Definition failing_chtimes : Copier.CopyEnv :=
  Copier.mkCopyEnv "linux" None None None None (inl true)
    [Copier.mkReadResult hello None; Copier.mkReadResult [] (Some EOF)]
    (fun _ chunk => Copier.mkWriteResult (length chunk) None)
    [Copier.mkSendfileResult hello None]
    None None (Some (PathError "chtimes" "/dst/a.txt" (ErrnoError EPERM))) None
    None Canceled 3000.

Definition failing_read : Copier.CopyEnv :=
  Copier.mkCopyEnv "linux" None None None None (inl true)
    [Copier.mkReadResult [] (Some (ErrnoError EIO))]
    (fun _ chunk => Copier.mkWriteResult (length chunk) None)
    [Copier.mkSendfileResult [] (Some (ErrnoError EIO))]
    None None None None None Canceled 3000.

(** Two trees for a mirror run twice.  In the first, the source directory
    is newer than the destination directory and both are empty.  In the
    second, [a.txt] holds [hello] in the source and [world] in the
    destination, the source copy being half a second newer. *)
Definition world : list Byte.byte :=
  [Byte.x77; Byte.x6f; Byte.x72; Byte.x6c; Byte.x64].

Definition empty_dirs_fs : Copier.FS :=
  {[ "/src" := Copier.mkNode [] 493 100 true;
     "/dst" := Copier.mkNode [] 493 50 true ]}.

Definition edited_file_fs : Copier.FS :=
  {[ "/src" := Copier.mkNode [] 493 1000 true;
     "/src/a.txt" := Copier.mkNode hello 420 2500000000 false;
     "/dst" := Copier.mkNode [] 493 1000 true;
     "/dst/a.txt" := Copier.mkNode world 420 2000000000 false ]}.

(** A conflict with the source 30 seconds newer and 2 KiB larger. *)
Definition smart_conflict : ConflictInfo :=
  mkConflictInfo "/src/x.txt"
    (mkFileInfo "/src/x.txt" 4096 (30 * GoTime.Second) 420 false "" "")
    (mkFileInfo "/dst/x.txt" 2048 0 420 false "" "")
    ConflictSizesDiffer.

(** The same sizes, the source 30 seconds older. *)
Definition smart_conflict_older : ConflictInfo :=
  mkConflictInfo "/src/x.txt"
    (mkFileInfo "/src/x.txt" 4096 0 420 false "" "")
    (mkFileInfo "/dst/x.txt" 2048 (30 * GoTime.Second) 420 false "" "")
    ConflictSizesDiffer.

Definition sample_error (c : ErrorCategory) (path : string) : SyncError :=
  mkSyncError c "copy" path "failed" (ErrorString "failed") 0 false "".

End Examples.

(** ** retry.go: the wait between two attempts *)

Module RetryDelay.

Definition mul64 (x y : Z) : Z := wrap64 (x * y).

Definition BackoffLinear : string := "linear".
Definition BackoffExponential : string := "exponential".
Definition BackoffFixed : string := "fixed".

(** [calculateDelay].  The exponential delay is computed in [float64]:
    [scaled attempt] is the value of
    [time.Duration(float64(InitialDelay) * math.Pow(Multiplier, float64(attempt-1)))],
    taken as given. *)
Definition calculateDelay (rm : RetryManager) (scaled : Z -> Z) (attempt : Z) : Z :=
  if String.eqb (Backoff (config rm)) BackoffFixed then InitialDelay (config rm)
  else if String.eqb (Backoff (config rm)) BackoffLinear then
    let delay := mul64 (InitialDelay (config rm)) attempt in
    if MaxDelay (config rm) <? delay then MaxDelay (config rm) else delay
  else
    let delay := scaled attempt in
    if MaxDelay (config rm) <? delay then MaxDelay (config rm) else delay.

(** An error the loop goes on after: one that carries no [*RetryableError],
    or one marked retryable and not fatal. *)
Definition retried (err : error) : bool :=
  match errors_As_Retryable err with
  | Some (_, retryable, fatal) => retryable && negb fatal
  | None => true
  end.

(** The calls from the [k]-th to the one before the [c]-th fail with such
    an error, and the context is not done during the wait after any of
    them. *)
Definition retried_between (operation wait : nat -> option error) (k c : nat) : Prop :=
  forall j, (k <= j < c)%nat ->
    exists err, operation j = Some err /\ retried err = true /\ wait j = None.

End RetryDelay.

(** ** errors.go: a run of [AddError] calls *)

Module ErrorsMore.

(** The errors of a list added one after the other; [None] once an add
    panics. *)
Fixpoint AddErrors (eh : ErrorHandler) (errs : list SyncError) : option ErrorHandler :=
  match errs with
  | [] => Some eh
  | err :: rest =>
      match AddError eh err with
      | Some eh' => AddErrors eh' rest
      | None => None
      end
  end.

End ErrorsMore.

(** ** The configuration loader: the conflict section *)

Module Config.

Definition validStrategies : list string :=
  [ConflictNewest; ConflictSource; ConflictDestination; ConflictInteractive;
   ConflictSmart; ConflictSkip].

(** [%v] of a slice of strings. *)
Definition format_slice (l : list string) : string :=
  "[" +:+ String.concat " " l +:+ "]".

(** [validateConflictConfig]: the configuration as the call leaves it, or
    the error.  (The strategy default is written before the check, so it is
    also in the configuration of a failed call; an empty strategy never
    fails.) *)
Definition validateConflictConfig (config : ConflictConfig) : ConflictConfig + error :=
  let config :=
    if String.eqb (CfgStrategy config) ""
    then mkConflictConfig ConflictNewest (CfgBackup config) (CfgBackupDir config)
           (CfgInteractive config)
    else config in
  if negb (existsb (String.eqb (CfgStrategy config)) validStrategies) then
    inr (ErrorString ("invalid conflict strategy " +:+ CfgStrategy config +:+
                      ", must be one of: " +:+ format_slice validStrategies))
  else if String.eqb (CfgBackupDir config) "" && CfgBackup config then
    inl (mkConflictConfig (CfgStrategy config) (CfgBackup config) ".relay-backups"
           (CfgInteractive config))
  else inl config.

End Config.

(** ** The watcher's event types and the engine's handling of an event *)

Module Watch.
Import Copier Engine.

Inductive ChangeType : Type :=
| ChangeCreate
| ChangeModify
| ChangeDelete
| ChangeRename.

Definition fsnotify_Chmod : Z := 16.


(** [ChangeEvent]; [None] is the nil [Info]. *)
Record ChangeEvent : Type := mkChangeEvent {
  EventType : ChangeType;
  EventPath : string;
  OldPath : string;
  Info : option FileInfo;
  EventTimestamp : Z
}.

(** [os.Remove]: the call fails when the environment says so, when nothing
    is at the path, and on a directory that is not empty. *)
Definition has_entries (fs : FS) (dir : string) : bool :=
  existsb (fun '(path, _) => String.prefix (dir +:+ "/") path) (map_to_list fs).

Definition os_Remove (env : CopyEnv) (fs : FS) (path : string) : FS * option error :=
  match remove_err env with
  | Some err => (fs, Some err)
  | None =>
      match fs !! path with
      | None => (fs, Some (PathError "remove" path (ErrnoError ENOENT)))
      | Some n =>
          if n_isdir n && has_entries fs path
          then (fs, Some (PathError "remove" path (ErrorString "directory not empty")))
          else (delete path fs, None)
      end
  end.

(** [handleChangeEvent]: the file system afterwards and the lines
    printed. *)
Definition handleChangeEvent (P : PathLib) (fc : FileCopier) (env : CopyEnv) (fs : FS)
    (event : ChangeEvent) (source destination : string) : FS * list string :=
  match Rel P source (EventPath event) with
  | inr _ => (fs, [])
  | inl relPath =>
      let destPath := Join P destination relPath in
      match EventType event with
      | ChangeCreate | ChangeModify =>
          match Info event with
          | Some info =>
              if negb (IsDir info) then
                match CopyFile fc env fs (EventPath event) destPath with
                | (fs', Some err) =>
                    (fs', ["Failed to sync file " +:+ EventPath event +:+ ": " +:+ Error err])
                | (fs', None) => (fs', [])
                end
              else (fs, [])
          | None => (fs, [])
          end
      | ChangeDelete =>
          match os_Remove env fs destPath with
          | (fs', Some err) =>
              if negb (os_IsNotExist err)
              then (fs', ["Failed to delete file " +:+ destPath +:+ ": " +:+ Error err])
              else (fs', [])
          | (fs', None) => (fs', [])
          end
      | ChangeRename => (fs, [])
      end
  end.

End Watch.

(** ** scanner.go: the cache's own operations *)

Module ScannerMore.

Definition ClearCache (s : FileScanner) : FileScanner :=
  mkFileScanner (maxConcurrency s) (checksumAlgo s) ∅.

(** [GetCacheStats]: the number of entries and the sum of their sizes; the
    order in which the Go map is ranged over does not show in a wrapped
    sum. *)
Definition GetCacheStats (s : FileScanner) : Z * Z :=
  (Z.of_nat (base.size (cache s)),
   map_fold (fun _ entry totalSize => add64 totalSize (Scanner.size entry)) 0 (cache s)).

(** What a record takes from the entry's [Info]. *)
Definition stat_of_record (info : FileInfo) (path : string) (st : FileStat) : Prop :=
  Path info = path /\ Size info = st_Size st /\ ModTime info = st_ModTime st /\
  Mode info = st_Mode st /\ IsDir info = st_IsDir st.

(** A filter as [List.filter] takes it. *)
Definition kept (f : FilterFunc) (info : FileInfo) : bool := f (Path info) info.

End ScannerMore.

(** ** Steps of a worker, by kind *)

Module EngineMore.
Import Engine.

(** A step that only counts a conflict, a created or modified entry, or an
    error: no call on the destination tree, no error collected, no file
    counted as changed, no byte counted as transferred. *)
Definition counter_only (a : Action) : bool :=
  match a with
  | AddConflictsFound | AddConflictsResolved | AddFilesModified | AddFilesCreated
  | AddErrorsEncountered => true
  | _ => false
  end.

Definition found_of (a : Action) : nat :=
  match a with AddConflictsFound => 1 | _ => 0 end.

Definition resolved_of (a : Action) : nat :=
  match a with AddConflictsResolved => 1 | _ => 0 end.

Definition errors_of (a : Action) : nat :=
  match a with AddErrorsEncountered => 1 | _ => 0 end.

(** How often a list of steps adds to a counter. *)
Definition tally (f : Action -> nat) (acts : list Action) : nat :=
  foldr (fun a n => (f a + n)%nat) 0%nat acts.

(** The scan meets no error of the walk and its context is never done. *)
Definition healthy_scan (env : ScanEnv) : Prop :=
  (forall ev, ev ∈ walk env -> w_err ev = None) /\ cancel_at env = None.

End EngineMore.

(** ** Further closed inputs *)

Module MoreExamples.

(** A retry configuration with no attempt at all. *)
Definition no_budget : RetryManager :=
  mkRetryManager (mkRetryConfig 0 (100 * 1000000) (10 * GoTime.Second) "exponential").

Definition default_manager : RetryManager := NewRetryManager None.

Definition never_done : nat -> option error := fun _ => None.

Definition always (err : error) : nat -> option error := fun _ => Some err.

(** An operation that fails with [err] before its [n]-th call and succeeds
    from then on. *)
Definition fails_until (n : nat) (err : error) : nat -> option error :=
  fun k => if (k <? n)%nat then Some err else None.

(** An operation whose first call is reset and whose later calls are denied,
    the denial having gone through [ClassifyError]. *)
Definition reset_then_denied : nat -> option error :=
  fun k => if (k <? 2)%nat then Some (ErrorString "connection reset")
           else Some (ClassifyError (ErrnoError EACCES)).

(** The exponential delays of the default configuration: 100 ms doubled at
    each attempt. *)
Definition doubled (attempt : Z) : Z := 100 * 1000000 * 2 ^ (attempt - 1).

(** The healthy copy of [Examples.healthy_copy] under a context that is
    done before the copy starts. *)
Definition cancelled_copy : Copier.CopyEnv :=
  Copier.mkCopyEnv "linux" None None None None (inl true)
    [Copier.mkReadResult Examples.hello None; Copier.mkReadResult [] (Some EOF)]
    (fun _ chunk => Copier.mkWriteResult (length chunk) None)
    [Copier.mkSendfileResult Examples.hello None]
    None None None None (Some 0%nat) Canceled 3000.

(** A source directory with one file in it. *)
Definition dir_fs : Copier.FS :=
  {[ "/src" := Copier.mkNode [] 493 1000 true;
     "/src/a.txt" := Copier.mkNode Examples.hello 420 2000 false ]}.

(** The engine after a dry run on [Examples.one_file_env]. *)
Definition after_dry_run : Engine.SyncEngine :=
  match Engine.Sync Examples.toy_hashers SlashPaths.lib (Engine.NewSyncEngine 4)
          Examples.one_file_env "/src" "/dst" Examples.dry_run_options with
  | Some (e', _) => e'
  | None => Engine.NewSyncEngine 4
  end.

(** The engine after scenario S5. *)
Definition after_S5 : Engine.SyncEngine :=
  match Engine.Sync Examples.toy_hashers SlashPaths.lib (Engine.NewSyncEngine 4)
          Examples.S5_env "/src" "/dst" Engine.mirror_options with
  | Some (e', _) => e'
  | None => Engine.NewSyncEngine 4
  end.

End MoreExamples.

(** * Properties *)

(** ** Arithmetic of [int64] *)

Lemma wrap64_id (z : Z) : in_int64 z -> wrap64 z = z.
Proof.
  unfold in_int64, min_int64, max_int64, wrap64. intros Hz.
  rewrite Z.mod_small; lia.
Qed.

Lemma add64_small (x y : Z) : in_int64 (x + y) -> add64 x y = x + y.
Proof. apply wrap64_id. Qed.

Lemma sub64_small (x y : Z) : in_int64 (x - y) -> sub64 x y = x - y.
Proof. apply wrap64_id. Qed.

(** ** Error classification *)

Section Classification.

(** A context error is classified as fatal exactly when its message holds
    none of the network, permission and disk patterns: those three tests
    come first in [ClassifyError]. *)
Lemma ClassifyError_context (err : error) :
  isContextError err = true ->
  Fatal_of (ClassifyError err) =
  negb (isNetworkError err || isPermissionError err || isDiskFullError err).
Proof.
  intros Hctx. unfold ClassifyError. rewrite Hctx.
  destruct (isNetworkError err); [reflexivity|].
  destruct (isPermissionError err); [reflexivity|].
  destruct (isDiskFullError err); reflexivity.
Qed.

(** C6, at the failing input: a deadline error whose message also holds the
    network pattern [timeout] is classified as retryable, not fatal. *)
Theorem ClassifyError_deadline_timeout_not_fatal :
  isContextError (Errorf_w "connection timeout: " DeadlineExceeded) = true /\
  Error (Errorf_w "connection timeout: " DeadlineExceeded)
    = "connection timeout: context deadline exceeded" /\
  ClassifyError (Errorf_w "connection timeout: " DeadlineExceeded)
    = RetryableError (Errorf_w "connection timeout: " DeadlineExceeded) true false /\
  Fatal_of (ClassifyError (Errorf_w "connection timeout: " DeadlineExceeded)) = false.
Proof. repeat split; vm_compute; reflexivity. Qed.

End Classification.

(** ** The conflict resolver *)

Section ResolverProperties.

Lemma resolveByNewest_rule (c : ConflictInfo) :
  resolveByNewest c = SmartSpec.newest_rule c.
Proof.
  unfold resolveByNewest, SmartSpec.newest_rule, GoTime.After.
  destruct (Z.ltb_spec (ModTime (DestInfo c)) (ModTime (SourceInfo c)));
    destruct (Z.ltb_spec (ModTime (SourceInfo c)) (ModTime (DestInfo c)));
    try reflexivity; lia.
Qed.

Lemma Sub_gt_Minute (t u : Z) :
  (GoTime.Minute <? GoTime.Sub t u) = (GoTime.Minute <? t - u).
Proof.
  unfold GoTime.Sub.
  destruct (Z.ltb_spec max_int64 (t - u));
    [|destruct (Z.ltb_spec (t - u) min_int64)];
    unfold GoTime.Minute, GoTime.Second, max_int64, min_int64 in *;
    repeat match goal with
           | |- context [?a <? ?b] => destruct (Z.ltb_spec a b)
           end; try reflexivity; lia.
Qed.

Lemma Sub_lt_neg_Minute (t u : Z) :
  (GoTime.Sub t u <? - GoTime.Minute) = (t - u <? - GoTime.Minute).
Proof.
  unfold GoTime.Sub.
  destruct (Z.ltb_spec max_int64 (t - u));
    [|destruct (Z.ltb_spec (t - u) min_int64)];
    unfold GoTime.Minute, GoTime.Second, max_int64, min_int64 in *;
    repeat match goal with
           | |- context [?a <? ?b] => destruct (Z.ltb_spec a b)
           end; try reflexivity; lia.
Qed.

(** C8: under the Smart strategy the resolver decides as the
    specification says: beyond 60 seconds apart the newer side, else beyond
    1024 bytes apart the larger side, else the Newest rule (later
    modification time, the source on a tie).  The two sizes are file
    lengths. *)
Theorem resolveSmart_as_specified
    (cr : ConflictResolver) (ask : ConflictInfo -> ConflictResolution * option error)
    (c : ConflictInfo) :
  interactive cr = false ->
  strategy cr = ConflictSmart ->
  SmartSpec.file_size (Size (SourceInfo c)) ->
  SmartSpec.file_size (Size (DestInfo c)) ->
  ResolveConflict cr ask c = (SmartSpec.smart_rule c, None) /\
  resolveSmart c = SmartSpec.smart_rule c.
Proof.
  unfold SmartSpec.file_size. intros Hi Hst Hs Hd.
  assert (E : resolveSmart c = SmartSpec.smart_rule c).
  { unfold resolveSmart, SmartSpec.smart_rule.
    rewrite Sub_gt_Minute, Sub_lt_neg_Minute, resolveByNewest_rule.
    rewrite sub64_small by (unfold in_int64, min_int64, max_int64 in *; lia).
    unfold GoTime.Minute, GoTime.Second.
    repeat match goal with
           | |- context [?a <? ?b] => destruct (Z.ltb_spec a b)
           end; try reflexivity; lia. }
  split; [|exact E].
  unfold ResolveConflict. rewrite Hi, Hst. simpl. rewrite E. reflexivity.
Qed.

(** C10: with interactive mode off, a strategy that is none of newest,
    source, destination, smart and skip is resolved as Newest, without
    error. *)
Theorem ResolveConflict_unknown_strategy
    (cr : ConflictResolver) (ask : ConflictInfo -> ConflictResolution * option error)
    (c : ConflictInfo) :
  interactive cr = false ->
  strategy cr ∉ [ConflictNewest; ConflictSource; ConflictDestination;
                 ConflictSmart; ConflictSkip] ->
  ResolveConflict cr ask c = (resolveByNewest c, None) /\
  ResolveConflict cr ask c =
    ResolveConflict (mkConflictResolver ConflictNewest (backup cr) (backupDir cr) false) ask c.
Proof.
  intros Hi Hs. unfold ResolveConflict at 1 2. rewrite Hi.
  assert (forall s, s ∈ [ConflictNewest; ConflictSource; ConflictDestination;
                         ConflictSmart; ConflictSkip] ->
                    String.eqb (strategy cr) s = false) as Hne.
  { intros s Hin. apply String.eqb_neq. intros Heq. apply Hs. rewrite Heq. exact Hin. }
  rewrite !Hne by set_solver.
  split; reflexivity.
Qed.

(** The witness of C8: the source 2 KiB larger and 30 seconds newer, or 30
    seconds older, is chosen. *)
Lemma resolveSmart_as_specified_witness :
  ResolveConflict (mkConflictResolver ConflictSmart false ".relay-backups" false)
    (fun _ => (ResolutionSkip, None)) Examples.smart_conflict
  = (ResolutionUseSource, None) /\
  ResolveConflict (mkConflictResolver ConflictSmart false ".relay-backups" false)
    (fun _ => (ResolutionSkip, None)) Examples.smart_conflict_older
  = (ResolutionUseSource, None).
Proof.
  split.
  - refine (proj1 (resolveSmart_as_specified
                     (mkConflictResolver ConflictSmart false ".relay-backups" false)
                     (fun _ => (ResolutionSkip, None)) Examples.smart_conflict _ _ _ _)).
    + reflexivity.
    + reflexivity.
    + unfold SmartSpec.file_size, max_int64. simpl. lia.
    + unfold SmartSpec.file_size, max_int64. simpl. lia.
  - refine (proj1 (resolveSmart_as_specified
                     (mkConflictResolver ConflictSmart false ".relay-backups" false)
                     (fun _ => (ResolutionSkip, None)) Examples.smart_conflict_older _ _ _ _)).
    + reflexivity.
    + reflexivity.
    + unfold SmartSpec.file_size, max_int64. simpl. lia.
    + unfold SmartSpec.file_size, max_int64. simpl. lia.
Defined.

(** The witness of C10: the empty strategy. *)
Lemma ResolveConflict_unknown_strategy_witness :
  ResolveConflict (mkConflictResolver "" false ".relay-backups" false)
    (fun _ => (ResolutionSkip, None)) Examples.smart_conflict
  = (resolveByNewest Examples.smart_conflict, None).
Proof.
  refine (proj1 (ResolveConflict_unknown_strategy
                   (mkConflictResolver "" false ".relay-backups" false)
                   (fun _ => (ResolutionSkip, None)) Examples.smart_conflict _ _)).
  - reflexivity.
  - intros Hin.
    repeat (apply elem_of_cons in Hin as [Hin|Hin]; [discriminate|]).
    apply elem_of_nil in Hin. exact Hin.
Defined.

End ResolverProperties.

(** ** The error collector *)

Section Aggregator.
Import AggregatorSpec.

Lemma effective_max_pos (m : Z) : 1 <= effective_max m.
Proof. unfold effective_max. destruct (Z.leb_spec m 0); lia. Qed.

Lemma count_category_cons (c : ErrorCategory) (e : SyncError) (l : list SyncError) :
  count_category c (e :: l) =
  ((if decide (Category e = c) then 1 else 0) + count_category c l)%nat.
Proof.
  unfold count_category. rewrite filter_cons.
  destruct (decide (Category e = c)); reflexivity.
Qed.

Lemma count_category_le (c : ErrorCategory) (l : list SyncError) :
  (count_category c l <= length l)%nat.
Proof. unfold count_category. apply length_filter. Qed.

Lemma summary_incr_lookup (m : gmap ErrorCategory Z) (c c' : ErrorCategory) :
  default 0 (summary_incr m c !! c') =
  if decide (c = c') then add64 (default 0 (m !! c)) 1 else default 0 (m !! c').
Proof.
  unfold summary_incr. destruct (decide (c = c')) as [->|Hne].
  - rewrite lookup_insert_eq. reflexivity.
  - rewrite lookup_insert_ne by exact Hne. reflexivity.
Qed.

(** The loop of [GetSummary], from any map whose counts leave room for the
    errors still to be counted. *)
Lemma summary_fold (l : list SyncError) :
  forall (m : gmap ErrorCategory Z),
    (forall c, 0 <= default 0 (m !! c) /\
               default 0 (m !! c) + Z.of_nat (length l) <= max_int64) ->
    forall c,
      default 0 (foldl (fun summary err => summary_incr summary (Category err)) m l !! c)
      = default 0 (m !! c) + Z.of_nat (count_category c l).
Proof.
  induction l as [|e l IH]; intros m Hm c.
  - simpl. unfold count_category. simpl. lia.
  - simpl foldl. rewrite IH.
    + rewrite summary_incr_lookup, count_category_cons.
      destruct (decide (Category e = c)) as [->|Hne].
      * rewrite add64_small.
        -- lia.
        -- specialize (Hm c). simpl length in Hm.
           unfold in_int64, min_int64, max_int64 in *. lia.
      * lia.
    + intros c'. rewrite summary_incr_lookup.
      specialize (Hm c') as Hc'. specialize (Hm (Category e)) as He.
      simpl length in Hc', He.
      destruct (decide (Category e = c')) as [->|Hne].
      * rewrite add64_small by (unfold in_int64, min_int64, max_int64 in *; lia). lia.
      * lia.
Qed.

Lemma GetSummary_counts (eh : ErrorHandler) (c : ErrorCategory) :
  Z.of_nat (length (errors eh)) <= max_int64 ->
  default 0 (GetSummary eh !! c) = Z.of_nat (count_category c (errors eh)).
Proof.
  intros Hlen. unfold GetSummary. rewrite summary_fold.
  - rewrite lookup_empty. simpl. lia.
  - intros c'. rewrite lookup_empty. simpl. lia.
Qed.

Lemma built_invariant (m : Z) (eh : ErrorHandler) :
  built m eh ->
  maxErrors eh = effective_max m /\
  Z.of_nat (length (errors eh)) <= effective_max m.
Proof.
  pose proof (effective_max_pos m) as Hpos.
  induction 1 as [|eh err eh' Hb [IHm IHl] Hadd|eh Hb [IHm IHl]].
  - split; [reflexivity|simpl; lia].
  - unfold AddError in Hadd. rewrite IHm in Hadd.
    destruct (Z.leb_spec (effective_max m) (Z.of_nat (length (errors eh)))).
    + destruct (errors eh) as [|e0 rest] eqn:E; [discriminate|].
      injection Hadd as <-. simpl. split; [reflexivity|].
      rewrite length_app. simpl in *. lia.
    + injection Hadd as <-. simpl. split; [reflexivity|].
      rewrite length_app. simpl. lia.
  - split; [exact IHm|simpl; lia].
Qed.

(** C9: a collector made by [NewErrorHandler maxErrors] never holds more
    than the configured maximum (1000 when [maxErrors] is not at least 1);
    an add never fails; on a full buffer it drops the oldest error and
    appends the new one, otherwise it appends; the summary gives, for each
    category, the number of stored errors of that category.  [maxErrors]
    is a Go [int]. *)
Theorem ErrorHandler_bounded_fifo (m : Z) (eh : ErrorHandler) :
  m <= max_int64 ->
  built m eh ->
  Z.of_nat (length (errors eh)) <= effective_max m /\
  (forall err : SyncError,
      exists eh', AddError eh err = Some eh' /\
        built m eh' /\
        Z.of_nat (length (errors eh')) <= effective_max m /\
        errors eh' =
          (if Z.of_nat (length (errors eh)) =? effective_max m
           then drop 1 (errors eh) else errors eh) ++ [err]) /\
  (forall c : ErrorCategory,
      default 0 (GetSummary eh !! c) = Z.of_nat (count_category c (errors eh))).
Proof.
  intros Hm Hb.
  pose proof (effective_max_pos m) as Hpos.
  destruct (built_invariant m eh Hb) as [Hmax Hlen].
  split; [exact Hlen|]. split.
  - intros err.
    assert (exists eh', AddError eh err = Some eh' /\
              errors eh' =
                (if Z.of_nat (length (errors eh)) =? effective_max m
                 then drop 1 (errors eh) else errors eh) ++ [err]) as (eh' & Hadd & Herr).
    { unfold AddError. rewrite Hmax.
      destruct (Z.leb_spec (effective_max m) (Z.of_nat (length (errors eh)))).
      - destruct (errors eh) as [|e0 rest] eqn:E; [simpl in *; lia|].
        eexists; split; [reflexivity|]. simpl errors.
        replace (Z.of_nat (length (e0 :: rest)) =? effective_max m) with true
          by (symmetry; apply Z.eqb_eq; lia).
        reflexivity.
      - eexists; split; [reflexivity|]. simpl errors.
        replace (Z.of_nat (length (errors eh)) =? effective_max m) with false
          by (symmetry; apply Z.eqb_neq; lia).
        reflexivity. }
    exists eh'. split; [exact Hadd|].
    assert (built m eh') as Hb' by (eapply built_add; eassumption).
    split; [exact Hb'|]. split; [apply (built_invariant m eh' Hb')|exact Herr].
  - intros c. apply GetSummary_counts.
    unfold effective_max in Hlen. destruct (m <=? 0); unfold max_int64 in *; lia.
Qed.

(** The witness of C9: three errors added to a collector of two. *)
Lemma ErrorHandler_bounded_fifo_witness :
  Z.of_nat (length [Examples.sample_error ErrorCategoryDisk "/b";
                    Examples.sample_error ErrorCategoryPermission "/c"]) <= 2 /\
  default 0 (GetSummary
               (mkErrorHandler [Examples.sample_error ErrorCategoryDisk "/b";
                                Examples.sample_error ErrorCategoryPermission "/c"] 2)
             !! ErrorCategoryPermission) = 1.
Proof.
  destruct (ErrorHandler_bounded_fifo 2
              (mkErrorHandler [Examples.sample_error ErrorCategoryDisk "/b";
                               Examples.sample_error ErrorCategoryPermission "/c"] 2))
    as (Hlen & _ & Hsum).
  - unfold max_int64. lia.
  - apply (built_add 2
             (mkErrorHandler [Examples.sample_error ErrorCategoryNetwork "/a";
                              Examples.sample_error ErrorCategoryDisk "/b"] 2)
             (Examples.sample_error ErrorCategoryPermission "/c")); [|reflexivity].
    apply (built_add 2
             (mkErrorHandler [Examples.sample_error ErrorCategoryNetwork "/a"] 2)
             (Examples.sample_error ErrorCategoryDisk "/b")); [|reflexivity].
    apply (built_add 2 (NewErrorHandler 2)
             (Examples.sample_error ErrorCategoryNetwork "/a")); [|reflexivity].
    apply built_new.
  - split; [exact Hlen|]. rewrite Hsum. reflexivity.
Defined.

End Aggregator.

(** ** The scanner *)

Section ScannerProperties.
Import ScannerSpec.

Lemma unknown_algorithm_eqb (algo : string) :
  algo ∉ ["blake3"; "sha256"; "md5"] ->
  String.eqb algo "blake3" = false /\ String.eqb algo "sha256" = false /\
  String.eqb algo "md5" = false.
Proof.
  intros Hn. repeat split; apply String.eqb_neq; intros ->; apply Hn; set_solver.
Qed.

(** With an unknown tag the digest step fails whatever the file holds. *)
Lemma calculateChecksum_unknown (H : Hashers) (s : FileScanner)
    (reader : list Byte.byte + error) :
  checksumAlgo s ∉ ["blake3"; "sha256"; "md5"] ->
  calculateChecksum H s reader =
  inr (ErrorString ("unsupported checksum algorithm: " +:+ checksumAlgo s)).
Proof.
  intros Hn. destruct (unknown_algorithm_eqb _ Hn) as (E1 & E2 & E3).
  unfold calculateChecksum. rewrite E1, E2, E3. reflexivity.
Qed.

(** The tag [md5] is accepted, and gives the SHA-256 digest. *)
Lemma calculateChecksum_md5 (H : Hashers) (s : FileScanner) (data : list Byte.byte) :
  checksumAlgo s = "md5" ->
  calculateChecksum H s (inl data) = inl (hex_EncodeToString (sha256_Sum H data)).
Proof. intros E. unfold calculateChecksum. rewrite E. reflexivity. Qed.

(** One entry, an unknown tag and no cache entry for the path: the record
    comes back bare and the scanner is unchanged. *)
Lemma getFileInfo_unknown (H : Hashers) (s : FileScanner) (ev : WalkEvent)
    (file : FileRead) :
  checksumAlgo s ∉ ["blake3"; "sha256"; "md5"] ->
  cache s !! w_path ev = None ->
  exists r, getFileInfo H s (w_path ev) (w_info ev) file = (r, s) /\
            match bare_record ev with
            | Some info => r = inl info
            | None => exists err, r = inr err
            end.
Proof.
  intros Hn Hc. unfold getFileInfo, bare_record.
  destruct (w_info ev) as [st|err]; [|eexists; split; [reflexivity|eauto]].
  simpl IsDir. simpl Size.
  destruct (negb (st_IsDir st) && (0 <? st_Size st)); [|eexists; split; reflexivity].
  unfold getChecksum, cache_hit. rewrite Hc.
  destruct (open_err file); [eexists; split; reflexivity|].
  rewrite calculateChecksum_unknown by exact Hn.
  eexists; split; reflexivity.
Qed.

Lemma walkDir_unknown (H : Hashers) (env : ScanEnv) (s : FileScanner) :
  checksumAlgo s ∉ ["blake3"; "sha256"; "md5"] ->
  cancel_at env = None ->
  forall (events : list WalkEvent) (i : nat) (files : list FileInfo),
    (forall ev, ev ∈ events -> w_err ev = None /\ cache s !! w_path ev = None) ->
    walkDir H env None events i s files = (inl (files ++ omap bare_record events), s).
Proof.
  intros Hn Hc. induction events as [|ev rest IH]; intros i files Hev.
  - simpl. rewrite app_nil_r. reflexivity.
  - destruct (Hev ev) as [He Hcache]; [apply elem_of_cons; left; reflexivity|].
    simpl walkDir. rewrite He.
    unfold ctx_done. rewrite Hc.
    destruct (getFileInfo_unknown H s ev (contents env (w_path ev)) Hn Hcache)
      as (r & -> & Hr).
    simpl omap. destruct (bare_record ev) as [info|].
    + subst r. rewrite IH by (intros ev' Hin; apply Hev, elem_of_cons; right; exact Hin).
      rewrite <- app_assoc. reflexivity.
    + destruct Hr as [err ->]. apply IH.
      intros ev' Hin; apply Hev, elem_of_cons; right; exact Hin.
Qed.

(** C7, as amended: the default tag is [blake3]; the tags [blake3] and
    [sha256] give the digests of these names; with a tag that is none of
    [blake3], [sha256] and [md5], the digest step fails on every file, and
    a scan that meets no walk error and no cancellation, over paths the
    cache has no entry for, succeeds and returns every entry without digest
    and without digest-algorithm tag, leaving the scanner as it was. *)
Theorem Scan_unknown_algorithm (H : Hashers) (s : FileScanner) (env : ScanEnv)
    (root : string) :
  checksumAlgo s ∉ ["blake3"; "sha256"; "md5"] ->
  (forall ev, ev ∈ walk env -> w_err ev = None /\ cache s !! w_path ev = None) ->
  cancel_at env = None ->
  (forall gomaxprocs n, checksumAlgo (NewFileScanner gomaxprocs n) = "blake3") /\
  (forall data,
      calculateChecksum H (SetChecksumAlgorithm s "blake3") (inl data)
        = inl (hex_EncodeToString (blake3_Sum H data)) /\
      calculateChecksum H (SetChecksumAlgorithm s "sha256") (inl data)
        = inl (hex_EncodeToString (sha256_Sum H data))) /\
  (forall reader, exists err, calculateChecksum H s reader = inr err) /\
  Scan H s env root = (inl (omap bare_record (walk env)), s) /\
  Forall (fun info => Checksum info = "" /\ ChecksumAlgo info = "")
         (omap bare_record (walk env)).
Proof.
  intros Hn Hev Hc. split; [reflexivity|]. split; [split; reflexivity|]. split.
  { intros reader. eexists. apply calculateChecksum_unknown. exact Hn. }
  split.
  - unfold Scan, ScanWithFilter.
    rewrite (walkDir_unknown H env s Hn Hc (walk env) 0 [] Hev).
    unfold ctx_done. rewrite Hc. reflexivity.
  - apply Forall_forall. intros info Hin.
    apply list_elem_of_omap in Hin as (ev & _ & Hb).
    unfold bare_record in Hb. destruct (w_info ev); [|discriminate].
    injection Hb as <-. split; reflexivity.
Qed.

(** The witness of C7: a scan of a directory with one file under the tag
    [crc32]. *)
Lemma Scan_unknown_algorithm_witness :
  Scan Examples.toy_hashers (SetChecksumAlgorithm (NewFileScanner 4 0) "crc32")
    (Examples.scan_of Examples.one_file_source) "/src"
  = (inl [mkFileInfo "/src" 4096 1000 493 true "" "";
          mkFileInfo "/src/a.txt" 5 2000 420 false "" ""],
     SetChecksumAlgorithm (NewFileScanner 4 0) "crc32").
Proof.
  refine (proj1 (proj2 (proj2 (proj2
    (Scan_unknown_algorithm Examples.toy_hashers
       (SetChecksumAlgorithm (NewFileScanner 4 0) "crc32")
       (Examples.scan_of Examples.one_file_source) "/src" _ _ _))))).
  - vm_compute. intros Hin.
    repeat (apply elem_of_cons in Hin as [Hin|Hin]; [discriminate|]).
    apply elem_of_nil in Hin. exact Hin.
  - intros ev Hin. split.
    + vm_compute in Hin.
      repeat (apply elem_of_cons in Hin as [->|Hin]; [reflexivity|]).
      apply elem_of_nil in Hin. contradiction.
    + apply lookup_empty.
  - reflexivity.
Defined.

(** C7, the counterexample: under the tag [md5], which is neither
    [blake3] nor [sha256], the digest step succeeds (with the SHA-256
    digest), and the scanned file carries that digest and the tag [md5];
    and under the unknown tag [crc32], a file that was scanned before is
    returned with the digest found in the cache and the tag [crc32]. *)
Lemma Scan_digest_despite_tag :
  ("md5" ∉ ["blake3"; "sha256"]) /\
  (forall (H : Hashers) (data : list Byte.byte),
      calculateChecksum H (SetChecksumAlgorithm (NewFileScanner 4 0) "md5") (inl data)
      = inl (hex_EncodeToString (sha256_Sum H data))) /\
  (forall H : Hashers,
      fst (Scan H (SetChecksumAlgorithm (NewFileScanner 4 0) "md5")
             (Examples.scan_of Examples.one_file_source) "/src")
      = inl [mkFileInfo "/src" 4096 1000 493 true "" "";
             mkFileInfo "/src/a.txt" 5 2000 420 false
               (hex_EncodeToString (sha256_Sum H Examples.hello)) "md5"]) /\
  (forall H : Hashers,
      fst (Scan H
             (SetChecksumAlgorithm
                (snd (Scan H (NewFileScanner 4 0)
                        (Examples.scan_of Examples.one_file_source) "/src"))
                "crc32")
             (Examples.scan_of Examples.one_file_source) "/src")
      = inl [mkFileInfo "/src" 4096 1000 493 true "" "";
             mkFileInfo "/src/a.txt" 5 2000 420 false
               (hex_EncodeToString (blake3_Sum H Examples.hello)) "crc32"]).
Proof.
  split; [|split; [|split]].
  - intros Hin.
    repeat (apply elem_of_cons in Hin as [Hin|Hin]; [discriminate|]).
    apply elem_of_nil in Hin. exact Hin.
  - intros H data. reflexivity.
  - intros H. reflexivity.
  - intros H. vm_compute. reflexivity.
Qed.

(** No error wrapped by [fmt.Errorf] is recognised by [os.IsNotExist]. *)
Lemma os_IsNotExist_Errorf_w (prefix : string) (err : error) :
  os_IsNotExist (Errorf_w prefix err) = false.
Proof. reflexivity. Qed.

(** Whatever a scan fails with is not recognised by [os.IsNotExist], the
    context's error being [context.Canceled] or
    [context.DeadlineExceeded]. *)
Lemma Scan_error_not_IsNotExist (H : Hashers) (s s' : FileScanner) (env : ScanEnv)
    (root : string) (err : error) :
  ctx_Err env = Canceled \/ ctx_Err env = DeadlineExceeded ->
  Scan H s env root = (inr err, s') ->
  os_IsNotExist err = false.
Proof.
  intros Hctx. unfold Scan, ScanWithFilter.
  destruct (walkDir H env None (walk env) 0 s []) as [[files|e] s1].
  - destruct (ctx_done env (length (walk env))); [|discriminate].
    intros [= <- _]. destruct Hctx as [-> | ->]; reflexivity.
  - intros [= <- _]. reflexivity.
Qed.

End ScannerProperties.

(** ** The copier *)

Section CopierProperties.
Import Copier.

(** C3, at the failing inputs: when the source cannot be opened for
    reading, [CopyFile] returns the error and leaves the empty file it has
    just created at the destination; when flushing the destination or
    setting its times fails, the written file stays as well.  (A failing
    read, by contrast, has the destination removed.) *)
Theorem CopyFile_leaves_destination_behind :
  (exists fs',
      CopyFile (NewFileCopier 4 0 true) Examples.unreadable_source
        Examples.one_file_fs "/src/a.txt" "/dst/a.txt"
      = (fs', Some (Errorf_w "failed to open source file /src/a.txt: "
                      (PathError "open" "/src/a.txt" (ErrnoError EACCES)))) /\
      fs' !! "/dst/a.txt" = Some (mkNode [] 420 3000 false)) /\
  (exists fs',
      CopyFile (NewFileCopier 4 0 true) Examples.failing_fsync
        Examples.one_file_fs "/src/a.txt" "/dst/a.txt"
      = (fs', Some (Errorf_w "failed to sync destination file: " (ErrnoError EIO))) /\
      fs' !! "/dst/a.txt" = Some (mkNode Examples.hello 420 3000 false)) /\
  (exists fs',
      CopyFile (NewFileCopier 4 0 true) Examples.failing_chtimes
        Examples.one_file_fs "/src/a.txt" "/dst/a.txt"
      = (fs', Some (Errorf_w "failed to set file times: "
                      (PathError "chtimes" "/dst/a.txt" (ErrnoError EPERM)))) /\
      fs' !! "/dst/a.txt" = Some (mkNode Examples.hello 420 3000 false)) /\
  (exists fs',
      CopyFile (NewFileCopier 4 0 false) Examples.failing_read
        Examples.one_file_fs "/src/a.txt" "/dst/a.txt"
      = (fs', Some (Errorf_w "failed to copy file content: " (ErrnoError EIO))) /\
      fs' !! "/dst/a.txt" = None).
Proof.
  repeat split; eexists; (split; [vm_compute; reflexivity|vm_compute; reflexivity]).
Qed.

Lemma fs_create_lookup (fs : FS) (dst : string) (mode : Z) (now : GoTime.Time) :
  is_Some (fs_create fs dst mode now !! dst).
Proof.
  unfold fs_create. destruct (fs !! dst); rewrite lookup_insert_eq; eauto.
Qed.

(** In general: a failure to open the source leaves the file just created
    at the destination. *)
Lemma copyRegularFile_open_failure (fc : FileCopier) (env : CopyEnv) (fs : FS)
    (src dst : string) (srcInfo : Node) (e : error) :
  mkdirAll_err env = None ->
  openFile_err env = None ->
  open_src_err env = Some e ->
  snd (copyRegularFile fc env fs src dst srcInfo)
    = Some (Errorf_w ("failed to open source file " +:+ src +:+ ": ") e) /\
  is_Some (fst (copyRegularFile fc env fs src dst srcInfo) !! dst).
Proof.
  intros Hmk Hop Hsrc. unfold copyRegularFile. rewrite Hmk, Hop, Hsrc. simpl.
  split; [reflexivity|apply fs_create_lookup].
Qed.

(** When only the transfer of the contents can fail, a failed copy leaves
    nothing at the destination. *)
Lemma copyRegularFile_transfer_failure (fc : FileCopier) (env : CopyEnv) (fs fs' : FS)
    (src dst : string) (srcInfo : Node) (err : error) :
  mkdirAll_err env = None ->
  openFile_err env = None ->
  open_src_err env = None ->
  fsync_err env = None ->
  chmod_err env = None ->
  chtimes_err env = None ->
  remove_err env = None ->
  copyRegularFile fc env fs src dst srcInfo = (fs', Some err) ->
  fs' !! dst = None.
Proof.
  intros Hmk Hop Hsrc Hfs Hch Hct Hrm. unfold copyRegularFile.
  rewrite Hmk, Hop, Hsrc, Hfs, Hch, Hct.
  destruct (if useZeroCopy fc && canUseZeroCopy fc env
            then zeroCopy env (n_size srcInfo) else bufferedCopy env 0 [])
    as [[bytesWritten cerr] out].
  unfold fs_remove. rewrite Hrm.
  destruct cerr as [e|].
  { intros [= <- _]. apply lookup_delete_eq. }
  destruct (negb (bytesWritten =? n_size srcInfo)).
  { intros [= <- _]. apply lookup_delete_eq. }
  destruct (preservePerms fc), (preserveTimes fc); discriminate.
Qed.

End CopierProperties.

(** ** The engine *)

Section EngineProperties.
Import Engine Interleave.

(** C1, at the failing input (scenario S5): ten source files, the copy of
    one of them denied at each of the three attempts.  The run completes
    without error, nine files are counted as changed, the collector holds
    one Permission error, and [ErrorsEncountered] ends at 2: the failure is
    counted in [syncFile] and again by the goroutine that called it. *)
Theorem Sync_S5_counts_the_failure_twice (H : Hashers) :
  exists e',
    Sync H SlashPaths.lib (NewSyncEngine 4) Examples.S5_env "/src" "/dst" mirror_options
      = Some (e', None) /\
    stats e' = mkSyncStats 11 9 9 0 0 45 0 0 2 /\
    map (fun err => (Category err, ErrPath err)) (errors (errorHandler e'))
      = [(ErrorCategoryPermission, "/src/f3")] /\
    length (filter (fun c => c = CallCopyFile "/src/f3" "/dst/f3") (calls e')) = 3%nat.
Proof.
  eexists. split; [vm_compute; reflexivity|].
  repeat split; vm_compute; reflexivity.
Qed.

(** In general: a copy that fails for good makes the worker add to
    [ErrorsEncountered] twice, whereas a failure to create a directory
    makes it add once. *)
Lemma worker_copy_failure (P : PathLib) (cr : ConflictResolver) (rm : RetryManager)
    (fe : FileEnv) (source destination rel : string) (file : FileInfo)
    (destMap : gmap string FileInfo) (opts : SyncOptions) (n : nat) (copyErr : error) :
  Rel P source (Path file) = inl rel ->
  destMap !! rel = None ->
  DryRun opts = false ->
  IsDir file = false ->
  ExecuteWithRetry rm (attempts fe) (retry_wait fe) = (n, Some copyErr) ->
  worker P cr rm fe source destination file destMap opts
  = repeat (Invoke (CallCopyFile (Path file) (Join P destination rel))) n ++
    [PushError (ClassifySyncError (now fe) "copy" (Path file) copyErr);
     AddErrorsEncountered; AddErrorsEncountered].
Proof.
  intros HR HD Hdry Hdir Hretry.
  unfold worker, syncFile. rewrite HR, HD.
  unfold sync_step. rewrite Hdry, Hdir. unfold copy_step. rewrite Hretry.
  rewrite <- app_assoc. reflexivity.
Qed.

Lemma worker_mkdir_failure (P : PathLib) (cr : ConflictResolver) (rm : RetryManager)
    (fe : FileEnv) (source destination rel : string) (file : FileInfo)
    (destMap : gmap string FileInfo) (opts : SyncOptions) (err : error) :
  Rel P source (Path file) = inl rel ->
  destMap !! rel = None ->
  DryRun opts = false ->
  IsDir file = true ->
  mkdirAll fe = Some err ->
  worker P cr rm fe source destination file destMap opts
  = [Invoke (CallMkdirAll (Join P destination rel) (Mode file)); AddErrorsEncountered].
Proof.
  intros HR HD Hdry Hdir Hmk.
  unfold worker, syncFile. rewrite HR, HD.
  unfold sync_step. rewrite Hdry, Hdir, Hmk. reflexivity.
Qed.

(** C4, at the failing input: the destination directory does not exist.
    The scan of the destination fails with the error of [os.Lstat] wrapped
    by [fmt.Errorf]; [os.IsNotExist] does not look through the wrapping,
    and [Sync] returns failure without having started a worker. *)
Theorem Sync_missing_destination_fails (H : Hashers) :
  os_IsNotExist (PathError "lstat" "/dst" (ErrnoError ENOENT)) = true /\
  os_IsNotExist (Errorf_w "failed to scan directory /dst: "
                   (PathError "lstat" "/dst" (ErrnoError ENOENT))) = false /\
  exists e',
    Sync H SlashPaths.lib (NewSyncEngine 4) Examples.missing_destination_env
      "/src" "/dst" mirror_options
    = Some (e', Some (Errorf_w "failed to scan destination directory: "
                        (Errorf_w "failed to scan directory /dst: "
                           (PathError "lstat" "/dst" (ErrnoError ENOENT))))) /\
    stats e' = mkSyncStats 2 0 0 0 0 0 0 0 0 /\
    calls e' = [].
Proof.
  split; [reflexivity|]. split; [reflexivity|].
  eexists. split; [vm_compute; reflexivity|].
  split; reflexivity.
Qed.

(** In general: whenever the scan of the destination fails, [Sync] fails;
    the branch that would go on with an empty destination is never
    taken. *)
Lemma Sync_destination_scan_failure (H : Hashers) (P : PathLib) (e : SyncEngine)
    (env : SyncEnv) (source destination : string) (opts : SyncOptions)
    (sourceFiles : list FileInfo) (sc sc' : FileScanner) (err : error) :
  ctx_Err (dst_scan env) = Canceled \/ ctx_Err (dst_scan env) = DeadlineExceeded ->
  Scan H (scanner e) (src_scan env) source = (inl sourceFiles, sc) ->
  Scan H sc (dst_scan env) destination = (inr err, sc') ->
  exists e',
    Sync H P e env source destination opts
    = Some (e', Some (Errorf_w "failed to scan destination directory: " err)) /\
    calls e' = [].
Proof.
  intros Hctx Hsrc Hdst. unfold Sync. simpl scanner. rewrite Hsrc. simpl.
  rewrite Hdst. rewrite (Scan_error_not_IsNotExist H sc sc' _ _ err Hctx Hdst).
  simpl. eexists. split; reflexivity.
Qed.

(** *** The run of [Sync] is one of the interleavings *)

Lemma apply_action_stats (a : Action) (e e' : SyncEngine) :
  apply_action a e = Some e' ->
  stats e' = apply_stats a (stats e) /\
  resolver e' = resolver e /\ retryManager e' = retryManager e.
Proof.
  destruct a; simpl; try (intros [= <-]; repeat split; reflexivity).
  destruct (AddError (errorHandler e) err); [|discriminate].
  intros [= <-]. repeat split; reflexivity.
Qed.

Lemma run_actions_reachable (acts : list Action) :
  forall (e e' : SyncEngine) (pool : Pool) (i : nat),
    pool !! i = Some acts ->
    run_actions acts e = Some e' ->
    reachable (stats e, pool) (stats e', <[i := []]> pool) /\
    resolver e' = resolver e /\ retryManager e' = retryManager e.
Proof.
  induction acts as [|a rest IH]; intros e e' pool i Hi Hrun.
  - injection Hrun as <-. rewrite list_insert_id by exact Hi.
    split; [apply rtc_refl|split; reflexivity].
  - simpl in Hrun. destruct (apply_action a e) as [e1|] eqn:Ha; [|discriminate].
    destruct (apply_action_stats a e e1 Ha) as (Hs & Hr & Hm).
    assert (<[i := rest]> pool !! i = Some rest) as Hi'.
    { apply list_lookup_insert_eq. eapply lookup_lt_Some. exact Hi. }
    destruct (IH e1 e' (<[i := rest]> pool) i Hi' Hrun) as (Hreach & Hr' & Hm').
    rewrite list_insert_insert_eq in Hreach.
    split; [|split; congruence].
    eapply rtc_l; [|exact Hreach].
    rewrite Hs. apply step_worker. exact Hi.
Qed.

Lemma dispatch_reachable (P : PathLib) (env : SyncEnv) (source destination : string)
    (destMap : gmap string FileInfo) (opts : SyncOptions) :
  forall (rest : list FileInfo) (i : nat) (e e' : SyncEngine) (err : option error)
         (pool : Pool),
    (forall j f, rest !! j = Some f ->
       pool !! (i + j)%nat =
       Some (worker P (resolver e) (retryManager e) (file_env env (i + j)%nat)
               source destination f destMap opts)) ->
    dispatch P env source destination destMap opts rest i e = Some (e', err) ->
    exists pool', reachable (stats e, pool) (stats e', pool').
Proof.
  induction rest as [|f rest IH]; intros i e e' err pool Hpool Hd.
  - injection Hd as <- _. exists pool. apply rtc_refl.
  - simpl in Hd. destruct (dispatch_done env i).
    { injection Hd as <- _. exists pool. apply rtc_refl. }
    destruct (run_actions _ e) as [e1|] eqn:Hrun; [|discriminate].
    pose proof (Hpool 0%nat f eq_refl) as H0. rewrite Nat.add_0_r in H0.
    destruct (run_actions_reachable _ e e1 pool i H0 Hrun) as (Hreach & Hr & Hm).
    destruct (IH (S i) e1 e' err (<[i := []]> pool)) as [pool' Hrest].
    + intros j f' Hj. rewrite list_lookup_insert_ne by lia.
      rewrite Hr, Hm. replace (S i + j)%nat with (i + S j)%nat by lia.
      apply Hpool. exact Hj.
    + exact Hd.
    + exists pool'. eapply rtc_trans; eassumption.
Qed.

(** The workers run one after the other, as [dispatch] runs them, is one
    way of interleaving them. *)
Lemma dispatch_is_an_interleaving (P : PathLib) (env : SyncEnv)
    (source destination : string) (destMap : gmap string FileInfo) (opts : SyncOptions)
    (sourceFiles : list FileInfo) (e e' : SyncEngine) (err : option error) :
  dispatch P env source destination destMap opts sourceFiles 0 e = Some (e', err) ->
  exists pool',
    reachable
      (stats e,
       workers P (resolver e) (retryManager e) (file_env env) source destination
         destMap opts sourceFiles)
      (stats e', pool').
Proof.
  apply dispatch_reachable. intros j f Hj. simpl.
  unfold workers. rewrite list_lookup_imap, Hj. reflexivity.
Qed.

(** C2, the counterexample: in a dry run over one new file, the worker's
    only step counts the file as created and nothing counts it as changed;
    the state reached, which is also the one [Sync] ends in, breaks the
    inequality [created + modified <= changed] of the specification. *)
Lemma dry_run_breaks_specified_order :
  reachable
    (start_stats [mkFileInfo "/src/a.txt" 5 2000 420 false "" ""],
     workers SlashPaths.lib (NewConflictResolver None) (NewRetryManager None)
       (fun _ => Examples.quiet) "/src" "/dst" ∅ Examples.dry_run_options
       [mkFileInfo "/src/a.txt" 5 2000 420 false "" ""])
    (mkSyncStats 1 0 1 0 0 0 0 0 0, [[]]) /\
  ~ counters_as_specified (mkSyncStats 1 0 1 0 0 0 0 0 0) /\
  (forall H : Hashers,
      option_map (fun r => (stats (fst r), snd r))
        (Sync H SlashPaths.lib (NewSyncEngine 4) Examples.one_file_env
           "/src" "/dst" Examples.dry_run_options)
      = Some (mkSyncStats 2 0 1 0 0 0 0 0 0, None)) /\
  ~ counters_as_specified (mkSyncStats 2 0 1 0 0 0 0 0 0).
Proof.
  split; [|split; [|split]].
  - unfold reachable. apply rtc_once.
    exact (step_worker (mkSyncStats 1 0 0 0 0 0 0 0 0) [[AddFilesCreated]] 0%nat
             AddFilesCreated [] eq_refl).
  - unfold counters_as_specified. simpl. lia.
  - intros H. vm_compute. reflexivity.
  - unfold counters_as_specified. simpl. lia.
Qed.

(** *** The order of the counters under every interleaving *)

Lemma pending_app (l1 l2 : list Action) :
  pending (l1 ++ l2) = (pending l1 + pending l2)%nat.
Proof.
  induction l1 as [|a l1 IH]; [reflexivity|].
  destruct a; simpl; rewrite IH; reflexivity.
Qed.

Lemma debt_neutral_app (l1 l2 : list Action) :
  forallb neutral l1 = true -> debt (l1 ++ l2) = debt l2.
Proof.
  induction l1 as [|a l1 IH]; [reflexivity|].
  simpl. intros Hn. apply andb_prop in Hn as [Ha Hl].
  destruct a; simpl in *; try discriminate; apply IH; exact Hl.
Qed.

Lemma debt_app_neutral (l1 l2 : list Action) :
  forallb neutral l2 = true -> debt (l1 ++ l2) = debt l1.
Proof.
  intros Hn. induction l1 as [|a l1 IH].
  - simpl. rewrite <- (app_nil_r l2). rewrite debt_neutral_app by exact Hn. reflexivity.
  - destruct a; simpl; rewrite IH; reflexivity.
Qed.

Lemma pending_neutral (l : list Action) :
  forallb neutral l = true -> pending l = 0%nat.
Proof.
  induction l as [|a l IH]; [reflexivity|].
  simpl. intros Hn. apply andb_prop in Hn as [Ha Hl].
  destruct a; simpl in *; try discriminate; apply IH; exact Hl.
Qed.

Lemma neutral_copies (c : Call) (n : nat) :
  forallb neutral (repeat (Invoke c) n) = true.
Proof. induction n as [|n IH]; [reflexivity|exact IH]. Qed.

Lemma in_order_prepend (l : list Action) (r : list Action * option error) :
  forallb neutral l = true -> in_order (fst r) -> in_order (fst (prepend l r)).
Proof.
  intros Hn [Hd Hp]. unfold in_order, prepend. simpl.
  rewrite debt_neutral_app, pending_app, (pending_neutral l) by exact Hn.
  split; [exact Hd|exact Hp].
Qed.

Lemma copy_step_in_order (rm : RetryManager) (fe : FileEnv) (sourceFile : FileInfo)
    (destPath : string) (exists_ : bool) :
  in_order (fst (copy_step rm fe sourceFile destPath exists_)).
Proof.
  unfold copy_step.
  destruct (ExecuteWithRetry rm (attempts fe) (retry_wait fe)) as [n [copyErr|]];
    unfold in_order; simpl fst;
    rewrite debt_neutral_app, pending_app, pending_neutral
      by apply neutral_copies.
  - simpl. split; lia.
  - destruct exists_; simpl; split; lia.
Qed.

Lemma sync_step_in_order (rm : RetryManager) (fe : FileEnv) (sourceFile : FileInfo)
    (destPath : string) (exists_ : bool) (opts : SyncOptions) :
  in_order (fst (sync_step rm fe sourceFile destPath exists_ opts)).
Proof.
  unfold sync_step.
  destruct (DryRun opts).
  { destruct exists_; unfold in_order; simpl; split; lia. }
  destruct (IsDir sourceFile).
  { destruct (mkdirAll fe); unfold in_order; simpl; split; lia. }
  apply copy_step_in_order.
Qed.

Lemma syncFile_in_order (P : PathLib) (cr : ConflictResolver) (rm : RetryManager)
    (fe : FileEnv) (source destination : string) (sourceFile : FileInfo)
    (destMap : gmap string FileInfo) (opts : SyncOptions) :
  in_order (fst (syncFile P cr rm fe source destination sourceFile destMap opts)).
Proof.
  assert (in_order []) as Hnil by (unfold in_order; simpl; split; lia).
  unfold syncFile.
  destruct (Rel P source (Path sourceFile)) as [relPath|err]; [|exact Hnil].
  destruct (destMap !! relPath) as [destFile|]; [|apply sync_step_in_order].
  destruct (needsSync sourceFile destFile opts); [|exact Hnil].
  destruct (DetectConflict sourceFile destFile) as [conflict|];
    [|apply sync_step_in_order].
  apply in_order_prepend; [reflexivity|].
  destruct (ResolveConflict cr (ask fe) conflict) as [resolution [err|]].
  { destruct resolution; exact Hnil. }
  destruct resolution; try exact Hnil.
  - apply in_order_prepend; [reflexivity|apply sync_step_in_order].
  - apply in_order_prepend; [reflexivity|].
    destruct (CreateBackup cr (backup_mkdirAll fe) (backup_copyFile fe));
      [exact Hnil|].
    apply in_order_prepend; [reflexivity|apply sync_step_in_order].
  - apply sync_step_in_order.
Qed.

Lemma worker_in_order (P : PathLib) (cr : ConflictResolver) (rm : RetryManager)
    (fe : FileEnv) (source destination : string) (file : FileInfo)
    (destMap : gmap string FileInfo) (opts : SyncOptions) :
  in_order (worker P cr rm fe source destination file destMap opts).
Proof.
  pose proof (syncFile_in_order P cr rm fe source destination file destMap opts) as Ho.
  unfold worker.
  destruct (syncFile P cr rm fe source destination file destMap opts) as [acts [err|]];
    [|exact Ho].
  destruct Ho as [Hd Hp]. simpl in Hd, Hp. unfold in_order.
  rewrite debt_app_neutral by reflexivity. rewrite pending_app. simpl.
  split; [exact Hd|lia].
Qed.

Lemma pool_sum_insert (f : list Action -> nat) (pool : Pool) (i : nat)
    (old new : list Action) :
  pool !! i = Some old ->
  (pool_sum f (<[i := new]> pool) + f old = pool_sum f pool + f new)%nat.
Proof.
  revert i. induction pool as [|acts pool IH]; intros i Hi; [discriminate|].
  destruct i as [|i]; simpl in *.
  - injection Hi as ->. lia.
  - rewrite <- !Nat.add_assoc. f_equal. exact (IH i Hi).
Qed.

Lemma workers_in_order (P : PathLib) (cr : ConflictResolver) (rm : RetryManager)
    (source destination : string) (destMap : gmap string FileInfo) (opts : SyncOptions)
    (sourceFiles : list FileInfo) :
  forall file_env : nat -> FileEnv,
    pool_sum debt (workers P cr rm file_env source destination destMap opts sourceFiles)
      = 0%nat /\
    (pool_sum pending (workers P cr rm file_env source destination destMap opts sourceFiles)
       <= length sourceFiles)%nat.
Proof.
  unfold workers. induction sourceFiles as [|file rest IH]; intros file_env.
  - simpl. split; lia.
  - simpl imap. simpl pool_sum.
    destruct (worker_in_order P cr rm (file_env 0%nat) source destination file destMap opts)
      as [Hd Hp].
    destruct (IH (file_env ∘ S)) as [IHd IHp].
    unfold compose in *. rewrite Hd. simpl length. split; [exact IHd|lia].
Qed.

Lemma step_ordered_with (st st' : SyncStats * Pool) :
  step st st' -> ordered_with (fst st) (snd st) -> ordered_with (fst st') (snd st').
Proof.
  intros Hstep. destruct Hstep as [s pool i a rest Hi]. simpl.
  unfold ordered_with. intros (Hc & Hcr & Hmo & Hdebt & Hpend & Hmax).
  pose proof (pool_sum_insert debt pool i (a :: rest) rest Hi) as Ed.
  pose proof (pool_sum_insert pending pool i (a :: rest) rest Hi) as Ep.
  unfold max_int64 in *.
  destruct a; simpl in *;
    try rewrite add64_small by (unfold in_int64, min_int64, max_int64; lia);
    repeat split; lia.
Qed.

(** C2, as amended: at every point of a run, under every interleaving of
    the workers, in dry-run mode or not, directories or not, the counters
    satisfy [changed <= created + modified <= scanned].  (A slice has at
    most [max_int64] entries.) *)
Theorem counters_ordered_at_every_point
    (P : PathLib) (cr : ConflictResolver) (rm : RetryManager)
    (file_env : nat -> FileEnv) (source destination : string)
    (destMap : gmap string FileInfo) (opts : SyncOptions)
    (sourceFiles : list FileInfo) (s : SyncStats) (pool : Pool) :
  Z.of_nat (length sourceFiles) <= max_int64 ->
  reachable
    (start_stats sourceFiles,
     workers P cr rm file_env source destination destMap opts sourceFiles)
    (s, pool) ->
  counters_ordered s.
Proof.
  intros Hlen Hreach.
  assert (ordered_with s pool) as (Hc & Hcr & Hmo & Hdebt & Hpend & Hmax).
  { change (ordered_with (fst (s, pool)) (snd (s, pool))).
    revert Hreach. unfold reachable.
    apply (rtc_ind_r (fun st => ordered_with (fst st) (snd st))).
    - destruct (workers_in_order P cr rm source destination destMap opts
                  sourceFiles file_env) as [Hd Hp].
      unfold ordered_with. simpl. rewrite Hd. simpl. lia.
    - intros st1 st2 _ Hstep IH. eapply step_ordered_with; eassumption. }
  unfold counters_ordered. lia.
Qed.

(** The witness of C2: one new file, its worker having counted it as
    created and not yet as changed. *)
Lemma counters_ordered_at_every_point_witness :
  counters_ordered (mkSyncStats 1 0 1 0 0 5 0 0 0).
Proof.
  apply (counters_ordered_at_every_point SlashPaths.lib (NewConflictResolver None)
           (NewRetryManager None) (fun _ => Examples.quiet) "/src" "/dst" ∅
           mirror_options [mkFileInfo "/src/a.txt" 5 2000 420 false "" ""]
           (mkSyncStats 1 0 1 0 0 5 0 0 0) [[AddFilesChanged]]).
  - unfold max_int64. simpl. lia.
  - unfold reachable.
    apply (rtc_l _ _ (mkSyncStats 1 0 0 0 0 0 0 0 0,
                      [[AddBytesTransferred 5; AddFilesCreated; AddFilesChanged]]));
      [exact (step_worker (mkSyncStats 1 0 0 0 0 0 0 0 0)
                [[Invoke (CallCopyFile "/src/a.txt" "/dst/a.txt");
                  AddBytesTransferred 5; AddFilesCreated; AddFilesChanged]] 0%nat
                (Invoke (CallCopyFile "/src/a.txt" "/dst/a.txt"))
                [AddBytesTransferred 5; AddFilesCreated; AddFilesChanged] eq_refl)|].
    apply (rtc_l _ _ (mkSyncStats 1 0 0 0 0 5 0 0 0, [[AddFilesCreated; AddFilesChanged]]));
      [exact (step_worker (mkSyncStats 1 0 0 0 0 0 0 0 0)
                [[AddBytesTransferred 5; AddFilesCreated; AddFilesChanged]] 0%nat
                (AddBytesTransferred 5) [AddFilesCreated; AddFilesChanged] eq_refl)|].
    apply rtc_once.
    exact (step_worker (mkSyncStats 1 0 0 0 0 5 0 0 0)
             [[AddFilesCreated; AddFilesChanged]] 0%nat AddFilesCreated
             [AddFilesChanged] eq_refl).
Defined.

(** *** A second mirror *)

(** C5, the counterexample: two trees on which a mirror succeeds and the
    same mirror, run again on the same engine, works again.  First, two
    empty directories, the source the newer one: each run resolves the
    conflict of the modification times for the source, calls [os.MkdirAll]
    and counts the directory as created.  Second, a file edited in place
    (same length, same second): the first run copies it, after which the
    two files are equal in contents, size and modification time; the second
    run reads the destination's digest from the scanner's cache, whose
    entry is still valid by size and second, finds it different from the
    source's, and copies the file again.  (The second part is run with
    the stand-in hash functions; any that tell the two contents apart give
    the same run.) *)
Lemma second_mirror_repeats_work :
  (forall H : Hashers,
      option_map (fun r => (World.report (fst r), World.report (snd r)))
        (World.mirror_twice H (NewSyncEngine 4) Examples.empty_dirs_fs "/src" "/dst")
      = Some ((mkSyncStats 1 0 1 0 0 0 1 1 0, [CallMkdirAll "/dst" 493], None),
              (mkSyncStats 1 0 1 0 0 0 1 1 0, [CallMkdirAll "/dst" 493], None))) /\
  option_map (fun r => (World.report (fst r), World.report (snd r)))
    (World.mirror_twice Examples.toy_hashers (NewSyncEngine 4)
       Examples.edited_file_fs "/src" "/dst")
  = Some ((mkSyncStats 2 1 0 1 0 5 1 1 0, [CallCopyFile "/src/a.txt" "/dst/a.txt"], None),
          (mkSyncStats 2 1 0 1 0 5 1 1 0, [CallCopyFile "/src/a.txt" "/dst/a.txt"], None)) /\
  option_map (fun r => (snd (fst r) !! "/src/a.txt", snd (fst r) !! "/dst/a.txt"))
    (World.mirror_twice Examples.toy_hashers (NewSyncEngine 4)
       Examples.edited_file_fs "/src" "/dst")
  = Some (Some (Copier.mkNode Examples.hello 420 2500000000 false),
          Some (Copier.mkNode Examples.hello 420 2500000000 false)).
Proof.
  split; [|split].
  - intros H. vm_compute. reflexivity.
  - vm_compute. reflexivity.
  - vm_compute. reflexivity.
Qed.


Lemma needsSync_mirrored_pair (src dst : FileInfo) (opts : SyncOptions) :
  MirrorSpec.mirrored_pair src dst -> needsSync src dst opts = false.
Proof.
  intros (Hs & Ht & Hc). unfold needsSync, GoTime.Equal.
  rewrite Hs, Ht, Hc, !Z.eqb_refl, String.eqb_refl. simpl.
  destruct (ChecksumVerify opts && negb (String.eqb (Checksum dst) "")
            && negb (String.eqb (Checksum dst) "")); reflexivity.
Qed.

Lemma worker_mirrored_pair (P : PathLib) (cr : ConflictResolver) (rm : RetryManager)
    (fe : FileEnv) (source destination rel : string) (file dest : FileInfo)
    (destMap : gmap string FileInfo) (opts : SyncOptions) :
  Rel P source (Path file) = inl rel ->
  destMap !! rel = Some dest ->
  MirrorSpec.mirrored_pair file dest ->
  worker P cr rm fe source destination file destMap opts = [].
Proof.
  intros HR HD Hm. unfold worker, syncFile.
  rewrite HR, HD, (needsSync_mirrored_pair file dest opts Hm). reflexivity.
Qed.

Lemma dispatch_mirrored (P : PathLib) (env : SyncEnv) (source destination : string)
    (destMap : gmap string FileInfo) (opts : SyncOptions) (e : SyncEngine) :
  forall (sourceFiles : list FileInfo) (i : nat),
    (forall f, f ∈ sourceFiles ->
       exists rel d, Rel P source (Path f) = inl rel /\ destMap !! rel = Some d /\
                     MirrorSpec.mirrored_pair f d) ->
    exists err,
      dispatch P env source destination destMap opts sourceFiles i e = Some (e, err) /\
      (dispatch_cancel_at env = None -> err = None).
Proof.
  induction sourceFiles as [|f rest IH]; intros i Hall.
  - exists None. split; reflexivity.
  - simpl dispatch. destruct (dispatch_done env i) eqn:Hdone.
    + eexists. split; [reflexivity|].
      intros Hc. unfold dispatch_done in Hdone. rewrite Hc in Hdone. discriminate.
    + destruct (Hall f) as (rel & d & HR & HD & Hm); [apply elem_of_cons; left; reflexivity|].
      rewrite (worker_mirrored_pair P _ _ _ source destination rel f d destMap opts HR HD Hm).
      simpl run_actions. apply IH.
      intros f' Hin. apply Hall, elem_of_cons. right. exact Hin.
Qed.

(** C5, as amended: a pair of scanned records with equal size, equal
    modification time and equal digest needs no synchronisation, whatever
    the options; and a mirror that finds such a record at the destination
    for every source entry, directories included, calls neither the copier
    nor anything else on the destination tree, leaves every counter but
    [FilesScanned] at zero, records no error, and succeeds unless the
    context is cancelled. *)
Theorem second_mirror_copies_nothing
    (H : Hashers) (P : PathLib) (e : SyncEngine) (env : SyncEnv)
    (source destination : string) (sourceFiles destFiles : list FileInfo)
    (sc1 sc2 : FileScanner) :
  Scan H (scanner e) (src_scan env) source = (inl sourceFiles, sc1) ->
  Scan H sc1 (dst_scan env) destination = (inl destFiles, sc2) ->
  (forall f, f ∈ sourceFiles ->
     exists rel d, Rel P source (Path f) = inl rel /\
                   build_destMap P destination destFiles !! rel = Some d /\
                   MirrorSpec.mirrored_pair f d) ->
  (forall src dst opts, MirrorSpec.mirrored_pair src dst -> needsSync src dst opts = false) /\
  exists e' err,
    Mirror H P e env source destination = Some (e', err) /\
    (dispatch_cancel_at env = None -> err = None) /\
    stats e' = mkSyncStats (Z.of_nat (length sourceFiles)) 0 0 0 0 0 0 0 0 /\
    calls e' = [] /\
    errorHandler e' = errorHandler e.
Proof.
  intros Hsrc Hdst Hall. split; [exact needsSync_mirrored_pair|].
  unfold Mirror, Sync. simpl scanner. rewrite Hsrc. simpl scanner. rewrite Hdst.
  match goal with
  | |- context [dispatch P env source destination ?m ?o sourceFiles 0%nat ?e0] =>
      destruct (dispatch_mirrored P env source destination m o e0 sourceFiles 0%nat Hall)
        as (err & Hd & Herr)
  end.
  eexists _, err. split; [exact Hd|]. split; [exact Herr|].
  split; [reflexivity|]. split; reflexivity.
Qed.

(** The witness of C5: a directory with one file, mirrored already. *)
Lemma second_mirror_copies_nothing_witness :
  exists e',
    Mirror Examples.toy_hashers SlashPaths.lib (NewSyncEngine 4) Examples.mirrored_env
      "/src" "/dst" = Some (e', None) /\
    stats e' = mkSyncStats 2 0 0 0 0 0 0 0 0 /\
    calls e' = [].
Proof.
  destruct (second_mirror_copies_nothing Examples.toy_hashers SlashPaths.lib
              (NewSyncEngine 4) Examples.mirrored_env "/src" "/dst"
              [mkFileInfo "/src" 4096 1000 493 true "" "";
               mkFileInfo "/src/a.txt" 5 2000 420 false "0068656c6c6f" "blake3"]
              [mkFileInfo "/dst" 4096 1000 493 true "" "";
               mkFileInfo "/dst/a.txt" 5 2000 420 false "0068656c6c6f" "blake3"]
              (snd (Scan Examples.toy_hashers (scanner (NewSyncEngine 4))
                      (src_scan Examples.mirrored_env) "/src"))
              (snd (Scan Examples.toy_hashers
                      (snd (Scan Examples.toy_hashers (scanner (NewSyncEngine 4))
                              (src_scan Examples.mirrored_env) "/src"))
                      (dst_scan Examples.mirrored_env) "/dst")))
    as (_ & e' & err & Hrun & Herr & Hstats & Hcalls & _).
  - vm_compute. reflexivity.
  - vm_compute. reflexivity.
  - intros f Hin.
    apply elem_of_cons in Hin as [->|Hin];
      [exists ".", (mkFileInfo "/dst" 4096 1000 493 true "" "");
       repeat split; vm_compute; reflexivity|].
    apply elem_of_cons in Hin as [->|Hin];
      [exists "a.txt", (mkFileInfo "/dst/a.txt" 5 2000 420 false "0068656c6c6f" "blake3");
       repeat split; vm_compute; reflexivity|].
    apply elem_of_nil in Hin. contradiction.
  - exists e'. rewrite (Herr eq_refl) in Hrun. split; [exact Hrun|].
    split; [exact Hstats|exact Hcalls].
Defined.

End EngineProperties.

(** * Further properties of the code *)
Import RetryDelay.

Section SubstringSearch.

Lemma append_cons (c : ascii) (s t : string) : String c s +:+ t = String c (s +:+ t).
Proof. reflexivity. Qed.

Lemma append_empty_l (t : string) : "" +:+ t = t.
Proof. reflexivity. Qed.

Lemma len_app (s t : string) : len (s +:+ t) = (len s + len t)%nat.
Proof.
  unfold len. induction s as [|c s IH]; [reflexivity|].
  rewrite append_cons. simpl. by rewrite IH.
Qed.

Lemma append_empty_r (s : string) : s +:+ "" = s.
Proof. induction s as [|c s IH]; [reflexivity | by rewrite append_cons, IH]. Qed.

Lemma len_0 (s : string) : len s = 0%nat -> s = "".
Proof. by destruct s. Qed.

Lemma substring_prefix (sub post : string) :
  String.substring 0 (len sub) (sub +:+ post) = sub.
Proof.
  induction sub as [|c sub IH].
  - rewrite append_empty_l. by destruct post.
  - rewrite append_cons. simpl. by rewrite IH.
Qed.

Lemma substring_skip (pre s : string) (m : nat) :
  String.substring (len pre) m (pre +:+ s) = String.substring 0 m s.
Proof. induction pre as [|c pre IH]; [reflexivity | rewrite append_cons; exact IH]. Qed.

Lemma substring_0_found (sub s : string) :
  String.substring 0 (len sub) s = sub -> exists post, s = sub +:+ post.
Proof.
  revert s. induction sub as [|c sub IH]; intros s H.
  - by exists s.
  - destruct s as [|c' s]; simpl in H; [discriminate|].
    injection H as -> H. destruct (IH s H) as [post ->]. by exists post.
Qed.

Lemma substring_found (j : nat) (s sub : string) :
  (j <= len s)%nat -> String.substring j (len sub) s = sub ->
  exists pre post, s = pre +:+ sub +:+ post /\ len pre = j.
Proof.
  revert s. induction j as [|j IH]; intros s Hj H.
  - destruct (substring_0_found sub s H) as [post ->]. by exists "", post.
  - destruct s as [|c s]; unfold len in Hj; simpl in Hj; [lia|]. simpl in H.
    destruct (IH s ltac:(unfold len; lia) H) as (pre & post & -> & Hl).
    exists (String c pre), post. split; [reflexivity|]. unfold len in *. simpl. lia.
Qed.

Lemma indexContains_from_true (str substr : string) (i n : nat) :
  indexContains_from str substr i n = true <->
  exists j, (i <= j < i + n)%nat /\ String.substring j (len substr) str = substr.
Proof.
  revert i. induction n as [|n IH]; intros i; simpl.
  - split; [discriminate | intros (j & Hj & _); lia].
  - destruct (String.eqb_spec (String.substring i (len substr) str) substr) as [E|E].
    + split; [intros _; exists i; split; [lia | exact E] | reflexivity].
    + rewrite IH. split; intros (j & Hj & H).
      * exists j. split; [lia | exact H].
      * exists j. split; [|exact H]. destruct (decide (j = i)) as [->|]; [done | lia].
Qed.

(** X1: [contains str substr] is [true] exactly when [substr] occurs in
    [str], that is when [str] is some prefix, then [substr], then some
    suffix; in particular the empty string occurs in every string. *)
Theorem contains_iff_occurs (str substr : string) :
  contains str substr = true <->
  exists pre post, str = pre +:+ substr +:+ post.
Proof.
  unfold contains. split.
  - intros H. apply andb_true_iff in H as [Hle H]. apply Nat.leb_le in Hle.
    apply orb_true_iff in H as [H|H].
    + apply String.eqb_eq in H as ->. exists "", "". simpl. by rewrite append_empty_r.
    + apply andb_true_iff in H as [_ H].
      assert (exists j, (j <= len str)%nat /\
                String.substring j (len substr) str = substr) as (j & Hj & E).
      { apply orb_true_iff in H as [H|H]; [apply orb_true_iff in H as [H|H]|].
        - exists 0%nat. split; [lia | by apply String.eqb_eq].
        - exists (len str - len substr)%nat. split; [lia | by apply String.eqb_eq].
        - unfold indexContains in H.
          destruct (len str <? len substr)%nat; [discriminate|].
          apply indexContains_from_true in H as (j & Hj & E).
          exists j. split; [lia | exact E]. }
      destruct (substring_found j str substr Hj E) as (pre & post & -> & _).
      by exists pre, post.
  - intros (pre & post & ->).
    assert (Hlen : len (pre +:+ substr +:+ post) = (len pre + (len substr + len post))%nat)
      by (rewrite !len_app; reflexivity).
    apply andb_true_iff. split; [apply Nat.leb_le; lia|].
    destruct (String.eqb_spec (pre +:+ substr +:+ post) substr) as [E|E]; [reflexivity|].
    simpl. assert (Hlt : (len substr < len (pre +:+ substr +:+ post))%nat).
    { destruct (decide (len pre + len post = 0)%nat) as [Hz|Hz]; [|lia].
      exfalso. apply E.
      rewrite (len_0 pre), (len_0 post) by lia. simpl. apply append_empty_r. }
    apply andb_true_iff. split; [by apply Nat.ltb_lt|].
    apply orb_true_iff. right. unfold indexContains.
    destruct (Nat.ltb_spec (len (pre +:+ substr +:+ post)) (len substr)) as [?|_]; [lia|].
    apply indexContains_from_true. exists (len pre). split; [lia|].
    rewrite substring_skip. apply substring_prefix.
Qed.

End SubstringSearch.

Section RetryProperties.

Variable rm : RetryManager.
Variables operation wait : nat -> option error.

Local Abbreviation budget := (MaxAttempts (config rm)).

Lemma retried_stop (err : error) (attempt : Z) :
  match errors_As_Retryable err with
  | Some (_, retryable, fatal) =>
      if fatal then
        Some (Errorf_w ("fatal error on attempt " +:+ pretty attempt +:+ ": ") err)
      else if negb retryable then
        Some (Errorf_w ("non-retryable error on attempt " +:+ pretty attempt +:+ ": ") err)
      else None
  | None => None
  end = None <-> retried err = true.
Proof.
  unfold retried. destruct (errors_As_Retryable err) as [[[e r] f]|]; [|done].
  destruct f, r; simpl; split; congruence.
Qed.

Lemma retry_loop_retried (n k : nat) (lastErr : option error) (err : error) :
  operation k = Some err -> retried err = true ->
  retry_loop rm operation wait (S n) k lastErr =
  if Z.of_nat k =? budget then (k, Some (failed_after rm (Some err)))
  else match wait k with
       | Some cerr =>
           (k, Some (Errorf_w ("operation cancelled after " +:+ pretty (Z.of_nat k) +:+
                               " attempts: ") cerr))
       | None => retry_loop rm operation wait n (S k) (Some err)
       end.
Proof.
  intros Hop Hr. simpl. rewrite Hop.
  apply (retried_stop err (Z.of_nat k)) in Hr. by rewrite Hr.
Qed.

Lemma retry_loop_calls (n k : nat) (lastErr : option error) :
  (Nat.pred k <= fst (retry_loop rm operation wait n k lastErr) <= Nat.pred k + n)%nat.
Proof.
  revert k lastErr. induction n as [|n IH]; intros k lastErr; simpl; [lia|].
  destruct (operation k) as [err|]; simpl; [|lia].
  destruct (errors_As_Retryable err) as [[[e r] f]|].
  - destruct f; simpl; [lia|]. destruct r; simpl; [|lia].
    destruct (Z.of_nat k =? budget); simpl; [lia|].
    destruct (wait k); simpl; [lia|]. specialize (IH (S k) (Some err)). simpl in IH. lia.
  - destruct (Z.of_nat k =? budget); simpl; [lia|].
    destruct (wait k); simpl; [lia|]. specialize (IH (S k) (Some err)). simpl in IH. lia.
Qed.

Lemma retry_loop_calls_pos (n k : nat) (lastErr : option error) :
  (k <= fst (retry_loop rm operation wait (S n) k lastErr))%nat.
Proof.
  pose proof (retry_loop_calls n (S k)) as IH. simpl in *.
  destruct (operation k) as [err|]; simpl; [|lia].
  destruct (errors_As_Retryable err) as [[[e r] f]|].
  - destruct f; simpl; [lia|]. destruct r; simpl; [|lia].
    destruct (Z.of_nat k =? budget); simpl; [lia|].
    destruct (wait k); simpl; [lia|]. apply IH.
  - destruct (Z.of_nat k =? budget); simpl; [lia|].
    destruct (wait k); simpl; [lia|]. apply IH.
Qed.

(** X2: [ExecuteWithRetry] never calls the operation more often than
    [MaxAttempts] says, whatever the operation and the context do. *)
Theorem ExecuteWithRetry_call_budget :
  (fst (ExecuteWithRetry rm operation wait) <= Z.to_nat budget)%nat.
Proof.
  unfold ExecuteWithRetry.
  pose proof (retry_loop_calls (Z.to_nat budget) 1 None) as H. simpl in H. lia.
Qed.

(** X3: with [MaxAttempts] zero or negative the operation is not called at
    all, and still an error is returned: the one of an exhausted budget,
    built from a nil last error. *)
Theorem ExecuteWithRetry_no_attempts :
  budget <= 0 ->
  ExecuteWithRetry rm operation wait =
  (0%nat, Some (Errorf_w_nil ("operation failed after " +:+ pretty budget +:+
                              " attempts, last error: "))).
Proof.
  intros H. unfold ExecuteWithRetry.
  replace (Z.to_nat budget) with 0%nat by lia. reflexivity.
Qed.

Local Abbreviation retried_between := (RetryDelay.retried_between operation wait).

Lemma retry_loop_success (n k c : nat) (lastErr : option error) :
  n = 0%nat \/ Z.of_nat k + Z.of_nat n = budget + 1 ->
  retry_loop rm operation wait n k lastErr = (c, None) <->
  (k <= c < k + n)%nat /\ operation c = None /\ retried_between k c.
Proof.
  revert k lastErr. induction n as [|n IH]; intros k lastErr Hinv.
  - simpl. split; [discriminate | intros [? _]; lia].
  - destruct Hinv as [|Hinv]; [discriminate|].
    destruct (operation k) as [err|] eqn:Hop.
    + destruct (retried err) eqn:Hr.
      * rewrite (retry_loop_retried n k lastErr err Hop Hr).
        destruct (Z.eqb_spec (Z.of_nat k) budget) as [E|E].
        { split; [discriminate|]. intros (Hc & Hc' & _).
          assert (c = k) as -> by lia. congruence. }
        destruct (wait k) as [cerr|] eqn:Hw.
        { split; [discriminate|]. intros (Hc & Hc' & Hb).
          destruct (decide (c = k)) as [->|]; [congruence|].
          destruct (Hb k ltac:(lia)) as (? & _ & _ & ?). congruence. }
        rewrite IH by (right; lia). split.
        -- intros (Hc & Hc' & Hb). split; [lia|]. split; [exact Hc'|].
           intros j Hj. destruct (decide (j = k)) as [->|]; [by exists err|].
           apply Hb. lia.
        -- intros (Hc & Hc' & Hb).
           assert (c <> k) by congruence.
           split; [lia|]. split; [exact Hc'|]. intros j Hj. apply Hb. lia.
      * assert (retry_loop rm operation wait (S n) k lastErr <> (c, None)) as Hne.
        { simpl. rewrite Hop.
          unfold retried in Hr. destruct (errors_As_Retryable err) as [[[e r] f]|];
            [|discriminate]. destruct f; [discriminate|]. destruct r; discriminate. }
        split; [done|]. intros (Hc & Hc' & Hb).
        destruct (decide (c = k)) as [->|]; [congruence|].
        destruct (Hb k ltac:(lia)) as (? & ? & ? & _). congruence.
    + simpl. rewrite Hop. split.
      * intros [= <-]. split; [lia|]. split; [exact Hop|]. intros j Hj. lia.
      * intros (Hc & _ & Hb). destruct (decide (c = k)) as [->|]; [reflexivity|].
        destruct (Hb k ltac:(lia)) as (? & ? & _). congruence.
Qed.

(** X4: [ExecuteWithRetry] returns nil after [n] calls exactly when the
    [n]-th call is within the budget and succeeds, every earlier call
    failed with an error that is not marked fatal or non-retryable, and the
    context was not done during any of the waits in between. *)
Theorem ExecuteWithRetry_success_iff (n : nat) :
  ExecuteWithRetry rm operation wait = (n, None) <->
  (1 <= n)%nat /\ Z.of_nat n <= budget /\ operation n = None /\ retried_between 1 n.
Proof.
  unfold ExecuteWithRetry. rewrite retry_loop_success by lia. split.
  - intros (Hn & Hop & Hb). repeat split; [lia | lia | exact Hop | exact Hb].
  - intros (Hn & Hm & Hop & Hb). repeat split; [lia | lia | exact Hop | exact Hb].
Qed.

Lemma retry_loop_failure (n k c : nat) (lastErr : option error) (e : error) :
  retry_loop rm operation wait n k lastErr = (c, Some e) ->
  (forall l, lastErr = Some l -> operation (Nat.pred k) = Some l) ->
  (exists cause, Unwrap e = Some cause /\
                 (operation c = Some cause \/ wait c = Some cause)) \/
  (n = 0%nat /\ lastErr = None).
Proof.
  revert k lastErr. induction n as [|n IH]; intros k lastErr H Hlast.
  - simpl in H. injection H as <- <-. destruct lastErr as [l|]; [|by right].
    left. exists l. split; [reflexivity|]. left. by apply Hlast.
  - simpl in H. destruct (operation k) as [err|] eqn:Hop; [|discriminate].
    assert (forall p, (exists cause, Unwrap (Errorf_w p err) = Some cause /\
              (operation k = Some cause \/ wait k = Some cause))) as Hwrap.
    { intros p. exists err. split; [reflexivity | by left]. }
    assert ((if Z.of_nat k =? budget
             then (k, Some (failed_after rm (Some err)))
             else match wait k with
                  | Some cerr =>
                      (k, Some (Errorf_w ("operation cancelled after " +:+
                                          pretty (Z.of_nat k) +:+ " attempts: ") cerr))
                  | None => retry_loop rm operation wait n (S k) (Some err)
                  end) = (c, Some e) ->
            (exists cause, Unwrap e = Some cause /\
                 (operation c = Some cause \/ wait c = Some cause)) \/
            (S n = 0%nat /\ lastErr = None)) as Hgo.
    { intros H'. destruct (Z.of_nat k =? budget).
      - injection H' as <- <-. left. apply Hwrap.
      - destruct (wait k) as [cerr|] eqn:Hw.
        + injection H' as <- <-. left. exists cerr. split; [reflexivity | by right].
        + destruct (IH (S k) (Some err) H') as [?|[_ ?]]; [| by left | done].
          intros l [= <-]. exact Hop. }
    destruct (errors_As_Retryable err) as [[[e0 r] f]|]; [|by apply Hgo].
    destruct f; [injection H as <- <-; left; apply Hwrap|].
    destruct r; simpl in H; [by apply Hgo|].
    injection H as <- <-. left. apply Hwrap.
Qed.

(** X5: with a budget of at least one attempt, every error of
    [ExecuteWithRetry] wraps (its [Unwrap] is) the error of the last call
    made, or the context's error when a wait was cut short; and at least one
    call was made. *)
Theorem ExecuteWithRetry_failure_wraps_cause (n : nat) (e : error) :
  1 <= budget ->
  ExecuteWithRetry rm operation wait = (n, Some e) ->
  (1 <= n)%nat /\
  exists cause, Unwrap e = Some cause /\
                (operation n = Some cause \/ wait n = Some cause).
Proof.
  intros Hm H. split.
  - pose proof (retry_loop_calls_pos (Nat.pred (Z.to_nat budget)) 1 None) as Hc.
    unfold ExecuteWithRetry in H.
    replace (S (Nat.pred (Z.to_nat budget))) with (Z.to_nat budget) in Hc by lia.
    by rewrite H in Hc.
  - destruct (retry_loop_failure _ _ _ _ _ H) as [?|[? _]]; [done | done | lia].
Qed.

Lemma retry_loop_skip (m n k : nat) (lastErr : option error) :
  retried_between k (k + m) ->
  Z.of_nat (k + m) <= budget ->
  retry_loop rm operation wait (m + n) k lastErr =
  retry_loop rm operation wait n (k + m)
    (match m with O => lastErr | S _ => operation (Nat.pred (k + m)) end).
Proof.
  revert k lastErr. induction m as [|m IH]; intros k lastErr Hb Hm.
  - by rewrite Nat.add_0_r.
  - destruct (Hb k ltac:(lia)) as (err & Hop & Hr & Hw).
    change (S m + n)%nat with (S (m + n)).
    rewrite (retry_loop_retried _ _ _ err Hop Hr), Hw.
    destruct (Z.eqb_spec (Z.of_nat k) budget) as [?|_]; [lia|].
    rewrite IH.
    + replace (S k + m)%nat with (k + S m)%nat by lia.
      destruct m; [|reflexivity]. simpl.
      replace (Nat.pred (k + 1)) with k by lia. by rewrite Hop.
    + intros j Hj. apply Hb. lia.
    + lia.
Qed.

(** X6: the first error marked fatal or non-retryable ends the loop at
    once: when the calls before the [k]-th were retried and the [k]-th,
    within the budget, fails with such an error, [ExecuteWithRetry] makes
    exactly [k] calls and returns that error wrapped, without a wait. *)
Theorem ExecuteWithRetry_stops_at_marked_error (k : nat) (err inner : error)
    (retryable fatal : bool) :
  (1 <= k)%nat -> Z.of_nat k <= budget ->
  retried_between 1 k ->
  operation k = Some err ->
  errors_As_Retryable err = Some (inner, retryable, fatal) ->
  retryable && negb fatal = false ->
  ExecuteWithRetry rm operation wait =
  (k, Some (Errorf_w ((if fatal then "fatal error on attempt "
                       else "non-retryable error on attempt ") +:+
                      pretty (Z.of_nat k) +:+ ": ") err)).
Proof.
  intros Hk Hm Hb Hop Has Hmark. unfold ExecuteWithRetry.
  replace (Z.to_nat budget) with (Nat.pred k + S (Z.to_nat budget - k))%nat by lia.
  rewrite retry_loop_skip.
  - replace (1 + Nat.pred k)%nat with k by lia. simpl. rewrite Hop, Has.
    destruct fatal; [reflexivity|]. destruct retryable; [discriminate | reflexivity].
  - replace (1 + Nat.pred k)%nat with k by lia. exact Hb.
  - lia.
Qed.

(** X7: when each of the [MaxAttempts] calls fails with an error that is
    not marked fatal or non-retryable and no wait is cut short, the
    operation is called exactly [MaxAttempts] times and the error returned
    wraps the error of the last call. *)
Theorem ExecuteWithRetry_exhausts_budget (err : error) :
  1 <= budget ->
  retried_between 1 (Z.to_nat budget) ->
  operation (Z.to_nat budget) = Some err -> retried err = true ->
  ExecuteWithRetry rm operation wait =
  (Z.to_nat budget,
   Some (Errorf_w ("operation failed after " +:+ pretty budget +:+
                   " attempts, last error: ") err)).
Proof.
  intros Hm Hb Hop Hr. unfold ExecuteWithRetry.
  replace (Z.to_nat budget) with (Nat.pred (Z.to_nat budget) + 1)%nat at 1 by lia.
  rewrite retry_loop_skip.
  - replace (1 + Nat.pred (Z.to_nat budget))%nat with (Z.to_nat budget) by lia.
    rewrite (retry_loop_retried _ _ _ err Hop Hr).
    destruct (Z.eqb_spec (Z.of_nat (Z.to_nat budget)) budget) as [_|?]; [reflexivity | lia].
  - replace (1 + Nat.pred (Z.to_nat budget))%nat with (Z.to_nat budget) by lia. exact Hb.
  - lia.
Qed.

End RetryProperties.

Lemma ExecuteWithRetry_no_attempts_witness :
  ExecuteWithRetry MoreExamples.no_budget (MoreExamples.always (ErrnoError EIO))
    MoreExamples.never_done =
  (0%nat, Some (ErrorString "operation failed after 0 attempts, last error: %!w(<nil>)")).
Proof.
  apply (ExecuteWithRetry_no_attempts MoreExamples.no_budget
           (MoreExamples.always (ErrnoError EIO)) MoreExamples.never_done).
  simpl. lia.
Defined.

Lemma ExecuteWithRetry_failure_wraps_cause_witness :
  (1 <= 3)%nat /\
  exists cause,
    Unwrap (WrapError "operation failed after 3 attempts, last error: input/output error"
              (ErrnoError EIO)) = Some cause /\
    (MoreExamples.always (ErrnoError EIO) 3%nat = Some cause \/
     MoreExamples.never_done 3%nat = Some cause).
Proof.
  apply (ExecuteWithRetry_failure_wraps_cause MoreExamples.default_manager
           (MoreExamples.always (ErrnoError EIO)) MoreExamples.never_done).
  - simpl. lia.
  - reflexivity.
Defined.

Lemma ExecuteWithRetry_stops_at_marked_error_witness :
  ExecuteWithRetry MoreExamples.default_manager MoreExamples.reset_then_denied
    MoreExamples.never_done =
  (2%nat, Some (WrapError "non-retryable error on attempt 2: permission denied"
                  (RetryableError (ErrnoError EACCES) false false))).
Proof.
  apply (ExecuteWithRetry_stops_at_marked_error MoreExamples.default_manager
           MoreExamples.reset_then_denied MoreExamples.never_done 2
           (ClassifyError (ErrnoError EACCES)) (ErrnoError EACCES) false false).
  - lia.
  - simpl. lia.
  - intros j Hj. assert (j = 1%nat) as -> by lia.
    exists (ErrorString "connection reset"). repeat split.
  - reflexivity.
  - reflexivity.
  - reflexivity.
Defined.

Lemma ExecuteWithRetry_exhausts_budget_witness :
  ExecuteWithRetry MoreExamples.default_manager (MoreExamples.always (ErrnoError EACCES))
    MoreExamples.never_done =
  (3%nat, Some (WrapError "operation failed after 3 attempts, last error: permission denied"
                  (ErrnoError EACCES))).
Proof.
  apply (ExecuteWithRetry_exhausts_budget MoreExamples.default_manager
           (MoreExamples.always (ErrnoError EACCES)) MoreExamples.never_done
           (ErrnoError EACCES)).
  - simpl. lia.
  - intros j Hj. exists (ErrnoError EACCES). repeat split.
  - reflexivity.
  - reflexivity.
Defined.
Ltac in_list := repeat first [apply list_elem_of_here | apply list_elem_of_further].

Section ClassifierProperties.

(** X8: the error [ClassifySyncError] builds agrees with [ClassifyError]:
    it is recoverable exactly when [ClassifyError] marks the error
    retryable, its category is Cancellation exactly when [ClassifyError]
    marks the error fatal, and it keeps the error and its message. *)
Theorem ClassifySyncError_agrees_with_ClassifyError
    (now : Z) (operation path : string) (err : error) :
  Recoverable (ClassifySyncError now operation path err) =
    Retryable_of (ClassifyError err) /\
  (Category (ClassifySyncError now operation path err) = ErrorCategoryCancellation <->
   Fatal_of (ClassifyError err) = true) /\
  Underlying (ClassifySyncError now operation path err) = err /\
  Message (ClassifySyncError now operation path err) = Error err.
Proof.
  unfold ClassifySyncError, ClassifyError, NewRetryableError, NewFatalError.
  destruct (isNetworkError err), (isPermissionError err), (isDiskFullError err),
    (isContextError err), (isNotFoundError err), (isIOError err);
    simpl; repeat split; try reflexivity; intros; discriminate.
Qed.

End ClassifierProperties.

Section DelayProperties.
Import RetryDelay.

(** X9: unless the backoff is [fixed], the wait between two attempts is
    never longer than [MaxDelay], whatever the attempt, the initial delay
    and the result of the floating-point power; a linear delay that does
    not overflow is [InitialDelay * attempt] capped at [MaxDelay]. *)
Theorem calculateDelay_capped (rm : RetryManager) (scaled : Z -> Z) (attempt : Z) :
  Backoff (config rm) <> BackoffFixed ->
  calculateDelay rm scaled attempt <= MaxDelay (config rm) /\
  (Backoff (config rm) = BackoffLinear ->
   in_int64 (InitialDelay (config rm) * attempt) ->
   calculateDelay rm scaled attempt =
     Z.min (InitialDelay (config rm) * attempt) (MaxDelay (config rm))).
Proof.
  intros Hf. unfold calculateDelay.
  destruct (String.eqb_spec (Backoff (config rm)) BackoffFixed) as [?|_]; [done|].
  destruct (String.eqb_spec (Backoff (config rm)) BackoffLinear) as [El|El].
  - split.
    + destruct (Z.ltb_spec (MaxDelay (config rm))
                  (mul64 (InitialDelay (config rm)) attempt)); lia.
    + intros _ Hr. unfold mul64. rewrite wrap64_id by exact Hr.
      destruct (Z.ltb_spec (MaxDelay (config rm)) (InitialDelay (config rm) * attempt)); lia.
  - split; [|done].
    destruct (Z.ltb_spec (MaxDelay (config rm)) (scaled attempt)); lia.
Qed.

End DelayProperties.

Lemma calculateDelay_capped_witness :
  RetryDelay.calculateDelay MoreExamples.default_manager MoreExamples.doubled 10
    <= 10 * GoTime.Second.
Proof.
  apply (calculateDelay_capped MoreExamples.default_manager MoreExamples.doubled 10).
  discriminate.
Defined.

Section CollectorProperties.
Import ErrorsMore.

Lemma summary_fold_key (l : list SyncError) (m : gmap ErrorCategory Z) (c : ErrorCategory) :
  foldl (fun summary err => summary_incr summary (Category err)) m l !! c = None <->
  m !! c = None /\ filter (fun e => Category e = c) l = [].
Proof.
  revert m. induction l as [|e l IH]; intros m; simpl.
  - by split; [|intros [? _]].
  - rewrite IH. unfold summary_incr. rewrite filter_cons.
    destruct (decide (Category e = c)) as [->|Hne].
    + rewrite lookup_insert_eq. split; [intros [? _]; discriminate | intros [_ ?]; discriminate].
    + rewrite lookup_insert_ne by exact Hne. reflexivity.
Qed.

(** X10: [GetSummary] has a key for a category exactly when the collector
    holds an error of that category: a category without errors is absent
    from the map rather than mapped to zero. *)
Theorem GetSummary_key_iff (eh : ErrorHandler) (c : ErrorCategory) :
  GetSummary eh !! c = None <-> GetErrorsByCategory eh c = [].
Proof.
  unfold GetSummary, GetErrorsByCategory. rewrite summary_fold_key, lookup_empty.
  by split; [intros [_ ?] | intros ?].
Qed.

Lemma AddErrors_from (errs : list SyncError) (eh : ErrorHandler) :
  1 <= maxErrors eh ->
  Z.of_nat (length (errors eh)) <= maxErrors eh ->
  AddErrors eh errs =
  Some (mkErrorHandler
          (drop (length (errors eh ++ errs) - Z.to_nat (maxErrors eh)) (errors eh ++ errs))
          (maxErrors eh)).
Proof.
  revert eh. induction errs as [|err errs IH]; intros [l m] Hm Hl; simpl in *.
  - rewrite app_nil_r. replace (length l - Z.to_nat m)%nat with 0%nat by lia. reflexivity.
  - unfold AddError. simpl.
    destruct (Z.leb_spec m (Z.of_nat (length l))) as [Hfull|Hroom].
    + destruct l as [|x rest]; simpl in *; [lia|].
      rewrite IH by (simpl; rewrite ?length_app; simpl; lia). simpl.
      f_equal. f_equal.
      rewrite <- app_assoc. simpl.
      rewrite !length_app. simpl.
      replace (S (length rest + S (length errs)) - Z.to_nat m)%nat
        with (S (length rest + S (length errs) - Z.to_nat m))%nat by lia.
      reflexivity.
    + rewrite IH by (simpl; rewrite ?length_app; simpl; lia). simpl.
      by rewrite <- app_assoc.
Qed.

(** X11: after any number of [AddError] calls on a new collector, the
    collector holds exactly the last [maxErrors] errors added (all of them
    when there are fewer), in the order they were added; no call panics. *)
Theorem AddErrors_keeps_newest (m : Z) (errs : list SyncError) :
  AddErrors (NewErrorHandler m) errs =
  Some (mkErrorHandler
          (drop (length errs - Z.to_nat (maxErrors (NewErrorHandler m))) errs)
          (maxErrors (NewErrorHandler m))).
Proof.
  rewrite AddErrors_from.
  - reflexivity.
  - simpl. destruct (Z.leb_spec m 0); lia.
  - simpl. destruct (Z.leb_spec m 0); lia.
Qed.

End CollectorProperties.

Section ConflictProperties.
Import Engine Config.

(** X12: whenever [needsSync] finds a pair in need of synchronisation,
    [DetectConflict] reports a conflict for it (never nil), about these two
    records; it reports differing checksums only if checksum verification
    is on. *)
Theorem needsSync_is_a_conflict (source dest : FileInfo) (opts : SyncOptions) :
  needsSync source dest opts = true ->
  exists kind,
    DetectConflict source dest = Some (mkConflictInfo (Path source) source dest kind) /\
    (kind = ConflictChecksumsDiffer -> ChecksumVerify opts = true).
Proof.
  unfold needsSync, DetectConflict. intros H.
  destruct (negb (Size source =? Size dest)).
  { eexists. split; [reflexivity | discriminate]. }
  destruct (negb (GoTime.Equal (ModTime source) (ModTime dest))).
  { eexists. split; [reflexivity | discriminate]. }
  destruct (ChecksumVerify opts); simpl in H; [|discriminate].
  destruct (negb (String.eqb (Checksum source) "")); simpl in *; [|discriminate].
  destruct (negb (String.eqb (Checksum dest) "")); simpl in *; [|discriminate].
  rewrite H. eexists. split; reflexivity.
Qed.

(** X13: a resolver that is not interactive never fails, never asks, and
    only ever answers use-source, use-destination or skip: the resolutions
    backup-and-use-source and merge come from the terminal only. *)
Theorem ResolveConflict_not_interactive (cr : ConflictResolver)
    (ask : ConflictInfo -> ConflictResolution * option error) (conflict : ConflictInfo) :
  interactive cr = false ->
  snd (ResolveConflict cr ask conflict) = None /\
  fst (ResolveConflict cr ask conflict) ∈
    [ResolutionUseSource; ResolutionUseDestination; ResolutionSkip] /\
  forall ask', ResolveConflict cr ask' conflict = ResolveConflict cr ask conflict.
Proof.
  intros Hi. unfold ResolveConflict. rewrite Hi.
  assert (resolveByNewest conflict ∈
            [ResolutionUseSource; ResolutionUseDestination; ResolutionSkip]) as Hn.
  { unfold resolveByNewest.
    destruct (GoTime.After _ _); [in_list|]. destruct (GoTime.After _ _); in_list. }
  assert (resolveSmart conflict ∈
            [ResolutionUseSource; ResolutionUseDestination; ResolutionSkip]) as Hs.
  { unfold resolveSmart.
    repeat match goal with |- context [if ?b then _ else _] => destruct b end;
      try exact Hn; in_list. }
  repeat match goal with |- context [String.eqb ?a ?b] => destruct (String.eqb a b) end;
    simpl; repeat split; try exact Hn; try exact Hs; in_list.
Qed.

(** X14: [validateConflictConfig] accepts exactly the empty strategy and the
    six strategy names.  On acceptance the strategy is one of the six
    (newest for the empty one), an enabled backup has a directory, the two
    flags are untouched, and the resolver built from the result has the
    directory [NewConflictResolver] would have chosen itself. *)
Theorem validateConflictConfig_result (cfg : ConflictConfig) :
  match validateConflictConfig cfg with
  | inl cfg' =>
      (CfgStrategy cfg = "" \/ CfgStrategy cfg ∈ validStrategies) /\
      CfgStrategy cfg' = (if String.eqb (CfgStrategy cfg) "" then ConflictNewest
                          else CfgStrategy cfg) /\
      CfgStrategy cfg' ∈ validStrategies /\
      CfgBackup cfg' = CfgBackup cfg /\
      CfgInteractive cfg' = CfgInteractive cfg /\
      (CfgBackup cfg' = true -> CfgBackupDir cfg' <> "") /\
      backupDir (NewConflictResolver (Some cfg')) =
        backupDir (NewConflictResolver (Some cfg))
  | inr _ => CfgStrategy cfg <> "" /\ CfgStrategy cfg ∉ validStrategies
  end.
Proof.
  assert (forall s, existsb (String.eqb s) validStrategies = true <-> s ∈ validStrategies)
    as Hin.
  { intros s. rewrite existsb_exists. split.
    - intros (x & Hx & E). apply String.eqb_eq in E as ->. by apply list_elem_of_In.
    - intros H. exists s. split; [by apply list_elem_of_In | apply String.eqb_refl]. }
  unfold validateConflictConfig.
  destruct (String.eqb_spec (CfgStrategy cfg) "") as [E|E].
  - simpl. destruct (String.eqb_spec (CfgBackupDir cfg) "") as [Eb|Eb]; simpl.
    + destruct (CfgBackup cfg) eqn:Hb; simpl; unfold NewConflictResolver; simpl;
        rewrite ?Eb; repeat split; auto; try (right; rewrite E); try in_list;
        try (intros; discriminate); try (intros; congruence).
    + unfold NewConflictResolver; simpl. repeat split; auto; try in_list.
      by destruct (String.eqb_spec (CfgBackupDir cfg) "").
  - destruct (existsb (String.eqb (CfgStrategy cfg)) validStrategies) eqn:Hv; simpl.
    + apply Hin in Hv.
      destruct (String.eqb_spec (CfgBackupDir cfg) "") as [Eb|Eb]; simpl.
      * destruct (CfgBackup cfg) eqn:Hb; simpl; unfold NewConflictResolver; simpl;
          rewrite ?Eb; repeat split; auto; try (intros; discriminate);
          try (intros; congruence).
      * unfold NewConflictResolver; simpl. repeat split; auto.
        by destruct (String.eqb_spec (CfgBackupDir cfg) "").
    + split; [exact E|]. intros H. apply Hin in H. congruence.
Qed.

End ConflictProperties.

Lemma needsSync_is_a_conflict_witness :
  exists kind,
    DetectConflict (mkFileInfo "/src/a.txt" 5 2000 420 false "" "")
                   (mkFileInfo "/dst/a.txt" 7 2000 420 false "" "") =
      Some (mkConflictInfo "/src/a.txt" (mkFileInfo "/src/a.txt" 5 2000 420 false "" "")
              (mkFileInfo "/dst/a.txt" 7 2000 420 false "" "") kind) /\
    (kind = ConflictChecksumsDiffer -> ChecksumVerify Engine.mirror_options = true).
Proof.
  apply (needsSync_is_a_conflict (mkFileInfo "/src/a.txt" 5 2000 420 false "" "")
           (mkFileInfo "/dst/a.txt" 7 2000 420 false "" "") Engine.mirror_options).
  reflexivity.
Defined.

Lemma ResolveConflict_not_interactive_witness :
  snd (ResolveConflict (NewConflictResolver None) Examples.quiet.(Engine.ask)
         Examples.smart_conflict) = None /\
  fst (ResolveConflict (NewConflictResolver None) Examples.quiet.(Engine.ask)
         Examples.smart_conflict) ∈
    [ResolutionUseSource; ResolutionUseDestination; ResolutionSkip] /\
  forall ask', ResolveConflict (NewConflictResolver None) ask' Examples.smart_conflict =
               ResolveConflict (NewConflictResolver None) Examples.quiet.(Engine.ask)
                 Examples.smart_conflict.
Proof.
  apply (ResolveConflict_not_interactive (NewConflictResolver None)
           Examples.quiet.(Engine.ask) Examples.smart_conflict).
  reflexivity.
Defined.
Section ScanProperties.
Import ScannerMore.

Variable H : Hashers.

(** X15: once [getChecksum] has returned a digest for a path, every later
    call for that path with the same size and the same modification time in
    whole seconds returns that digest from the cache: the file is not
    opened, the algorithm set in between is not looked at, and the cache is
    left as it is. *)
Theorem getChecksum_answers_from_cache
    (s s' : FileScanner) (file : FileRead) (path : string) (info : FileInfo) (c : string) :
  getChecksum H s file path info = (inl c, s') ->
  forall (H' : Hashers) (algo : string) (file' : FileRead) (info' : FileInfo),
    GoTime.Unix (ModTime info') = GoTime.Unix (ModTime info) ->
    Size info' = Size info ->
    getChecksum H' (SetChecksumAlgorithm s' algo) file' path info' =
    (inl c, SetChecksumAlgorithm s' algo).
Proof.
  intros Hget H' algo file' info' Ht Hs.
  assert (cache_hit s' path info = Some c) as Hhit.
  { unfold getChecksum in Hget. destruct (cache_hit s path info) as [c0|] eqn:E.
    - by injection Hget as -> ->.
    - destruct (open_err file); [discriminate|].
      destruct (calculateChecksum H s (read_all file)); [|discriminate].
      injection Hget as -> <-. unfold cache_hit. simpl.
      rewrite lookup_insert_eq. simpl. by rewrite !Z.eqb_refl. }
  unfold getChecksum.
  assert (cache_hit (SetChecksumAlgorithm s' algo) path info' = Some c) as ->; [|reflexivity].
  unfold cache_hit in *. simpl. rewrite Ht, Hs. exact Hhit.
Qed.

Lemma getFileInfo_record (s s' : FileScanner) (path : string) (stat : FileStat + error)
    (file : FileRead) (info : FileInfo) :
  getFileInfo H s path stat file = (inl info, s') ->
  exists st, stat = inl st /\ stat_of_record info path st /\
    (IsDir info = true \/ Size info <= 0 -> Checksum info = "" /\ ChecksumAlgo info = "").
Proof.
  unfold getFileInfo. destruct stat as [st|err]; [|discriminate]. simpl.
  intros Hg. exists st. split; [reflexivity|].
  destruct (st_IsDir st) eqn:Hd; simpl in Hg.
  - injection Hg as <- <-. by repeat split.
  - destruct (Z.ltb_spec 0 (st_Size st)) as [Hpos|Hz].
    + destruct (getChecksum _ _ _ _ _) as [[c|e] s0]; injection Hg as <- <-;
        (split; [by repeat split|]); simpl; rewrite ?Hd; intros [?|?];
        try discriminate; lia.
    + injection Hg as <- <-. by repeat split.
Qed.

Lemma getFileInfo_total (s : FileScanner) (path : string) (st : FileStat) (file : FileRead) :
  exists info s', getFileInfo H s path (inl st) file = (inl info, s').
Proof.
  unfold getFileInfo. simpl.
  destruct (negb (st_IsDir st) && (0 <? st_Size st)); [|by eexists _, _].
  destruct (getChecksum _ _ _ _ _) as [[c|e] s0]; by eexists _, _.
Qed.

Variable env : ScanEnv.

Lemma walkDir_fails_iff (filter : option FilterFunc) (events : list WalkEvent) (i : nat)
    (s : FileScanner) (files : list FileInfo) :
  (forall n, cancel_at env = Some n -> (i <= n)%nat) ->
  (exists err, fst (walkDir H env filter events i s files) = inr err) <->
  (exists ev, ev ∈ events /\ w_err ev <> None) \/
  (exists n, cancel_at env = Some n /\ (n < i + length events)%nat).
Proof.
  revert i s files. induction events as [|ev rest IH]; intros i s files Hi; simpl.
  - split.
    + intros [? ?]; discriminate.
    + intros [(ev & Hin & _)|(n & Hn & ?)]; [by apply elem_of_nil in Hin|].
      specialize (Hi n Hn). lia.
  - destruct (w_err ev) as [err|] eqn:Herr.
    { split; [|by eexists]. intros _. left. exists ev. split; [in_list | congruence]. }
    unfold ctx_done. destruct (cancel_at env) as [n|] eqn:Hc.
    + destruct (Nat.leb_spec n i) as [Hle|Hgt].
      { split; [|by eexists]. intros _. right. exists n. split; [reflexivity | lia]. }
      assert (forall s0 files0,
        (exists err, fst (walkDir H env filter rest (S i) s0 files0) = inr err) <->
        (exists ev0, ev0 ∈ ev :: rest /\ w_err ev0 <> None) \/
        (exists n0, Some n = Some n0 /\ (n0 < i + S (length rest))%nat)) as Hrec.
      { intros s0 files0. rewrite IH by (intros n0 [= <-]; lia).
        split; intros [(ev0 & Hin & He)|(n0 & Hn & Hlt)].
        - left. exists ev0. split; [by apply list_elem_of_further | exact He].
        - right. exists n0. split; [exact Hn | lia].
        - left. exists ev0. split; [|exact He].
          apply elem_of_cons in Hin as [->|Hin]; [congruence | exact Hin].
        - right. exists n0. split; [exact Hn | lia]. }
      destruct (getFileInfo _ _ _ _ _) as [[info|e] s0]; apply Hrec.
    + assert (forall s0 files0,
        (exists err, fst (walkDir H env filter rest (S i) s0 files0) = inr err) <->
        (exists ev0, ev0 ∈ ev :: rest /\ w_err ev0 <> None) \/
        (exists n0, @None nat = Some n0 /\ (n0 < i + S (length rest))%nat)) as Hrec.
      { intros s0 files0. rewrite IH by (intros n0; discriminate).
        split; intros [(ev0 & Hin & He)|(n0 & Hn & Hlt)]; try discriminate.
        - left. exists ev0. split; [by apply list_elem_of_further | exact He].
        - left. exists ev0. split; [|exact He].
          apply elem_of_cons in Hin as [->|Hin]; [congruence | exact Hin]. }
      destruct (getFileInfo _ _ _ _ _) as [[info|e] s0]; apply Hrec.
Qed.

(** X16: a scan fails exactly when the walk reports an error for some entry
    or the context is done at one of the scan's checks; what the files
    hold, a failing [Info], [Open] or read, an unknown algorithm and the
    filter never make it fail. *)
Theorem ScanWithFilter_fails_iff (s : FileScanner) (path : string)
    (filter : option FilterFunc) :
  (exists err, fst (ScanWithFilter H s env path filter) = inr err) <->
  (exists ev, ev ∈ walk env /\ w_err ev <> None) \/
  (exists n, cancel_at env = Some n /\ (n <= length (walk env))%nat).
Proof.
  unfold ScanWithFilter.
  pose proof (walkDir_fails_iff filter (walk env) 0 s [] ltac:(intros; lia)) as Hw.
  destruct (walkDir H env filter (walk env) 0 s []) as [[files|err] s'] eqn:E; simpl in *.
  - unfold ctx_done. destruct (cancel_at env) as [n|] eqn:Hc.
    + destruct (Nat.leb_spec n (length (walk env))) as [Hle|Hgt]; simpl.
      * split; [|by eexists]. intros _. right. by exists n.
      * split; [intros [? ?]; discriminate|].
        intros [Hev|(n0 & [= <-] & ?)]; [|lia].
        apply Hw. by left.
    + simpl. split; [intros [? ?]; discriminate|].
      intros [Hev|(n0 & ? & _)]; [|discriminate]. apply Hw. by left.
  - split; [|by eexists]. intros _.
    destruct (proj1 Hw ltac:(by eexists)) as [?|(n & Hn & ?)]; [by left|].
    right. exists n. split; [exact Hn | lia].
Qed.

Lemma walkDir_records (filter : option FilterFunc) (events : list WalkEvent) (i : nat)
    (s s' : FileScanner) (files out : list FileInfo) :
  walkDir H env filter events i s files = (inl out, s') ->
  (forall info, info ∈ out ->
     info ∈ files \/
     exists ev st, ev ∈ events /\ w_info ev = inl st /\ stat_of_record info (w_path ev) st /\
       (IsDir info = true \/ Size info <= 0 -> Checksum info = "" /\ ChecksumAlgo info = "")) /\
  (forall info, info ∈ files -> info ∈ out) /\
  (filter = None ->
   forall ev st, ev ∈ events -> w_info ev = inl st ->
     exists info, info ∈ out /\ stat_of_record info (w_path ev) st).
Proof.
  revert i s files. induction events as [|ev rest IH]; intros i s files; simpl.
  - intros [= <- <-]. repeat split.
    + intros info Hin. by left.
    + done.
    + intros _ ev st Hin. by apply elem_of_nil in Hin.
  - destruct (w_err ev); [discriminate|]. destruct (ctx_done env i); [discriminate|].
    destruct (getFileInfo H s (w_path ev) (w_info ev) (contents env (w_path ev)))
      as [[info|e] s0] eqn:Hg.
    + intros Hw. destruct (IH _ _ _ Hw) as (Hfrom & Hkeep & Hall).
      destruct (getFileInfo_record _ _ _ _ _ _ Hg) as (st & Hst & Hrec & Hsum).
      repeat split.
      * intros info' Hin. destruct (Hfrom info' Hin) as [Hold|(ev' & st' & Hev & ?)].
        -- destruct (match filter with Some f => f (w_path ev) info | None => true end).
           ++ apply elem_of_app in Hold as [Hold|Hnew]; [by left|].
              apply list_elem_of_singleton in Hnew as ->. right.
              exists ev, st. split; [in_list | done].
           ++ by left.
        -- right. exists ev', st'. split; [by apply list_elem_of_further | done].
      * intros info' Hin. apply Hkeep.
        destruct (match filter with Some f => f (w_path ev) info | None => true end);
          [apply elem_of_app; by left | exact Hin].
      * intros -> ev' st' Hin Hinfo. apply elem_of_cons in Hin as [->|Hin].
        -- exists info. split.
           ++ apply Hkeep. apply elem_of_app. right. in_list.
           ++ rewrite Hst in Hinfo. by injection Hinfo as <-.
        -- by apply (Hall eq_refl ev' st').
    + intros Hw. destruct (IH _ _ _ Hw) as (Hfrom & Hkeep & Hall).
      repeat split.
      * intros info' Hin. destruct (Hfrom info' Hin) as [Hold|(ev' & st' & Hev & ?)];
          [by left|]. right. exists ev', st'. split; [by apply list_elem_of_further | done].
      * exact Hkeep.
      * intros -> ev' st' Hin Hinfo. apply elem_of_cons in Hin as [->|Hin].
        -- destruct (getFileInfo_total s (w_path ev) st' (contents env (w_path ev)))
             as (info & s1 & Hg').
           rewrite Hinfo in Hg. congruence.
        -- by apply (Hall eq_refl ev' st').
Qed.

(** X17: a successful scan returns records of walked entries only, each
    with the path, size, modification time, mode and directory flag of its
    [Info], and directories and empty files carry no digest; without a
    filter every entry whose [Info] succeeds has its record, readable or
    not. *)
Theorem ScanWithFilter_records (s s' : FileScanner) (path : string)
    (filter : option FilterFunc) (files : list FileInfo) :
  ScanWithFilter H s env path filter = (inl files, s') ->
  (forall info, info ∈ files ->
     exists ev st, ev ∈ walk env /\ w_info ev = inl st /\
       stat_of_record info (w_path ev) st /\
       (IsDir info = true \/ Size info <= 0 -> Checksum info = "" /\ ChecksumAlgo info = "")) /\
  (filter = None ->
   forall ev st, ev ∈ walk env -> w_info ev = inl st ->
     exists info, info ∈ files /\ stat_of_record info (w_path ev) st).
Proof.
  unfold ScanWithFilter.
  destruct (walkDir H env filter (walk env) 0 s []) as [[out|err] s0] eqn:E; [|discriminate].
  destruct (ctx_done env (length (walk env))); [discriminate|].
  intros [= <- <-]. destruct (walkDir_records _ _ _ _ _ _ _ E) as (Hfrom & _ & Hall).
  split; [|exact Hall].
  intros info Hin. destruct (Hfrom info Hin) as [Hnil|?]; [|done].
  by apply elem_of_nil in Hnil.
Qed.

Lemma walkDir_filter (f : FilterFunc) (events : list WalkEvent) (i : nat)
    (s : FileScanner) (files : list FileInfo) :
  walkDir H env (Some f) events i s (List.filter (kept f) files) =
  match walkDir H env None events i s files with
  | (inl out, s') => (inl (List.filter (kept f) out), s')
  | (inr err, s') => (inr err, s')
  end.
Proof.
  revert i s files. induction events as [|ev rest IH]; intros i s files; simpl.
  - reflexivity.
  - destruct (w_err ev); [reflexivity|]. destruct (ctx_done env i); [reflexivity|].
    destruct (getFileInfo H s (w_path ev) (w_info ev) (contents env (w_path ev)))
      as [[info|e] s0] eqn:Hg; [|apply IH].
    destruct (getFileInfo_record _ _ _ _ _ _ Hg) as (st & _ & (Hp & _) & _).
    rewrite <- IH. f_equal. rewrite List.filter_app. simpl.
    replace (kept f info) with (f (w_path ev) info) by (unfold kept; by rewrite Hp).
    destruct (f (w_path ev) info); [reflexivity | by rewrite app_nil_r].
Qed.

(** X18: a scan with a filter returns the records the scan without filter
    returns, less those the filter rejects (up to the order in which the
    entries were appended); it fails with the same error, and leaves the
    scanner, its cache included, in the same state. *)
Theorem ScanWithFilter_filters_Scan (s : FileScanner) (path : string) (f : FilterFunc) :
  match Scan H s env path with
  | (inl files, s') =>
      exists kept_files,
        ScanWithFilter H s env path (Some f) = (inl kept_files, s') /\
        kept_files ≡ₚ List.filter (kept f) files
  | (inr err, s') => ScanWithFilter H s env path (Some f) = (inr err, s')
  end.
Proof.
  unfold Scan, ScanWithFilter.
  pose proof (walkDir_filter f (walk env) 0 s []) as Hf. simpl in Hf. rewrite Hf.
  destruct (walkDir H env None (walk env) 0 s []) as [[out|err] s0]; [|reflexivity].
  destruct (ctx_done env (length (walk env))); [reflexivity|].
  by eexists.
Qed.

End ScanProperties.

Lemma getChecksum_answers_from_cache_witness :
  getChecksum Examples.toy_hashers
    (SetChecksumAlgorithm
       (snd (getChecksum Examples.toy_hashers (NewFileScanner 4 0)
               (Examples.readable "/src/a.txt") "/src/a.txt"
               (mkFileInfo "/src/a.txt" 5 2000 420 false "" ""))) "crc32")
    (mkFileRead (Some (ErrnoError EACCES)) (inr (ErrnoError EIO))) "/src/a.txt"
    (mkFileInfo "/src/a.txt" 5 2500 420 false "" "") =
  (inl "0068656c6c6f",
   SetChecksumAlgorithm
     (snd (getChecksum Examples.toy_hashers (NewFileScanner 4 0)
             (Examples.readable "/src/a.txt") "/src/a.txt"
             (mkFileInfo "/src/a.txt" 5 2000 420 false "" ""))) "crc32").
Proof.
  apply (getChecksum_answers_from_cache Examples.toy_hashers (NewFileScanner 4 0) _
           (Examples.readable "/src/a.txt") "/src/a.txt"
           (mkFileInfo "/src/a.txt" 5 2000 420 false "" "") "0068656c6c6f").
  - reflexivity.
  - reflexivity.
  - reflexivity.
Defined.

Lemma ScanWithFilter_records_witness :
  (forall info,
     info ∈ [mkFileInfo "/src" 4096 1000 493 true "" "";
             mkFileInfo "/src/a.txt" 5 2000 420 false "0068656c6c6f" "blake3"] ->
     exists ev st, ev ∈ Examples.one_file_source /\ w_info ev = inl st /\
       ScannerMore.stat_of_record info (w_path ev) st /\
       (IsDir info = true \/ Size info <= 0 -> Checksum info = "" /\ ChecksumAlgo info = "")) /\
  (@None FilterFunc = None ->
   forall ev st, ev ∈ Examples.one_file_source -> w_info ev = inl st ->
     exists info,
       info ∈ [mkFileInfo "/src" 4096 1000 493 true "" "";
               mkFileInfo "/src/a.txt" 5 2000 420 false "0068656c6c6f" "blake3"] /\
       ScannerMore.stat_of_record info (w_path ev) st).
Proof.
  apply (ScanWithFilter_records Examples.toy_hashers
           (Examples.scan_of Examples.one_file_source) (NewFileScanner 4 0)
           (snd (Scan Examples.toy_hashers (NewFileScanner 4 0)
                   (Examples.scan_of Examples.one_file_source) "/src"))
           "/src" None).
  reflexivity.
Defined.
Section DigestText.

Lemma hexdigit_inj (i j : nat) :
  (i < 16)%nat -> (j < 16)%nat -> hexdigit i = hexdigit j -> i = j.
Proof.
  intros Hi Hj.
  do 16 (destruct i as [|i]; [do 16 (destruct j as [|j]; [first [reflexivity | discriminate]|]); lia|]).
  lia.
Qed.

Lemma byte_to_nat_inj (b b' : Byte.byte) : Byte.to_nat b = Byte.to_nat b' -> b = b'.
Proof.
  intros E. pose proof (Byte.of_to_nat b) as Hb. rewrite E, Byte.of_to_nat in Hb.
  congruence.
Qed.

Lemma hex_EncodeToString_cons (b : Byte.byte) (bs : list Byte.byte) :
  hex_EncodeToString (b :: bs) =
  String (hexdigit (Byte.to_nat b / 16)%nat)
    (String (hexdigit (Byte.to_nat b mod 16)%nat) (hex_EncodeToString bs)).
Proof. reflexivity. Qed.

(** X19: [hex.EncodeToString] writes two characters per byte and loses
    nothing: two digests have the same text only if they are the same
    bytes, so comparing the [Checksum] strings of two records compares
    their digests. *)
Theorem hex_EncodeToString_injective (bs bs' : list Byte.byte) :
  String.length (hex_EncodeToString bs) = (2 * length bs)%nat /\
  (hex_EncodeToString bs = hex_EncodeToString bs' -> bs = bs').
Proof.
  split.
  - induction bs as [|b bs IH]; [reflexivity|].
    rewrite hex_EncodeToString_cons. cbn [String.length length]. rewrite IH. lia.
  - revert bs'. induction bs as [|b bs IH]; intros [|b' bs'];
      rewrite ?hex_EncodeToString_cons; try discriminate.
    + reflexivity.
    + pose proof (Byte.to_nat_bounded b). pose proof (Byte.to_nat_bounded b').
      pose proof (Nat.div_mod_eq (Byte.to_nat b) 16) as Hb.
      pose proof (Nat.div_mod_eq (Byte.to_nat b') 16) as Hb'.
      assert (Byte.to_nat b / 16 < 16)%nat by (apply Nat.Div0.div_lt_upper_bound; lia).
      assert (Byte.to_nat b' / 16 < 16)%nat by (apply Nat.Div0.div_lt_upper_bound; lia).
      assert (Byte.to_nat b mod 16 < 16)%nat by (apply Nat.mod_upper_bound; lia).
      assert (Byte.to_nat b' mod 16 < 16)%nat by (apply Nat.mod_upper_bound; lia).
      revert Hb Hb'.
      generalize dependent (Byte.to_nat b / 16)%nat. intros q Hq.
      generalize dependent (Byte.to_nat b' / 16)%nat. intros q' Hq'.
      generalize dependent (Byte.to_nat b mod 16)%nat. intros r Hr.
      generalize dependent (Byte.to_nat b' mod 16)%nat. intros r' Hr'.
      intros Hb Hb' E. injection E as E1 E2 E3.
      apply hexdigit_inj in E1; [|lia..]. apply hexdigit_inj in E2; [|lia..].
      f_equal; [|by apply IH].
      apply byte_to_nat_inj. lia.
Qed.

End DigestText.

Section CacheAccounting.
Import ScannerMore.

Lemma wrap64_add_l (x y : Z) : wrap64 (wrap64 x + y) = wrap64 (x + y).
Proof.
  unfold wrap64. f_equal.
  replace ((x + 2 ^ 63) mod 2 ^ 64 - 2 ^ 63 + y + 2 ^ 63)
    with ((x + 2 ^ 63) mod 2 ^ 64 + y) by lia.
  rewrite Zplus_mod_idemp_l. f_equal. lia.
Qed.

Lemma add64_swap (t a b : Z) : add64 (add64 t a) b = add64 (add64 t b) a.
Proof. unfold add64. rewrite !wrap64_add_l. f_equal. lia. Qed.

(** X20: the cache statistics follow the cache: an emptied cache counts no
    entry and no byte, and a digest computed for a path that had no entry
    adds one entry and the size of the file to them. *)
Theorem GetCacheStats_accounting (H : Hashers) (s : FileScanner) :
  GetCacheStats (ClearCache s) = (0, 0) /\
  forall (file : FileRead) (path : string) (info : FileInfo) (c : string) (s' : FileScanner),
    cache s !! path = None ->
    getChecksum H s file path info = (inl c, s') ->
    GetCacheStats s' =
    (fst (GetCacheStats s) + 1, add64 (snd (GetCacheStats s)) (Size info)).
Proof.
  split.
  - unfold GetCacheStats, ClearCache. simpl. by rewrite map_size_empty, map_fold_empty.
  - intros file path info c s' Hnone Hget. unfold getChecksum, cache_hit in Hget.
    rewrite Hnone in Hget. destruct (open_err file); [discriminate|].
    destruct (calculateChecksum H s (read_all file)) as [c0|]; [|discriminate].
    injection Hget as <- <-. unfold GetCacheStats. simpl.
    rewrite map_size_insert_None by exact Hnone.
    rewrite map_fold_insert_L; [simpl; f_equal; lia | | exact Hnone].
    intros j1 j2 z1 z2 y _ _ _. apply add64_swap.
Qed.

End CacheAccounting.
Section CopyProperties.
Import Copier.

Lemma fs_mkdirAll_keeps (fs : FS) (dir : string) (mode : Z) (now : GoTime.Time)
    (p : string) (n : Node) :
  fs !! p = Some n -> fs_mkdirAll fs dir mode now !! p = Some n.
Proof.
  intros Hp. unfold fs_mkdirAll. destruct (fs !! dir) eqn:E; [exact Hp|].
  rewrite lookup_insert_ne; [exact Hp | congruence].
Qed.

Lemma fs_create_other (fs : FS) (dst : string) (mode : Z) (now : GoTime.Time) (p : string) :
  p <> dst -> fs_create fs dst mode now !! p = fs !! p.
Proof.
  intros Hne. unfold fs_create. destruct (fs !! dst); by rewrite lookup_insert_ne.
Qed.

Lemma fs_write_other (fs : FS) (dst : string) (data : list Byte.byte) (p : string) :
  p <> dst -> fs_write fs dst data !! p = fs !! p.
Proof.
  intros Hne. unfold fs_write. destruct (fs !! dst); [by rewrite lookup_insert_ne | done].
Qed.

Lemma fs_chmod_other (fs : FS) (dst : string) (mode : Z) (p : string) :
  p <> dst -> fs_chmod fs dst mode !! p = fs !! p.
Proof.
  intros Hne. unfold fs_chmod. destruct (fs !! dst); [by rewrite lookup_insert_ne | done].
Qed.

Lemma fs_chtimes_other (fs : FS) (dst : string) (mtime : GoTime.Time) (p : string) :
  p <> dst -> fs_chtimes fs dst mtime !! p = fs !! p.
Proof.
  intros Hne. unfold fs_chtimes. destruct (fs !! dst); [by rewrite lookup_insert_ne | done].
Qed.

Lemma fs_remove_other (env : CopyEnv) (fs : FS) (dst p : string) :
  p <> dst -> fs_remove env fs dst !! p = fs !! p.
Proof.
  intros Hne. unfold fs_remove. destruct (remove_err env); [done | by rewrite lookup_delete_ne].
Qed.

Ltac other_paths :=
  repeat first
    [ rewrite fs_remove_other by assumption
    | rewrite fs_chtimes_other by assumption
    | rewrite fs_chmod_other by assumption
    | rewrite fs_write_other by assumption
    | rewrite fs_create_other by assumption ].

Lemma copyRegularFile_keeps (fc : FileCopier) (env : CopyEnv) (fs : FS)
    (src dst : string) (srcInfo : Node) (p : string) (n : Node) :
  fs !! p = Some n -> p <> dst ->
  fst (copyRegularFile fc env fs src dst srcInfo) !! p = Some n.
Proof.
  intros Hp Hne. unfold copyRegularFile.
  pose proof (fs_mkdirAll_keeps fs (filepath_Dir dst) 488 (created_at env) p n Hp) as Hmk.
  destruct (mkdirAll_err env); [exact Hp|].
  destruct (openFile_err env); [exact Hmk|].
  destruct (open_src_err env); simpl; [by other_paths|].
  destruct (if useZeroCopy fc && canUseZeroCopy fc env
            then zeroCopy env (n_size srcInfo) else bufferedCopy env 0 [])
    as [[bytesWritten cerr] out].
  destruct cerr; simpl; [by other_paths|].
  destruct (negb (bytesWritten =? n_size srcInfo)); simpl; [by other_paths|].
  destruct (fsync_err env); simpl; [by other_paths|].
  destruct (preservePerms fc), (chmod_err env), (preserveTimes fc), (chtimes_err env);
    simpl; by other_paths.
Qed.

Lemma copyDirectory_other (fc : FileCopier) (env : CopyEnv) (fs : FS)
    (dst : string) (srcInfo : Node) (p : string) :
  p <> dst -> fst (copyDirectory fc env fs dst srcInfo) !! p = fs !! p.
Proof.
  intros Hne. unfold copyDirectory.
  assert (fs_mkdirAll fs dst (n_mode srcInfo) (created_at env) !! p = fs !! p) as Hmk.
  { unfold fs_mkdirAll. destruct (fs !! dst); [done | by rewrite lookup_insert_ne]. }
  destruct (mkdirAll_err env); [done|].
  destruct (preservePerms fc), (chmod_err env), (preserveTimes fc), (chtimes_err env);
    simpl; by other_paths.
Qed.

(** X21: [CopyFile] leaves every regular file other than the destination
    as it was - contents, mode and modification time - whether the copy
    succeeds, fails or is cancelled; in particular it never damages its
    source.  (Directories are left aside: making an entry changes the
    modification time of its parent, which the map of nodes does not
    follow.) *)
Theorem CopyFile_keeps_other_files (fc : FileCopier) (env : CopyEnv) (fs : FS)
    (src dst p : string) (n : Node) :
  fs !! p = Some n -> n_isdir n = false -> p <> dst ->
  fst (CopyFile fc env fs src dst) !! p = Some n.
Proof.
  intros Hp _ Hne. unfold CopyFile.
  destruct (stat_err env); [exact Hp|].
  destruct (fs !! src) as [srcInfo|]; [|exact Hp].
  destruct (n_isdir srcInfo).
  - by rewrite copyDirectory_other.
  - by apply copyRegularFile_keeps.
Qed.

Lemma prefix_length (s p : string) :
  String.prefix s p = true -> (String.length s <= String.length p)%nat.
Proof.
  revert p. induction s as [|c s IH]; intros p Hp; simpl; [lia|].
  destruct p as [|c' p]; simpl in Hp; [discriminate|].
  destruct (Ascii.ascii_dec c c'); [|discriminate].
  specialize (IH p Hp). simpl. lia.
Qed.

Lemma below_not_self (dst p : string) : String.prefix (dst +:+ "/") p = true -> p <> dst.
Proof.
  intros Hp ->. apply prefix_length in Hp.
  pose proof (len_app dst "/") as Hl. unfold len in Hl. rewrite Hl in Hp. simpl in Hp. lia.
Qed.

(** X22: [CopyFile] of a directory is shallow: it makes the destination
    directory and copies nothing of what the source directory holds -
    every path below the destination is as it was before the call. *)
Theorem CopyFile_directory_is_shallow (fc : FileCopier) (env : CopyEnv) (fs : FS)
    (src dst p : string) (srcInfo : Node) :
  fs !! src = Some srcInfo -> n_isdir srcInfo = true ->
  String.prefix (dst +:+ "/") p = true ->
  fst (CopyFile fc env fs src dst) !! p = fs !! p.
Proof.
  intros Hsrc Hdir Hp. apply below_not_self in Hp. unfold CopyFile.
  destruct (stat_err env); [reflexivity|]. rewrite Hsrc, Hdir.
  by apply copyDirectory_other.
Qed.

Lemma wrap64_wrap64 (x : Z) : wrap64 (wrap64 x) = wrap64 x.
Proof.
  transitivity (wrap64 (wrap64 x + 0)); [f_equal; lia|].
  rewrite wrap64_add_l. f_equal. lia.
Qed.

Lemma bufferedCopy_loop_success (env : CopyEnv) (rs : list ReadResult) (i : nat)
    (t t' : Z) (out out' : list Byte.byte) :
  bufferedCopy_loop env rs i t out = (t', None, out') ->
  exists k, out' = out ++ concat (r_bytes <$> take k rs) /\
            wrap64 t' = wrap64 (t + Z.of_nat (length (concat (r_bytes <$> take k rs)))).
Proof.
  revert i t out. induction rs as [|r rest IH]; intros i t out; simpl.
  - destruct (copy_ctx_done env i); [discriminate|]. intros [= <- <-].
    exists 0%nat. simpl. rewrite app_nil_r. split; [reflexivity | f_equal; lia].
  - destruct (copy_ctx_done env i); [discriminate|].
    destruct (Nat.ltb_spec 0 (length (r_bytes r))) as [Hpos|Hzero]; simpl.
    + destruct (w_werr (write env i (r_bytes r))) as [e|] eqn:Hw.
      { rewrite bool_decide_eq_true_2 by eauto. intros [= _ ? _]; congruence. }
      rewrite bool_decide_eq_false_2 by (intros [? ?]; discriminate).
      destruct (Nat.eqb_spec (w_n (write env i (r_bytes r))) (length (r_bytes r)))
        as [Hn|Hn]; simpl; [|discriminate].
      rewrite Hn, firstn_all.
      assert (forall t0 o0,
        t0 = add64 t (Z.of_nat (length (r_bytes r))) -> o0 = out ++ r_bytes r ->
        (t0, @None error, o0) = (t', None, out') \/
        bufferedCopy_loop env rest (S i) t0 o0 = (t', None, out') ->
        exists k, out' = out ++ concat (r_bytes <$> take k (r :: rest)) /\
          wrap64 t' = wrap64 (t + Z.of_nat (length (concat (r_bytes <$> take k (r :: rest))))))
        as Hstep.
      { intros t0 o0 -> -> [Hd|Hl].
        - injection Hd as <- <-. exists 1%nat. simpl. rewrite ?take_0. simpl.
          rewrite app_nil_r. split; [reflexivity|]. unfold add64. by rewrite wrap64_wrap64.
        - destruct (IH _ _ _ Hl) as (k & -> & Ht). exists (S k). simpl.
          rewrite <- app_assoc. split; [reflexivity|]. rewrite Ht.
          unfold add64. rewrite wrap64_add_l, length_app. f_equal.
          unfold fmap. lia. }
      destruct (r_err r) as [[]|]; try discriminate;
        intros Hres; eapply Hstep; eauto.
    + assert (r_bytes r = []) as Hnil by (destruct (r_bytes r); [done | simpl in Hzero; lia]).
      assert (forall (P : Prop), 
        ((t, @None error, out) = (t', None, out') \/
         bufferedCopy_loop env rest (S i) t out = (t', None, out') -> P) ->
        (match r_err r with
         | Some EOF => (t, None, out)
         | Some err => (t, Some err, out)
         | None => bufferedCopy_loop env rest (S i) t out
         end = (t', None, out') -> P)) as Hcase.
      { intros P HP. destruct (r_err r) as [[]|]; try discriminate; intros; apply HP; auto. }
      apply Hcase. intros [Hd|Hl].
      * injection Hd as <- <-. exists 0%nat. simpl. rewrite app_nil_r.
        split; [reflexivity | f_equal; lia].
      * destruct (IH _ _ _ Hl) as (k & -> & Ht). exists (S k). simpl. rewrite Hnil. simpl.
        split; [reflexivity | exact Ht].
Qed.

(** X23: after a successful buffered copy of a regular file the
    destination holds exactly the bytes the reads of the source returned,
    in order; their number is the size [os.Stat] gave for the source (as
    64-bit integers); and the destination has the mode and the
    modification time of the source when their preservation is on. *)
Theorem CopyFile_buffered_success (fc : FileCopier) (env : CopyEnv) (fs fs' : FS)
    (src dst : string) (srcInfo : Node) :
  useZeroCopy fc = false ->
  fs !! src = Some srcInfo -> n_isdir srcInfo = false ->
  CopyFile fc env fs src dst = (fs', None) ->
  exists (n : Node) (k : nat),
    fs' !! dst = Some n /\
    n_data n = concat (r_bytes <$> take k (reads env)) /\
    wrap64 (n_size n) = wrap64 (n_size srcInfo) /\
    (preservePerms fc = true -> n_mode n = n_mode srcInfo) /\
    (preserveTimes fc = true -> n_mtime n = n_mtime srcInfo).
Proof.
  intros Hz Hsrc Hreg. unfold CopyFile.
  destruct (stat_err env); [discriminate|]. rewrite Hsrc, Hreg.
  unfold copyRegularFile. rewrite Hz. simpl.
  destruct (mkdirAll_err env); [discriminate|].
  destruct (openFile_err env); [discriminate|].
  destruct (open_src_err env); [discriminate|].
  set (fs1 := fs_create _ dst (n_mode srcInfo) (created_at env)).
  destruct (fs_create_lookup (fs_mkdirAll fs (filepath_Dir dst) 488 (created_at env))
              dst (n_mode srcInfo) (created_at env)) as [n1 Hn1]. fold fs1 in Hn1.
  destruct (bufferedCopy env 0 []) as [[bytesWritten cerr] out] eqn:Hcopy.
  destruct cerr; [discriminate|].
  destruct (Z.eqb_spec bytesWritten (n_size srcInfo)) as [Hsize|]; simpl; [|discriminate].
  destruct (fsync_err env); [discriminate|].
  destruct (bufferedCopy_loop_success _ _ _ _ _ _ _ Hcopy) as (k & Hout & Ht).
  simpl in Hout, Ht. subst out.
  assert (fs_write fs1 dst (concat (r_bytes <$> take k (reads env))) !! dst =
          Some (mkNode (concat (r_bytes <$> take k (reads env))) (n_mode n1) (n_mtime n1)
                  (n_isdir n1))) as Hw.
  { unfold fs_write. rewrite Hn1. by rewrite lookup_insert_eq. }
  assert (wrap64 (Z.of_nat (length (concat (r_bytes <$> take k (reads env))))) =
          wrap64 (n_size srcInfo)) as Hlen by (rewrite <- Hsize; symmetry; exact Ht).
  destruct (preservePerms fc) eqn:Hpp.
  - destruct (chmod_err env); [discriminate|].
    destruct (preserveTimes fc) eqn:Hpt.
    + destruct (chtimes_err env); [discriminate|]. intros [= <-].
      eexists _, k. split.
      { unfold fs_chtimes, fs_chmod. rewrite Hw, lookup_insert_eq, lookup_insert_eq.
        reflexivity. }
      simpl. repeat split; try reflexivity. exact Hlen.
    + intros [= <-]. eexists _, k. split.
      { unfold fs_chmod. rewrite Hw, lookup_insert_eq. reflexivity. }
      simpl. repeat split; try reflexivity; [exact Hlen | discriminate].
  - destruct (preserveTimes fc) eqn:Hpt.
    + destruct (chtimes_err env); [discriminate|]. intros [= <-].
      eexists _, k. split.
      { unfold fs_chtimes. rewrite Hw, lookup_insert_eq. reflexivity. }
      simpl. repeat split; try reflexivity; [exact Hlen | discriminate].
    + intros [= <-]. eexists _, k. split; [exact Hw|].
      simpl. repeat split; try reflexivity; [exact Hlen | discriminate..].
Qed.

(** X24: a copy of a regular file started under a context that is already
    done fails with the context's error, wrapped, and - when [os.Remove]
    succeeds - leaves no file at the destination.  The one exception is
    the zero-copy path on Linux with an empty source, whose loop never
    looks at the context. *)
Theorem CopyFile_cancelled (fc : FileCopier) (env : CopyEnv) (fs : FS)
    (src dst : string) (srcInfo : Node) :
  copy_cancel_at env = Some 0%nat ->
  stat_err env = None -> mkdirAll_err env = None ->
  openFile_err env = None -> open_src_err env = None ->
  fs !! src = Some srcInfo -> n_isdir srcInfo = false ->
  useZeroCopy fc && canUseZeroCopy fc env && String.eqb (goos env) "linux"
    && (n_size srcInfo <=? 0) = false ->
  snd (CopyFile fc env fs src dst) =
    Some (Errorf_w "failed to copy file content: " (copy_ctx_Err env)) /\
  (remove_err env = None -> fst (CopyFile fc env fs src dst) !! dst = None).
Proof.
  intros Hc Hstat Hmk Hop Hos Hsrc Hreg Hex. unfold CopyFile.
  rewrite Hstat, Hsrc, Hreg. unfold copyRegularFile. rewrite Hmk, Hop, Hos.
  assert ((if useZeroCopy fc && canUseZeroCopy fc env
           then zeroCopy env (n_size srcInfo) else bufferedCopy env 0 []) =
          (0, Some (copy_ctx_Err env), [])) as ->.
  { assert (bufferedCopy env 0 [] = (0, Some (copy_ctx_Err env), [])) as Hb.
    { unfold bufferedCopy. destruct (reads env); simpl; unfold copy_ctx_done;
        by rewrite Hc. }
    destruct (useZeroCopy fc && canUseZeroCopy fc env); [|exact Hb].
    unfold zeroCopy. destruct (String.eqb (goos env) "linux"); [|exact Hb].
    simpl in Hex. apply Z.leb_gt in Hex.
    unfold zeroCopyLinux. destruct (sendfiles env); simpl;
      (destruct (Z.ltb_spec 0 (n_size srcInfo)); [|lia]);
      unfold copy_ctx_done; by rewrite Hc. }
  simpl. split; [reflexivity|]. intros Hrm. unfold fs_remove. rewrite Hrm.
  apply lookup_delete_eq.
Qed.

End CopyProperties.

Lemma CopyFile_keeps_other_files_witness :
  fst (Copier.CopyFile (Copier.NewFileCopier 4 0 false) Examples.failing_read
         Examples.one_file_fs "/src/a.txt" "/dst/a.txt") !! "/src/a.txt" =
  Some (Copier.mkNode Examples.hello 420 2000 false).
Proof.
  apply (CopyFile_keeps_other_files (Copier.NewFileCopier 4 0 false) Examples.failing_read
           Examples.one_file_fs "/src/a.txt" "/dst/a.txt" "/src/a.txt"
           (Copier.mkNode Examples.hello 420 2000 false)).
  - reflexivity.
  - reflexivity.
  - discriminate.
Defined.

Lemma CopyFile_directory_is_shallow_witness :
  fst (Copier.CopyFile (Copier.NewFileCopier 4 0 false) Examples.healthy_copy
         MoreExamples.dir_fs "/src" "/dst") !! "/dst/a.txt" =
  MoreExamples.dir_fs !! "/dst/a.txt".
Proof.
  apply (CopyFile_directory_is_shallow (Copier.NewFileCopier 4 0 false)
           Examples.healthy_copy MoreExamples.dir_fs "/src" "/dst" "/dst/a.txt"
           (Copier.mkNode [] 493 1000 true)).
  - reflexivity.
  - reflexivity.
  - reflexivity.
Defined.

Lemma CopyFile_buffered_success_witness :
  exists (n : Copier.Node) (k : nat),
    fst (Copier.CopyFile (Copier.NewFileCopier 4 0 false) Examples.healthy_copy
           Examples.one_file_fs "/src/a.txt" "/dst/a.txt") !! "/dst/a.txt" = Some n /\
    Copier.n_data n =
      concat (Copier.r_bytes <$> take k (Copier.reads Examples.healthy_copy)) /\
    wrap64 (Copier.n_size n) =
      wrap64 (Copier.n_size (Copier.mkNode Examples.hello 420 2000 false)) /\
    (Copier.preservePerms (Copier.NewFileCopier 4 0 false) = true ->
     Copier.n_mode n = 420) /\
    (Copier.preserveTimes (Copier.NewFileCopier 4 0 false) = true ->
     Copier.n_mtime n = 2000).
Proof.
  apply (CopyFile_buffered_success (Copier.NewFileCopier 4 0 false) Examples.healthy_copy
           Examples.one_file_fs _ "/src/a.txt" "/dst/a.txt"
           (Copier.mkNode Examples.hello 420 2000 false)).
  - reflexivity.
  - reflexivity.
  - reflexivity.
  - reflexivity.
Defined.

Lemma CopyFile_cancelled_witness :
  snd (Copier.CopyFile (Copier.NewFileCopier 4 0 true) MoreExamples.cancelled_copy
         Examples.one_file_fs "/src/a.txt" "/dst/a.txt") =
    Some (WrapError "failed to copy file content: context canceled" Canceled) /\
  (Copier.remove_err MoreExamples.cancelled_copy = None ->
   fst (Copier.CopyFile (Copier.NewFileCopier 4 0 true) MoreExamples.cancelled_copy
          Examples.one_file_fs "/src/a.txt" "/dst/a.txt") !! "/dst/a.txt" = None).
Proof.
  apply (CopyFile_cancelled (Copier.NewFileCopier 4 0 true) MoreExamples.cancelled_copy
           Examples.one_file_fs "/src/a.txt" "/dst/a.txt"
           (Copier.mkNode Examples.hello 420 2000 false)); reflexivity.
Defined.
Section SyncProperties.
Import Engine EngineMore.

Lemma Scan_healthy (H : Hashers) (s : FileScanner) (env : ScanEnv) (path : string) :
  healthy_scan env -> exists files s', Scan H s env path = (inl files, s').
Proof.
  intros [Hw Hc]. unfold Scan, ScanWithFilter.
  pose proof (walkDir_fails_iff H env None (walk env) 0 s []
                ltac:(intros; lia)) as Hiff.
  destruct (walkDir H env None (walk env) 0 s []) as [[files|err] s'].
  - unfold ctx_done. rewrite Hc. by eexists _, _.
  - destruct (proj1 Hiff ltac:(by eexists)) as [(ev & Hin & Hne)|(n & Hn & _)].
    + by rewrite (Hw ev Hin) in Hne.
    + congruence.
Qed.

Lemma apply_action_total (a : Action) (e : SyncEngine) :
  0 < maxErrors (errorHandler e) ->
  exists e', apply_action a e = Some e' /\
             maxErrors (errorHandler e') = maxErrors (errorHandler e).
Proof.
  intros Hm. destruct a; simpl; try by eexists.
  unfold AddError.
  destruct (Z.leb_spec (maxErrors (errorHandler e)) (Z.of_nat (length (errors (errorHandler e)))))
    as [Hfull|_]; [|by eexists].
  destruct (errors (errorHandler e)); simpl in *; [lia | by eexists].
Qed.

Lemma run_actions_total (acts : list Action) (e : SyncEngine) :
  0 < maxErrors (errorHandler e) ->
  exists e', run_actions acts e = Some e' /\
             maxErrors (errorHandler e') = maxErrors (errorHandler e).
Proof.
  revert e. induction acts as [|a acts IH]; intros e Hm; simpl; [by eexists|].
  destruct (apply_action_total a e Hm) as (e1 & -> & Hm1).
  destruct (IH e1 ltac:(lia)) as (e' & -> & Hm'). exists e'. split; [reflexivity | lia].
Qed.

Lemma dispatch_total (P : PathLib) (env : SyncEnv) (source destination : string)
    (destMap : gmap string FileInfo) (opts : SyncOptions)
    (sourceFiles : list FileInfo) (i : nat) (e : SyncEngine) :
  dispatch_cancel_at env = None ->
  0 < maxErrors (errorHandler e) ->
  exists e', dispatch P env source destination destMap opts sourceFiles i e = Some (e', None).
Proof.
  intros Hc. revert i e. induction sourceFiles as [|f rest IH]; intros i e Hm; simpl.
  - by eexists.
  - unfold dispatch_done. rewrite Hc.
    destruct (run_actions_total
                (worker P (resolver e) (retryManager e) (file_env env i) source destination
                   f destMap opts) e Hm) as (e1 & -> & Hm1).
    apply IH. lia.
Qed.

(** X25: the failure of single entries never makes [Sync] fail.  When the
    two scans meet no walk error, the context is not done, [Workers] is not
    negative and the collector has room for at least one error, [Sync]
    returns a nil error and does not panic - whatever [CopyFile],
    [os.MkdirAll], the resolver, the backup and [filepath.Rel] answer for
    the entries. *)
Theorem Sync_survives_entry_failures (H : Hashers) (P : PathLib) (e : SyncEngine)
    (env : SyncEnv) (source destination : string) (opts : SyncOptions) :
  healthy_scan (src_scan env) -> healthy_scan (dst_scan env) ->
  dispatch_cancel_at env = None ->
  0 <= Workers opts ->
  0 < maxErrors (errorHandler e) ->
  exists e', Sync H P e env source destination opts = Some (e', None).
Proof.
  intros Hsrc Hdst Hc Hw Hm. unfold Sync.
  destruct (Scan_healthy H (scanner (resetStats e)) (src_scan env) source Hsrc)
    as (files & sc & ->).
  cbn zeta.
  match goal with
  | |- context [Scan H ?s (dst_scan env) destination] =>
      destruct (Scan_healthy H s (dst_scan env) destination Hdst) as (dfiles & sc' & ->)
  end.
  destruct (Z.ltb_spec (Workers opts) 0) as [?|_]; [lia|].
  apply dispatch_total; [exact Hc | exact Hm].
Qed.

Lemma ResolveConflict_offline (cr : ConflictResolver)
    (ask : ConflictInfo -> ConflictResolution * option error) (conflict : ConflictInfo) :
  interactive cr = false ->
  exists r, ResolveConflict cr ask conflict = (r, None) /\
    (r = ResolutionUseSource \/ r = ResolutionUseDestination \/ r = ResolutionSkip).
Proof.
  intros Hi. unfold ResolveConflict. rewrite Hi.
  assert (exists r, resolveByNewest conflict = r /\
            (r = ResolutionUseSource \/ r = ResolutionUseDestination \/ r = ResolutionSkip))
    as (rn & Hn & Hrn).
  { unfold resolveByNewest. destruct (GoTime.After _ _); [eauto|].
    destruct (GoTime.After _ _); eauto. }
  assert (exists r, resolveSmart conflict = r /\
            (r = ResolutionUseSource \/ r = ResolutionUseDestination \/ r = ResolutionSkip))
    as (rs & Hs & Hrs).
  { unfold resolveSmart.
    repeat match goal with |- context [if ?b then _ else _] => destruct b end; eauto. }
  rewrite Hn, Hs.
  repeat match goal with |- context [String.eqb ?a ?b] => destruct (String.eqb a b) end;
    eauto 6.
Qed.

Lemma tally_app (f : Action -> nat) (l1 l2 : list Action) :
  tally f (l1 ++ l2) = (tally f l1 + tally f l2)%nat.
Proof. unfold tally. induction l1 as [|a l1 IH]; simpl; [reflexivity | rewrite IH; lia]. Qed.

Lemma sync_step_dry_run (rm : RetryManager) (fe : FileEnv) (sourceFile : FileInfo)
    (destPath : string) (exists_ : bool) (opts : SyncOptions) :
  DryRun opts = true ->
  forallb counter_only (fst (sync_step rm fe sourceFile destPath exists_ opts)) = true.
Proof. intros Hd. unfold sync_step. rewrite Hd. by destruct exists_. Qed.

Lemma worker_dry_run (P : PathLib) (cr : ConflictResolver) (rm : RetryManager)
    (fe : FileEnv) (source destination : string) (file : FileInfo)
    (destMap : gmap string FileInfo) (opts : SyncOptions) :
  DryRun opts = true -> interactive cr = false ->
  forallb counter_only (worker P cr rm fe source destination file destMap opts) = true.
Proof.
  intros Hd Hi. unfold worker, syncFile.
  destruct (Rel P source (Path file)) as [rel|err]; [|reflexivity].
  assert (forall ex,
    forallb counter_only
      (let '(acts, err) := sync_step rm fe file (Join P destination rel) ex opts in
       match err with Some _ => acts ++ [AddErrorsEncountered] | None => acts end) = true)
    as Hstep.
  { intros ex. pose proof (sync_step_dry_run rm fe file (Join P destination rel) ex opts Hd).
    destruct (sync_step _ _ _ _ _ _) as [acts [err|]]; simpl in *; [|done].
    rewrite forallb_app. by rewrite H. }
  destruct (destMap !! rel) as [destFile|]; [|apply Hstep].
  destruct (needsSync file destFile opts); [|reflexivity].
  destruct (DetectConflict file destFile) as [conflict|]; [|apply Hstep].
  destruct (ResolveConflict_offline cr (ask fe) conflict Hi) as (r & -> & [-> | [-> | ->]]);
    try reflexivity.
  specialize (Hstep true). unfold prepend.
  destruct (sync_step _ _ _ _ _ _) as [acts [err|]]; simpl in *; exact Hstep.
Qed.

Lemma run_actions_counter_only (acts : list Action) (e e' : SyncEngine) :
  forallb counter_only acts = true ->
  run_actions acts e = Some e' ->
  calls e' = calls e /\ errorHandler e' = errorHandler e /\
  resolver e' = resolver e /\ retryManager e' = retryManager e /\
  FilesChanged (stats e') = FilesChanged (stats e) /\
  BytesTransferred (stats e') = BytesTransferred (stats e).
Proof.
  revert e. induction acts as [|a acts IH]; intros e Hall Hrun; simpl in *.
  - by injection Hrun as <-.
  - apply andb_prop in Hall as [Ha Hall].
    destruct a; simpl in *; try discriminate;
      destruct (IH _ Hall Hrun) as (-> & -> & -> & -> & -> & ->); by repeat split.
Qed.

Lemma dispatch_dry_run (P : PathLib) (env : SyncEnv) (source destination : string)
    (destMap : gmap string FileInfo) (opts : SyncOptions)
    (sourceFiles : list FileInfo) (i : nat) (e e' : SyncEngine) (err : option error) :
  DryRun opts = true -> interactive (resolver e) = false ->
  dispatch P env source destination destMap opts sourceFiles i e = Some (e', err) ->
  calls e' = calls e /\ errorHandler e' = errorHandler e /\
  FilesChanged (stats e') = FilesChanged (stats e) /\
  BytesTransferred (stats e') = BytesTransferred (stats e).
Proof.
  intros Hd. revert i e. induction sourceFiles as [|f rest IH]; intros i e Hi; simpl.
  - by intros [= <- _].
  - destruct (dispatch_done env i); [by intros [= <- _]|].
    destruct (run_actions _ e) as [e1|] eqn:Hrun; [|discriminate].
    destruct (run_actions_counter_only _ _ _ (worker_dry_run _ _ _ _ _ _ _ _ _ Hd Hi) Hrun)
      as (Hc & He & Hr & _ & Hf & Hb).
    intros Hrest. destruct (IH _ _ ltac:(by rewrite Hr) Hrest) as (-> & -> & -> & ->).
    by repeat split.
Qed.

(** X26: a dry run with a resolver that is not interactive has no effect
    but on the counters: it makes no call on the destination tree
    (no [CopyFile], no [os.MkdirAll], no backup), collects no error, and
    counts no file as changed and no byte as transferred. *)
Theorem Sync_dry_run_is_read_only (H : Hashers) (P : PathLib) (e e' : SyncEngine)
    (env : SyncEnv) (source destination : string) (opts : SyncOptions)
    (err : option error) :
  DryRun opts = true -> interactive (resolver e) = false ->
  Sync H P e env source destination opts = Some (e', err) ->
  calls e' = [] /\ errorHandler e' = errorHandler e /\
  FilesChanged (stats e') = 0 /\ BytesTransferred (stats e') = 0.
Proof.
  intros Hd Hi. unfold Sync.
  destruct (Scan H (scanner (resetStats e)) (src_scan env) source) as [[files|serr] sc].
  2:{ by intros [= <- _]. }
  cbn zeta.
  match goal with
  | |- context [Scan H ?s (dst_scan env) destination] =>
      destruct (Scan H s (dst_scan env) destination) as [[dfiles|derr] sc']
  end.
  - destruct (Workers opts <? 0); [discriminate|].
    intros Hdisp. apply dispatch_dry_run in Hdisp; [|exact Hd|exact Hi].
    exact Hdisp.
  - destruct (negb (os_IsNotExist derr)); [by intros [= <- _]|].
    destruct (Workers opts <? 0); [discriminate|].
    intros Hdisp. apply dispatch_dry_run in Hdisp; [|exact Hd|exact Hi].
    exact Hdisp.
Qed.

Lemma apply_action_tally (a : Action) (e e' : SyncEngine) :
  apply_action a e = Some e' ->
  FilesScanned (stats e') = FilesScanned (stats e) /\
  ConflictsFound (stats e') =
    (if found_of a is O then ConflictsFound (stats e)
     else add64 (ConflictsFound (stats e)) 1) /\
  ConflictsResolved (stats e') =
    (if resolved_of a is O then ConflictsResolved (stats e)
     else add64 (ConflictsResolved (stats e)) 1) /\
  ErrorsEncountered (stats e') =
    (if errors_of a is O then ErrorsEncountered (stats e)
     else add64 (ErrorsEncountered (stats e)) 1).
Proof.
  destruct a; simpl; try (intros [= <-]; by repeat split).
  destruct (AddError (errorHandler e) err); [|discriminate].
  intros [= <-]; by repeat split.
Qed.

Lemma run_actions_tally (acts : list Action) (e e' : SyncEngine) :
  run_actions acts e = Some e' ->
  FilesScanned (stats e') = FilesScanned (stats e) /\
  (0 <= ConflictsFound (stats e) ->
   ConflictsFound (stats e) + Z.of_nat (tally found_of acts) <= max_int64 ->
   ConflictsFound (stats e') = ConflictsFound (stats e) + Z.of_nat (tally found_of acts)) /\
  (0 <= ConflictsResolved (stats e) ->
   ConflictsResolved (stats e) + Z.of_nat (tally resolved_of acts) <= max_int64 ->
   ConflictsResolved (stats e') =
     ConflictsResolved (stats e) + Z.of_nat (tally resolved_of acts)) /\
  (0 <= ErrorsEncountered (stats e) ->
   ErrorsEncountered (stats e) + Z.of_nat (tally errors_of acts) <= max_int64 ->
   ErrorsEncountered (stats e') =
     ErrorsEncountered (stats e) + Z.of_nat (tally errors_of acts)).
Proof.
  revert e. induction acts as [|a acts IH]; intros e Hrun; simpl in *.
  - injection Hrun as <-. repeat split; intros; lia.
  - destruct (apply_action a e) as [e1|] eqn:Ha; [|discriminate].
    destruct (apply_action_tally a e e1 Ha) as (Hs & Hf & Hr & Hx).
    destruct (IH e1 Hrun) as (Hs' & Hf' & Hr' & Hx').
    assert (forall v, 0 <= v -> v + 1 <= max_int64 -> add64 v 1 = v + 1) as Hadd.
    { intros v Hv Hle. apply add64_small. unfold in_int64, min_int64, max_int64 in *. lia. }
    split; [congruence|]. repeat split; intros H0 Hb.
    + destruct (found_of a) as [|[|?]] eqn:E; try (destruct a; discriminate).
      * rewrite Hf', Hf; simpl in *; lia.
      * rewrite Hf in Hf'. rewrite Hadd in Hf' by (simpl in *; lia).
        rewrite Hf'; simpl in *; lia.
    + destruct (resolved_of a) as [|[|?]] eqn:E; try (destruct a; discriminate).
      * rewrite Hr', Hr; simpl in *; lia.
      * rewrite Hr in Hr'. rewrite Hadd in Hr' by (simpl in *; lia).
        rewrite Hr'; simpl in *; lia.
    + destruct (errors_of a) as [|[|?]] eqn:E; try (destruct a; discriminate).
      * rewrite Hx', Hx; simpl in *; lia.
      * rewrite Hx in Hx'. rewrite Hadd in Hx' by (simpl in *; lia).
        rewrite Hx'; simpl in *; lia.
Qed.

Lemma tally_copies (f : Action -> nat) (c : Call) (n : nat) :
  f (Invoke c) = 0%nat -> tally f (repeat (Invoke c) n) = 0%nat.
Proof. intros Hf. induction n as [|n IH]; simpl; [reflexivity | by rewrite Hf, IH]. Qed.

Lemma sync_step_tally (rm : RetryManager) (fe : FileEnv) (sourceFile : FileInfo)
    (destPath : string) (exists_ : bool) (opts : SyncOptions) :
  tally found_of (fst (sync_step rm fe sourceFile destPath exists_ opts)) = 0%nat /\
  tally resolved_of (fst (sync_step rm fe sourceFile destPath exists_ opts)) = 0%nat /\
  (tally errors_of (fst (sync_step rm fe sourceFile destPath exists_ opts)) <= 1)%nat.
Proof.
  unfold sync_step. destruct (DryRun opts); [by destruct exists_; repeat split; simpl; lia|].
  destruct (IsDir sourceFile).
  - destruct (mkdirAll fe); repeat split; simpl; lia.
  - unfold copy_step.
    destruct (ExecuteWithRetry rm (attempts fe) (retry_wait fe)) as [n [copyErr|]];
      simpl; rewrite !tally_app, !tally_copies by reflexivity;
      destruct exists_; repeat split; simpl; lia.
Qed.

Lemma tally_cons (f : Action -> nat) (a : Action) (l : list Action) :
  tally f (a :: l) = (f a + tally f l)%nat.
Proof. reflexivity. Qed.

Lemma tally_nil (f : Action -> nat) : tally f [] = 0%nat.
Proof. reflexivity. Qed.

Lemma worker_tally (P : PathLib) (cr : ConflictResolver) (rm : RetryManager)
    (fe : FileEnv) (source destination : string) (file : FileInfo)
    (destMap : gmap string FileInfo) (opts : SyncOptions) :
  let w := worker P cr rm fe source destination file destMap opts in
  (tally found_of w <= 1)%nat /\
  (tally resolved_of w <= tally found_of w)%nat /\
  (tally errors_of w <= 2)%nat.
Proof.
  unfold worker, syncFile.
  destruct (Rel P source (Path file)) as [rel|err];
    [|lazy beta iota zeta;
      repeat first [rewrite tally_app | rewrite tally_cons | rewrite tally_nil]; simpl; lia].
  pose proof (sync_step_tally rm fe file (Join P destination rel) false opts)
    as (Sf & Sr & Sx).
  pose proof (sync_step_tally rm fe file (Join P destination rel) true opts)
    as (Sf' & Sr' & Sx').
  destruct (sync_step rm fe file (Join P destination rel) false opts) as [acts [e0|]];
    destruct (sync_step rm fe file (Join P destination rel) true opts) as [acts' [e0'|]];
    cbn [fst snd] in Sf, Sr, Sx, Sf', Sr', Sx';
    destruct (destMap !! rel) as [destFile|];
    try destruct (needsSync file destFile opts);
    try destruct (DetectConflict file destFile) as [conflict|];
    try destruct (ResolveConflict cr (ask fe) conflict) as [r [err|]];
    try destruct r;
    try destruct (CreateBackup cr (backup_mkdirAll fe) (backup_copyFile fe));
    unfold prepend; cbn [fst snd app]; lazy beta iota zeta;
    cbn [fst snd app];
    repeat first [rewrite tally_app | rewrite tally_cons | rewrite tally_nil];
    cbn [found_of resolved_of errors_of]; lia.
Qed.

Lemma dispatch_counters (P : PathLib) (env : SyncEnv) (source destination : string)
    (destMap : gmap string FileInfo) (opts : SyncOptions)
    (sourceFiles : list FileInfo) (i : nat) (e e' : SyncEngine) (err : option error)
    (k : Z) :
  dispatch P env source destination destMap opts sourceFiles i e = Some (e', err) ->
  2 * (k + Z.of_nat (length sourceFiles)) <= max_int64 ->
  0 <= ConflictsResolved (stats e) <= ConflictsFound (stats e) ->
  ConflictsFound (stats e) <= k ->
  0 <= ErrorsEncountered (stats e) <= 2 * k ->
  FilesScanned (stats e') = FilesScanned (stats e) /\
  0 <= ConflictsResolved (stats e') <= ConflictsFound (stats e') /\
  ConflictsFound (stats e') <= k + Z.of_nat (length sourceFiles) /\
  0 <= ErrorsEncountered (stats e') <= 2 * (k + Z.of_nat (length sourceFiles)).
Proof.
  revert i e k. induction sourceFiles as [|f rest IH]; intros i e k; simpl length.
  - simpl. intros [= <- _] ? ? ? ?. repeat split; lia.
  - simpl dispatch. destruct (dispatch_done env i).
    { intros [= <- _] ? ? ? ?. repeat split; lia. }
    destruct (run_actions _ e) as [e1|] eqn:Hrun; [|discriminate].
    intros Hd Hb Hrf Hfk Hx.
    destruct (run_actions_tally _ _ _ Hrun) as (Hs & Hf1 & Hr1 & Hx1).
    pose proof (worker_tally P (resolver e) (retryManager e) (file_env env i)
                  source destination f destMap opts) as (Wf & Wr & Wx).
    cbn zeta in Wf, Wr, Wx.
    specialize (Hf1 ltac:(lia) ltac:(lia)).
    specialize (Hr1 ltac:(lia) ltac:(lia)).
    specialize (Hx1 ltac:(lia) ltac:(lia)).
    destruct (IH (S i) e1 (k + 1) Hd) as (Hs' & Hrf' & Hf' & Hx'); lia.
Qed.

Lemma dispatch_scanned (P : PathLib) (env : SyncEnv) (source destination : string)
    (destMap : gmap string FileInfo) (opts : SyncOptions)
    (sourceFiles : list FileInfo) (i : nat) (e e' : SyncEngine) (err : option error) :
  dispatch P env source destination destMap opts sourceFiles i e = Some (e', err) ->
  FilesScanned (stats e') = FilesScanned (stats e).
Proof.
  revert i e. induction sourceFiles as [|f rest IH]; intros i e; simpl.
  - by intros [= <- _].
  - destruct (dispatch_done env i); [by intros [= <- _]|].
    destruct (run_actions _ e) as [e1|] eqn:Hrun; [|discriminate].
    intros Hd. rewrite (IH _ _ Hd). by destruct (run_actions_tally _ _ _ Hrun) as (-> & _).
Qed.

(** X27: when [Sync] returns, with or without an error, the counters it
    leaves satisfy [0 <= ConflictsResolved <= ConflictsFound <= FilesScanned]
    and [0 <= ErrorsEncountered <= 2 * FilesScanned] (a failed copy being
    counted twice), provided twice the number of scanned entries fits in an
    [int64]. *)
Theorem Sync_counters_bounded (H : Hashers) (P : PathLib) (e e' : SyncEngine)
    (env : SyncEnv) (source destination : string) (opts : SyncOptions)
    (err : option error) :
  Sync H P e env source destination opts = Some (e', err) ->
  2 * FilesScanned (stats e') <= max_int64 ->
  0 <= ConflictsResolved (stats e') <= ConflictsFound (stats e') /\
  ConflictsFound (stats e') <= FilesScanned (stats e') /\
  0 <= ErrorsEncountered (stats e') <= 2 * FilesScanned (stats e').
Proof.
  unfold Sync.
  destruct (Scan H (scanner (resetStats e)) (src_scan env) source) as [[files|serr] sc].
  2:{ intros [= <- _] _. simpl. lia. }
  cbn zeta.
  match goal with
  | |- context [Scan H ?s (dst_scan env) destination] =>
      destruct (Scan H s (dst_scan env) destination) as [[dfiles|derr] sc']
  end.
  - destruct (Workers opts <? 0); [discriminate|].
    intros Hdisp Hb. pose proof (dispatch_scanned _ _ _ _ _ _ _ _ _ _ _ Hdisp) as Hs.
    simpl in Hs. rewrite Hs in *.
    destruct (dispatch_counters _ _ _ _ _ _ _ _ _ _ _ 0 Hdisp) as (_ & Hrf & Hf & Hx);
      simpl; lia.
  - destruct (negb (os_IsNotExist derr)).
    { intros [= <- _] _. simpl. lia. }
    destruct (Workers opts <? 0); [discriminate|].
    intros Hdisp Hb. pose proof (dispatch_scanned _ _ _ _ _ _ _ _ _ _ _ Hdisp) as Hs.
    simpl in Hs. rewrite Hs in *.
    destruct (dispatch_counters _ _ _ _ _ _ _ _ _ _ _ 0 Hdisp) as (_ & Hrf & Hf & Hx);
      simpl; lia.
Qed.

End SyncProperties.

Lemma healthy_scan_of (events : list WalkEvent) :
  forallb (fun ev => match w_err ev with None => true | Some _ => false end) events = true ->
  EngineMore.healthy_scan (Examples.scan_of events).
Proof.
  intros Hall. split; [|reflexivity]. intros ev Hin.
  rewrite forallb_forall in Hall. specialize (Hall ev (proj1 (list_elem_of_In _ _) Hin)).
  by destruct (w_err ev).
Qed.

Lemma Sync_survives_entry_failures_witness :
  exists e',
    Engine.Sync Examples.toy_hashers SlashPaths.lib (Engine.NewSyncEngine 4)
      Examples.S5_env "/src" "/dst" Engine.mirror_options = Some (e', None).
Proof.
  apply (Sync_survives_entry_failures Examples.toy_hashers SlashPaths.lib
           (Engine.NewSyncEngine 4) Examples.S5_env "/src" "/dst" Engine.mirror_options).
  - apply healthy_scan_of. reflexivity.
  - apply healthy_scan_of. reflexivity.
  - reflexivity.
  - simpl. lia.
  - simpl. lia.
Defined.

Lemma Sync_dry_run_is_read_only_witness :
  Engine.calls MoreExamples.after_dry_run = [] /\
  Engine.errorHandler MoreExamples.after_dry_run =
    Engine.errorHandler (Engine.NewSyncEngine 4) /\
  FilesChanged (Engine.stats MoreExamples.after_dry_run) = 0 /\
  BytesTransferred (Engine.stats MoreExamples.after_dry_run) = 0.
Proof.
  apply (Sync_dry_run_is_read_only Examples.toy_hashers SlashPaths.lib
           (Engine.NewSyncEngine 4) MoreExamples.after_dry_run Examples.one_file_env
           "/src" "/dst" Examples.dry_run_options None).
  - reflexivity.
  - reflexivity.
  - vm_compute. reflexivity.
Defined.

Lemma Sync_counters_bounded_witness :
  0 <= ConflictsResolved (Engine.stats MoreExamples.after_S5)
    <= ConflictsFound (Engine.stats MoreExamples.after_S5) /\
  ConflictsFound (Engine.stats MoreExamples.after_S5)
    <= FilesScanned (Engine.stats MoreExamples.after_S5) /\
  0 <= ErrorsEncountered (Engine.stats MoreExamples.after_S5)
    <= 2 * FilesScanned (Engine.stats MoreExamples.after_S5).
Proof.
  apply (Sync_counters_bounded Examples.toy_hashers SlashPaths.lib
           (Engine.NewSyncEngine 4) MoreExamples.after_S5 Examples.S5_env
           "/src" "/dst" Engine.mirror_options None).
  - vm_compute. reflexivity.
  - vm_compute. discriminate.
Defined.
Section WatchProperties.
Import Copier Engine Watch.



Lemma CopyFile_keeps (fc : FileCopier) (env : CopyEnv) (fs : FS)
    (src dst p : string) (n : Node) :
  fs !! p = Some n -> p <> dst -> fst (CopyFile fc env fs src dst) !! p = Some n.
Proof.
  intros Hp Hne. unfold CopyFile.
  destruct (stat_err env); [exact Hp|].
  destruct (fs !! src) as [srcInfo|]; [|exact Hp].
  destruct (n_isdir srcInfo).
  - by rewrite copyDirectory_other.
  - by apply copyRegularFile_keeps.
Qed.

Variable P : PathLib.

(** X29: whatever the event, [handleChangeEvent] leaves every regular file
    as it was, except the one at the destination path that corresponds to
    the event's path; when that path cannot be made relative to the source
    nothing at all is changed and nothing is printed. *)
Theorem handleChangeEvent_touches_one_path (fc : FileCopier) (env : CopyEnv) (fs : FS)
    (event : ChangeEvent) (source destination : string) :
  match Rel P source (EventPath event) with
  | inr _ => handleChangeEvent P fc env fs event source destination = (fs, [])
  | inl relPath =>
      forall (p : string) (n : Node),
        fs !! p = Some n -> n_isdir n = false -> p <> Join P destination relPath ->
        fst (handleChangeEvent P fc env fs event source destination) !! p = Some n
  end.
Proof.
  unfold handleChangeEvent.
  destruct (Rel P source (EventPath event)) as [relPath|err]; [|reflexivity].
  intros p n Hp _ Hne.
  assert (fst (match Info event with
               | Some info =>
                   if negb (IsDir info) then
                     match CopyFile fc env fs (EventPath event) (Join P destination relPath) with
                     | (fs', Some err) =>
                         (fs', ["Failed to sync file " +:+ EventPath event +:+ ": " +:+ Error err])
                     | (fs', None) => (fs', [])
                     end
                   else (fs, [])
               | None => (fs, [])
               end) !! p = Some n) as Hcopy.
  { destruct (Info event) as [info|]; [|exact Hp].
    destruct (negb (IsDir info)); [|exact Hp].
    pose proof (CopyFile_keeps fc env fs (EventPath event) (Join P destination relPath)
                  p n Hp Hne) as Hk.
    by destruct (CopyFile _ _ _ _ _) as [fs' [e|]]. }
  destruct (EventType event); try exact Hcopy; [|exact Hp].
  unfold os_Remove. destruct (remove_err env) as [e|].
  { by destruct (negb (os_IsNotExist e)). }
  destruct (fs !! Join P destination relPath) as [d|]; [|exact Hp].
  destruct (n_isdir d && has_entries fs (Join P destination relPath)); [exact Hp|].
  simpl. by rewrite lookup_delete_ne.
Qed.

(** X30: a deletion is never lost silently.  After a Delete event whose
    [os.Remove] is not made to fail by the environment, either nothing is
    left at the destination path or a line has been printed; and when
    nothing was there in the first place, nothing is changed and nothing
    is printed. *)
Theorem handleChangeEvent_delete (fc : FileCopier) (env : CopyEnv) (fs : FS)
    (event : ChangeEvent) (source destination relPath : string) :
  EventType event = ChangeDelete ->
  Rel P source (EventPath event) = inl relPath ->
  remove_err env = None ->
  (fst (handleChangeEvent P fc env fs event source destination)
     !! Join P destination relPath = None \/
   snd (handleChangeEvent P fc env fs event source destination) <> []) /\
  (fs !! Join P destination relPath = None ->
   handleChangeEvent P fc env fs event source destination = (fs, [])).
Proof.
  intros Ht Hrel Hrm. unfold handleChangeEvent, os_Remove. rewrite Hrel, Ht, Hrm.
  destruct (fs !! Join P destination relPath) as [d|] eqn:Hd.
  - split; [|discriminate].
    destruct (n_isdir d && has_entries fs (Join P destination relPath)); simpl.
    + by right.
    + left. apply lookup_delete_eq.
  - simpl. split; [by left | reflexivity].
Qed.

End WatchProperties.

Lemma handleChangeEvent_delete_witness :
  (fst (Watch.handleChangeEvent SlashPaths.lib (Copier.NewFileCopier 4 0 true)
          Examples.healthy_copy Examples.one_file_fs
          (Watch.mkChangeEvent Watch.ChangeDelete "/w/a.txt" "" None 0) "/w" "/src")
     !! "/src/a.txt" = None \/
   snd (Watch.handleChangeEvent SlashPaths.lib (Copier.NewFileCopier 4 0 true)
          Examples.healthy_copy Examples.one_file_fs
          (Watch.mkChangeEvent Watch.ChangeDelete "/w/a.txt" "" None 0) "/w" "/src")
     <> []) /\
  (Examples.one_file_fs !! "/src/a.txt" = None ->
   Watch.handleChangeEvent SlashPaths.lib (Copier.NewFileCopier 4 0 true)
     Examples.healthy_copy Examples.one_file_fs
     (Watch.mkChangeEvent Watch.ChangeDelete "/w/a.txt" "" None 0) "/w" "/src"
   = (Examples.one_file_fs, [])).
Proof.
  apply (handleChangeEvent_delete SlashPaths.lib (Copier.NewFileCopier 4 0 true)
           Examples.healthy_copy Examples.one_file_fs
           (Watch.mkChangeEvent Watch.ChangeDelete "/w/a.txt" "" None 0)
           "/w" "/src" "a.txt"); reflexivity.
Defined.
